(** * Reconciliation core of the HAWKI model repository

    A shallow embedding of
      - [.github/.generate/src/sources/deduplicateModels.ts]
        ([deduplicateModels], [deduplicateProviders]) and
      - [.github/.generate/src/processing/processor.ts] ([processor]),
    together with the properties of the model catalog that follow from them.

    Conventions of the embedding.
      - A JavaScript string is a [string].  The ids, names and keys that the
        sources produce are ASCII: one code unit for every character, and
        [String.length] is [.length].  A character outside ASCII stands as the
        bytes of its UTF-8 encoding; the embedding follows the code where it
        tells such a character from the others (the line separators U+2028
        and U+2029, for the [.] of a pattern).
      - An optional property [x?: T] is an [option T]; [None] is [undefined].
      - A token count ([contextLength], ...) is an integer, a [Z].
      - A JavaScript number that comes out of [parseFloat] or out of a [Date]
        is a [JsNumber]: not-a-number, an infinity or a finite rational.
      - The built-ins of the platform are parameters of the development:
        [parseFloat], the time value of a date, [hash('sha256', _)],
        [JSON.stringify], [localeCompare] and the clock.  The module
        [Builtins] has simple functions to put in their place when the
        definitions are run on examples.
      - Objects are values.  The functions below mutate the records of their
        input in place; the embedding returns the updated record instead.  This
        is the same thing as long as the records of an input list are distinct
        objects, which is what the source adapters build (one fresh record and
        one fresh offering per upstream model).
      - An object that is used as a table of strings ([HashFileStructure]) is
        the [gmap] of its own properties, read and written with
        [Js.getProperty] and [Js.setProperty], which know what
        [Object.prototype] has behind them.
      - A [throw] is the [Throw] result of the [Result] monad. *)

From Stdlib Require Import Ascii Sorting.Sorted QArith.Qcanon.
From stdpp Require Import base numbers list strings gmap.

Local Open Scope string_scope.

(** ** JavaScript built-ins *)

Module Js.

(** *** Results of code that may throw *)

Inductive Result (A : Type) : Type :=
| Ok (a : A)
| Throw (message : string).
Arguments Ok {A} a.
Arguments Throw {A} message.

Definition bind {A B} (r : Result A) (k : A → Result B) : Result B :=
  match r with
  | Ok a => k a
  | Throw e => Throw e
  end.

(** [for (const x of xs) { acc = await body(acc, x) }] *)
Fixpoint forOf {A S} (body : S → A → Result S) (xs : list A) (acc : S)
  : Result S :=
  match xs with
  | [] => Ok acc
  | x :: xs' => bind (body acc x) (forOf body xs')
  end.

(** *** Numbers *)

Inductive JsNumber : Type :=
| NaN
| NegInfinity
| Finite (q : Qc)
| PosInfinity.

Definition isNaN (a : JsNumber) : bool :=
  match a with NaN => true | _ => false end.

(** [a < b] on numbers; every comparison with [NaN] is false. *)
Definition lt (a b : JsNumber) : bool :=
  match a, b with
  | NaN, _ | _, NaN => false
  | NegInfinity, NegInfinity => false
  | NegInfinity, _ => true
  | Finite _, NegInfinity => false
  | Finite x, Finite y => bool_decide (x < y)%Qc
  | Finite _, PosInfinity => true
  | PosInfinity, _ => false
  end.

(** [a > b] *)
Definition gt (a b : JsNumber) : bool := lt b a.

(** *** Strings *)

Definition isUpper (c : ascii) : bool :=
  let n := nat_of_ascii c in (65 <=? n)%nat && (n <=? 90)%nat.

Definition lowerChar (c : ascii) : ascii :=
  if isUpper c then ascii_of_nat (nat_of_ascii c + 32) else c.

(** [s.toLowerCase()] *)
Fixpoint toLowerCase (s : string) : string :=
  match s with
  | EmptyString => EmptyString
  | String c s' => String (lowerChar c) (toLowerCase s')
  end.

(** [s.endsWith(suffix)] *)
Definition endsWith (s suffix : string) : bool :=
  let n := String.length s in
  let k := String.length suffix in
  (k <=? n)%nat && String.eqb (String.substring (n - k) k s) suffix.

(** [s.startsWith(p)] *)
Definition startsWith (s p : string) : bool := String.prefix p s.

(** [s.slice(0, -k)], for [0 < k] *)
Definition sliceEnd (s : string) (k : nat) : string :=
  String.substring 0 (String.length s - k) s.

(** [s.replace(/[^a-z0-9]/g, '')] *)
Definition isLowerAlnum (c : ascii) : bool :=
  let n := nat_of_ascii c in
  ((97 <=? n)%nat && (n <=? 122)%nat) || ((48 <=? n)%nat && (n <=? 57)%nat).

Fixpoint keepLowerAlnum (s : string) : string :=
  match s with
  | EmptyString => EmptyString
  | String c s' =>
      if isLowerAlnum c then String c (keepLowerAlnum s') else keepLowerAlnum s'
  end.

(** Truthiness of an optional string: [undefined] and [''] are falsy. *)
Definition truthy (s : option string) : bool :=
  match s with
  | Some s => negb (String.eqb s "")
  | None => false
  end.

(** *** Arrays and sets *)

(** [set.add(x)]: a [Set] keeps its elements in insertion order. *)
Definition setAdd `{EqDecision A} (set : list A) (x : A) : list A :=
  if decide (x ∈ set) then set else set ++ [x].

(** [Array.from(new Set(xs))] *)
Definition arrayFromSet `{EqDecision A} (xs : list A) : list A :=
  foldl setAdd [] xs.

(** [xs.every(v => set.has(v))] *)
Definition everyIn `{EqDecision A} (xs set : list A) : bool :=
  forallb (λ v, bool_decide (v ∈ set)) xs.

(** [xs.sort(compare)]: the sort of an array is stable; [x] goes before the
    first element that [compare] does not put before it. *)
Fixpoint sortInsert {A} (compare : A → A → Z) (x : A) (sorted : list A)
  : list A :=
  match sorted with
  | [] => [x]
  | y :: sorted' =>
      if (compare x y <=? 0)%Z then x :: y :: sorted'
      else y :: sortInsert compare x sorted'
  end.

Fixpoint sort {A} (compare : A → A → Z) (xs : list A) : list A :=
  match xs with
  | [] => []
  | x :: xs' => sortInsert compare x (sort compare xs')
  end.

(** The order of [xs.sort()] on strings: by code units. *)
Definition byCodeUnits (a b : string) : Z :=
  match String.compare a b with
  | Lt => (-1)%Z
  | Eq => 0%Z
  | Gt => 1%Z
  end.

(** *** Maps

    A [Map] keeps its keys in insertion order; [set] on a key that is present
    replaces the value where it stands. *)

Fixpoint mapGet {V} (key : string) (map : list (string * V)) : option V :=
  match map with
  | [] => None
  | (k, v) :: map' => if decide (k = key) then Some v else mapGet key map'
  end.

Fixpoint mapSet {V} (key : string) (value : V) (map : list (string * V))
  : list (string * V) :=
  match map with
  | [] => [(key, value)]
  | (k, v) :: map' =>
      if decide (k = key) then (k, value) :: map'
      else (k, v) :: mapSet key value map'
  end.

(** [Array.from(map.values())] *)
Definition mapValues {V} (map : list (string * V)) : list V := map.*2.

(** *** Objects as tables of strings

    An object that [JSON.parse] returns has its own properties, and behind
    them the members of [Object.prototype]: a key that is no own property
    of the object is looked up there. *)

(** [Object.getOwnPropertyNames(Object.prototype)] *)
Definition objectPrototype : list string :=
  ["constructor"; "__defineGetter__"; "__defineSetter__"; "hasOwnProperty";
   "__lookupGetter__"; "__lookupSetter__"; "isPrototypeOf";
   "propertyIsEnumerable"; "toString"; "valueOf"; "__proto__";
   "toLocaleString"].

(** What [object[key]] gives. *)
Inductive Property : Type :=
| StringValue (value : string)   (* an own property *)
| ObjectValue   (* a member of [Object.prototype]: a function, and under
                   [__proto__] the prototype itself *)
| Undefined.

(** [object[key]] *)
Definition getProperty (object : gmap string string) (key : string)
  : Property :=
  match object !! key with
  | Some value => StringValue value
  | None =>
      if bool_decide (key ∈ objectPrototype) then ObjectValue else Undefined
  end.

(** [object[key] = value], for a string [value].  A key that the object
    does not have becomes an own property, but for [__proto__]: that
    assignment goes to the setter of [Object.prototype], which does nothing
    with a value that is neither an object nor [null]. *)
Definition setProperty (object : gmap string string) (key value : string)
  : gmap string string :=
  match object !! key with
  | Some _ => <[key := value]> object
  | None =>
      if String.eqb key "__proto__" then object
      else <[key := value]> object
  end.

(** [value ?? fallback] *)
Definition orElse (value : Property) (fallback : string) : Property :=
  match value with
  | Undefined => StringValue fallback
  | _ => value
  end.

(** [value === s], for a string [s] *)
Definition isString (value : Property) (s : string) : bool :=
  match value with
  | StringValue v => String.eqb v s
  | _ => false
  end.

End Js.

#[global] Instance result_ret : MRet Js.Result := @Js.Ok.
#[global] Instance result_bind : MBind Js.Result := λ A B k r, Js.bind r k.

(** ** Source records ([sources/types.ts]) *)

Module Source.

(** [ModelInformationOfProvider['price']] *)
Record Price : Type := {
  currency : string;
  priceInput : option string;   (* [price.input] *)
  priceOutput : option string   (* [price.output] *)
}.

Record ModelInformationOfProvider : Type := {
  providerId : string;
  providerName : option string;
  contextLength : option Z;
  inputLimit : option Z;
  outputLimit : option Z;
  price : option Price
}.

Inductive InputModality := InText | InImage | InFile | InAudio | InVideo.
Inductive OutputModality := OutText | OutImage | OutEmbeddings.

#[global] Instance InputModality_eq_dec : EqDecision InputModality.
Proof. solve_decision. Defined.
#[global] Instance OutputModality_eq_dec : EqDecision OutputModality.
Proof. solve_decision. Defined.

(** A value of a default parameter ([Record<string, any>]): JSON. *)
#[local] Unset Elimination Schemes.
Inductive Json : Type :=
| JNull
| JBool (b : bool)
| JNumber (n : Z)
| JString (s : string)
| JArray (items : list Json)
| JObject (fields : list (string * Json)).
#[local] Set Elimination Schemes.

Record ModelInformation : Type := {
  id : string;
  aliases : list string;
  name : string;
  description : string;
  input : list InputModality;
  output : list OutputModality;
  reasoning : option bool;
  openWeights : option bool;
  toolCalling : option bool;
  knowledge : option string;
  parameters : option (list string);
  defaultParameters : option (gmap string Json);
  providers : list ModelInformationOfProvider;
  freeProviders : option (list ModelInformationOfProvider)
}.

(** Property assignments, [model.field = value]. *)
Definition setId (v : string) (m : ModelInformation) :=
  {| id := v; aliases := aliases m; name := name m;
     description := description m; input := input m; output := output m;
     reasoning := reasoning m; openWeights := openWeights m;
     toolCalling := toolCalling m; knowledge := knowledge m;
     parameters := parameters m; defaultParameters := defaultParameters m;
     providers := providers m; freeProviders := freeProviders m |}.
Definition setAliases (v : list string) (m : ModelInformation) :=
  {| id := id m; aliases := v; name := name m;
     description := description m; input := input m; output := output m;
     reasoning := reasoning m; openWeights := openWeights m;
     toolCalling := toolCalling m; knowledge := knowledge m;
     parameters := parameters m; defaultParameters := defaultParameters m;
     providers := providers m; freeProviders := freeProviders m |}.
Definition setDescription (v : string) (m : ModelInformation) :=
  {| id := id m; aliases := aliases m; name := name m;
     description := v; input := input m; output := output m;
     reasoning := reasoning m; openWeights := openWeights m;
     toolCalling := toolCalling m; knowledge := knowledge m;
     parameters := parameters m; defaultParameters := defaultParameters m;
     providers := providers m; freeProviders := freeProviders m |}.
Definition setInput (v : list InputModality) (m : ModelInformation) :=
  {| id := id m; aliases := aliases m; name := name m;
     description := description m; input := v; output := output m;
     reasoning := reasoning m; openWeights := openWeights m;
     toolCalling := toolCalling m; knowledge := knowledge m;
     parameters := parameters m; defaultParameters := defaultParameters m;
     providers := providers m; freeProviders := freeProviders m |}.
Definition setOutput (v : list OutputModality) (m : ModelInformation) :=
  {| id := id m; aliases := aliases m; name := name m;
     description := description m; input := input m; output := v;
     reasoning := reasoning m; openWeights := openWeights m;
     toolCalling := toolCalling m; knowledge := knowledge m;
     parameters := parameters m; defaultParameters := defaultParameters m;
     providers := providers m; freeProviders := freeProviders m |}.
Definition setReasoning (v : option bool) (m : ModelInformation) :=
  {| id := id m; aliases := aliases m; name := name m;
     description := description m; input := input m; output := output m;
     reasoning := v; openWeights := openWeights m;
     toolCalling := toolCalling m; knowledge := knowledge m;
     parameters := parameters m; defaultParameters := defaultParameters m;
     providers := providers m; freeProviders := freeProviders m |}.
Definition setOpenWeights (v : option bool) (m : ModelInformation) :=
  {| id := id m; aliases := aliases m; name := name m;
     description := description m; input := input m; output := output m;
     reasoning := reasoning m; openWeights := v;
     toolCalling := toolCalling m; knowledge := knowledge m;
     parameters := parameters m; defaultParameters := defaultParameters m;
     providers := providers m; freeProviders := freeProviders m |}.
Definition setToolCalling (v : option bool) (m : ModelInformation) :=
  {| id := id m; aliases := aliases m; name := name m;
     description := description m; input := input m; output := output m;
     reasoning := reasoning m; openWeights := openWeights m;
     toolCalling := v; knowledge := knowledge m;
     parameters := parameters m; defaultParameters := defaultParameters m;
     providers := providers m; freeProviders := freeProviders m |}.
Definition setKnowledge (v : option string) (m : ModelInformation) :=
  {| id := id m; aliases := aliases m; name := name m;
     description := description m; input := input m; output := output m;
     reasoning := reasoning m; openWeights := openWeights m;
     toolCalling := toolCalling m; knowledge := v;
     parameters := parameters m; defaultParameters := defaultParameters m;
     providers := providers m; freeProviders := freeProviders m |}.
Definition setParameters (v : option (list string)) (m : ModelInformation) :=
  {| id := id m; aliases := aliases m; name := name m;
     description := description m; input := input m; output := output m;
     reasoning := reasoning m; openWeights := openWeights m;
     toolCalling := toolCalling m; knowledge := knowledge m;
     parameters := v; defaultParameters := defaultParameters m;
     providers := providers m; freeProviders := freeProviders m |}.
Definition setDefaultParameters (v : option (gmap string Json))
  (m : ModelInformation) :=
  {| id := id m; aliases := aliases m; name := name m;
     description := description m; input := input m; output := output m;
     reasoning := reasoning m; openWeights := openWeights m;
     toolCalling := toolCalling m; knowledge := knowledge m;
     parameters := parameters m; defaultParameters := v;
     providers := providers m; freeProviders := freeProviders m |}.
Definition setProviders (v : list ModelInformationOfProvider)
  (m : ModelInformation) :=
  {| id := id m; aliases := aliases m; name := name m;
     description := description m; input := input m; output := output m;
     reasoning := reasoning m; openWeights := openWeights m;
     toolCalling := toolCalling m; knowledge := knowledge m;
     parameters := parameters m; defaultParameters := defaultParameters m;
     providers := v; freeProviders := freeProviders m |}.
Definition setFreeProviders (v : option (list ModelInformationOfProvider))
  (m : ModelInformation) :=
  {| id := id m; aliases := aliases m; name := name m;
     description := description m; input := input m; output := output m;
     reasoning := reasoning m; openWeights := openWeights m;
     toolCalling := toolCalling m; knowledge := knowledge m;
     parameters := parameters m; defaultParameters := defaultParameters m;
     providers := providers m; freeProviders := v |}.

End Source.

(** ** Deduplication ([sources/deduplicateModels.ts]) *)

Module Dedup.
Import Source.

Inductive Flag := OpenWeights | Reasoning | ToolCalling.

#[global] Instance Flag_eq_dec : EqDecision Flag.
Proof. solve_decision. Defined.

(** [model[flag]] and [model[flag] = v] *)
Definition getFlag (flag : Flag) (m : ModelInformation) : option bool :=
  match flag with
  | OpenWeights => openWeights m
  | Reasoning => reasoning m
  | ToolCalling => toolCalling m
  end.

Definition setFlag (flag : Flag) (v : option bool) (m : ModelInformation)
  : ModelInformation :=
  match flag with
  | OpenWeights => setOpenWeights v m
  | Reasoning => setReasoning v m
  | ToolCalling => setToolCalling v m
  end.

Definition flags : list Flag := [OpenWeights; Reasoning; ToolCalling].

Definition freeSuffix : string := ":free".

(** [id.toLowerCase().replace(/[^a-z0-9]/g, '')] *)
Definition makeIdComparable (id : string) : string :=
  Js.keepLowerAlnum (Js.toLowerCase id).

(** [a.size !== b.size || ![...a].every(value => b.has(value))], for the sets
    [a] and [b] of two arrays *)
Definition setsDiffer `{EqDecision A} (xs ys : list A) : bool :=
  let a := Js.arrayFromSet xs in
  let b := Js.arrayFromSet ys in
  negb (length a =? length b)%nat || negb (Js.everyIn a b).

(** [(a, b) => b.length - a.length] *)
Definition byLengthDesc (a b : string) : Z :=
  (Z.of_nat (String.length b) - Z.of_nat (String.length a))%Z.

Section WithBuiltins.

(** [parseFloat] *)
Variable parseFloat : string → Js.JsNumber.
(** The time value of [new Date(s)] *)
Variable dateValue : string → Js.JsNumber.

(** *** [deduplicateProviders] *)

(** The predicate of [deduplicated.find]: [p] is in the list already,
    [provider] comes in. *)
Definition sameProvider (p provider : ModelInformationOfProvider) : bool :=
  bool_decide (currency <$> price p = currency <$> price provider)
  && (String.eqb (providerId p) (providerId provider)
      || (Js.truthy (providerName p) && Js.truthy (providerName provider)
          && (5 <? String.length (default "" (providerName p)))%nat
          && Js.startsWith (default "" (providerName provider))
               (default "" (providerName p)))
      || (Js.truthy (providerName p) && Js.truthy (providerName provider)
          && (5 <? String.length (default "" (providerName provider)))%nat
          && Js.startsWith (default "" (providerName p))
               (default "" (providerName provider)))).

(** The lower of two limits, [undefined] being unknown. *)
Definition mergeLimit (existing provider : option Z) : option Z :=
  match provider with
  | Some p =>
      match existing with
      | None => Some p
      | Some e => if (p <? e)%Z then Some p else Some e
      end
  | None => existing
  end.

(** The higher of two prices, [undefined] being unknown. *)
Definition mergePriceValue (existing provider : option string)
  : option string :=
  match provider with
  | Some p =>
      match existing with
      | None => Some p
      | Some e =>
          if Js.gt (parseFloat p) (parseFloat e) then Some p else Some e
      end
  | None => existing
  end.

Definition mergePrice (existing provider : option Price) : option Price :=
  match provider with
  | Some pp =>
      let ep :=
        match existing with
        | Some ep => ep
        | None => {| currency := currency pp;
                     priceInput := None; priceOutput := None |}
        end in
      Some {| currency := currency ep;
              priceInput := mergePriceValue (priceInput ep) (priceInput pp);
              priceOutput :=
                mergePriceValue (priceOutput ep) (priceOutput pp) |}
  | None => existing
  end.

(** The body of [if (existing) { ... }]. *)
Definition mergeProvider (existing provider : ModelInformationOfProvider)
  : ModelInformationOfProvider :=
  {| providerId :=
       if (String.length (providerId provider)
           <? String.length (providerId existing))%nat
       then providerId provider else providerId existing;
     providerName :=
       if Js.truthy (providerName provider)
          && (negb (Js.truthy (providerName existing))
              || (String.length (default "" (providerName existing))
                  <? String.length (default "" (providerName provider)))%nat)
       then providerName provider else providerName existing;
     contextLength :=
       mergeLimit (contextLength existing) (contextLength provider);
     inputLimit := mergeLimit (inputLimit existing) (inputLimit provider);
     outputLimit :=
       mergeLimit (outputLimit existing) (outputLimit provider);
     price := mergePrice (price existing) (price provider) |}.

(** One turn of the loop: the first offering of [deduplicated] that is the
    same provider is merged where it stands, otherwise [provider] is
    pushed. *)
Fixpoint mergeOrPush (deduplicated : list ModelInformationOfProvider)
  (provider : ModelInformationOfProvider)
  : list ModelInformationOfProvider :=
  match deduplicated with
  | [] => [provider]
  | p :: rest =>
      if sameProvider p provider then mergeProvider p provider :: rest
      else p :: mergeOrPush rest provider
  end.

Definition deduplicateProviders
  (providers : list ModelInformationOfProvider)
  : list ModelInformationOfProvider :=
  foldl mergeOrPush [] providers.

(** *** [deduplicateModels] *)

(** [if (isFreeModel) { model.id = model.id.slice(0, -freeSuffix.length);
    model.aliases.push(model.id); }] *)
Definition isFreeModel (model : ModelInformation) : bool :=
  Js.endsWith (Js.toLowerCase (id model)) freeSuffix.

Definition stripFreeSuffix (model : ModelInformation) : ModelInformation :=
  if isFreeModel model then
    let id' := Js.sliceEnd (id model) (String.length freeSuffix) in
    setAliases (aliases model ++ [id']) (setId id' model)
  else model.

Definition mergeAliases (existingModel model : ModelInformation)
  : ModelInformation :=
  setAliases
    (Js.sort byLengthDesc
       (Js.arrayFromSet (aliases existingModel ++ aliases model)))
    existingModel.

Definition mergeProviders (free : bool)
  (existingModel model : ModelInformation) : ModelInformation :=
  if free then
    setFreeProviders
      (Some (deduplicateProviders
               (default [] (freeProviders existingModel) ++ providers model)))
      existingModel
  else
    setProviders
      (deduplicateProviders (providers existingModel ++ providers model))
      existingModel.

Definition mergeDescription (existingModel model : ModelInformation)
  : ModelInformation :=
  if String.eqb (description existingModel) ""
     && negb (String.eqb (description model) "")
  then setDescription (description model) existingModel
  else existingModel.

Definition mergeInput (existingModel model : ModelInformation)
  : ModelInformation :=
  if setsDiffer (input existingModel) (input model)
  then setInput (Js.arrayFromSet (input existingModel ++ input model))
         existingModel
  else existingModel.

Definition mergeOutput (existingModel model : ModelInformation)
  : ModelInformation :=
  if setsDiffer (output existingModel) (output model)
  then setOutput (Js.arrayFromSet (output existingModel ++ output model))
         existingModel
  else existingModel.

(** The sets are those of [parameters ?? []], the arrays that are spread
    are [parameters!]: spreading [undefined] into an array throws. *)
Definition mergeParameters (existingModel model : ModelInformation)
  : Js.Result ModelInformation :=
  if setsDiffer (default [] (parameters existingModel))
       (default [] (parameters model))
  then
    match parameters existingModel, parameters model with
    | Some a, Some b =>
        Js.Ok (setParameters (Some (Js.arrayFromSet (a ++ b))) existingModel)
    | _, _ => Js.Throw "TypeError: undefined is not iterable"
    end
  else Js.Ok existingModel.

(** [{...model.defaultParameters, ...(existingModel.defaultParameters ?? {})}]:
    the values of [existingModel] stay. *)
Definition mergeDefaultParameters (existingModel model : ModelInformation)
  : ModelInformation :=
  match defaultParameters model with
  | Some theirs =>
      setDefaultParameters
        (Some (default ∅ (defaultParameters existingModel) ∪ theirs))
        existingModel
  | None => existingModel
  end.

Definition mergeFlag (model existingModel : ModelInformation) (flag : Flag)
  : ModelInformation :=
  if bool_decide (getFlag flag existingModel = Some false)
     || bool_decide (getFlag flag model = Some false)
  then setFlag flag (Some false) existingModel
  else if bool_decide (getFlag flag existingModel = None)
  then setFlag flag (getFlag flag model) existingModel
  else existingModel.

Definition mergeFlags (existingModel model : ModelInformation)
  : ModelInformation :=
  foldl (mergeFlag model) existingModel flags.

Definition mergeKnowledge (existingModel model : ModelInformation)
  : ModelInformation :=
  if Js.truthy (knowledge existingModel) && Js.truthy (knowledge model)
  then
    if Js.lt (dateValue (default "" (knowledge model)))
         (dateValue (default "" (knowledge existingModel)))
    then setKnowledge (knowledge model) existingModel
    else existingModel
  else if negb (Js.truthy (knowledge existingModel))
          && Js.truthy (knowledge model)
  then setKnowledge (knowledge model) existingModel
  else existingModel.

(** The part of the loop body after [modelsById.get(comparableId)]. *)
Definition mergeModel (free : bool) (existingModel model : ModelInformation)
  : Js.Result ModelInformation :=
  let e1 := mergeAliases existingModel model in
  let e2 := mergeProviders free e1 model in
  let e3 := mergeDescription e2 model in
  let e4 := mergeInput e3 model in
  let e5 := mergeOutput e4 model in
  e6 ← mergeParameters e5 model;
  let e7 := mergeDefaultParameters e6 model in
  let e8 := mergeFlags e7 model in
  mret (mergeKnowledge e8 model).

(** The loop body.  The canonical model is changed in place: the entry of
    the map keeps its key and its position. *)
Definition dedupModel (modelsById : list (string * ModelInformation))
  (model0 : ModelInformation)
  : Js.Result (list (string * ModelInformation)) :=
  let free := isFreeModel model0 in
  let model := stripFreeSuffix model0 in
  let comparableId := makeIdComparable (id model) in
  match Js.mapGet comparableId modelsById with
  | None => mret (Js.mapSet comparableId model modelsById)
  | Some existingModel =>
      merged ← mergeModel free existingModel model;
      mret (Js.mapSet comparableId merged modelsById)
  end.

Definition deduplicateModels (models : list ModelInformation)
  : Js.Result (list ModelInformation) :=
  modelsById ← Js.forOf dedupModel models [];
  mret (Js.mapValues modelsById).

End WithBuiltins.

End Dedup.

(** ** Stand-ins for the built-ins

    Concrete functions to run the definitions on examples: [parseFloat] on
    plain decimal strings ([-12.50]), a time value for dates written
    [YYYY-MM-DD] that grows with the date, a digest and a serialization that
    tell the sample records apart, the order by code units for
    [localeCompare], and a clock. *)

Module Builtins.

Definition digit (c : ascii) : option Z :=
  let n := nat_of_ascii c in
  if (48 <=? n)%nat && (n <=? 57)%nat then Some (Z.of_nat (n - 48)) else None.

(** The digits of [s] read as a number, and how many there are. *)
Fixpoint digits (s : string) (acc : Z) (count : nat) : option (Z * nat) :=
  match s with
  | EmptyString => Some (acc, count)
  | String c s' =>
      d ← digit c; digits s' (10 * acc + d)%Z (S count)
  end.

Fixpoint splitAtDot (s : string) : string * option string :=
  match s with
  | EmptyString => (EmptyString, None)
  | String c s' =>
      if Ascii.eqb c "."%char then (EmptyString, Some s')
      else let '(a, b) := splitAtDot s' in (String c a, b)
  end.

Definition unsignedDecimal (s : string) : option Qc :=
  let '(whole, fraction) := splitAtDot s in
  '(w, n) ← digits whole 0%Z 0;
  '(f, k) ← digits (default "" fraction) 0%Z 0;
  if (n + k =? 0)%nat then None
  else Some (Q2Qc (QArith_base.Qmake (w * 10 ^ Z.of_nat k + f)
                   (Z.to_pos (10 ^ Z.of_nat k)))).

Definition decimalParseFloat (s : string) : Js.JsNumber :=
  match s with
  | String "-"%char s' =>
      match unsignedDecimal s' with
      | Some q => Js.Finite (- q)%Qc
      | None => Js.NaN
      end
  | _ =>
      match unsignedDecimal s with
      | Some q => Js.Finite q
      | None => Js.NaN
      end
  end.

Fixpoint dropDashes (s : string) : string :=
  match s with
  | EmptyString => EmptyString
  | String c s' =>
      if Ascii.eqb c "-"%char then dropDashes s' else String c (dropDashes s')
  end.

Definition isoDateValue (s : string) : Js.JsNumber :=
  match digits (dropDashes s) 0%Z 0 with
  | Some (v, S _) => Js.Finite (Qc_of_Z v)
  | _ => Js.NaN
  end.

Definition plainDigest (s : string) : string := String.append "sha256:" s.

Definition plainStringify (model : Source.ModelInformation) : string :=
  String.concat "|"
    ([Source.id model; Source.name model; Source.description model]
     ++ Source.aliases model
     ++ (Source.providerId <$> Source.providers model)).

Fixpoint ticks (n : nat) : string :=
  match n with
  | O => ""
  | S n' => String "+"%char (ticks n')
  end.

Definition clockReading (n : nat) : string :=
  String.append "2026-01-01T00:00:00Z" (ticks n).

End Builtins.

(** ** Processed records ([types.ts]) *)

Module Processed.

Record ProcessedModelProviderInformation : Type := {
  providerId : string;
  contextLength : option Z;
  inputLimit : option Z;
  outputLimit : option Z;
  price : gmap string Source.Price
}.

Record ProcessedModelInformation : Type := {
  id : string;
  aliases : list string;
  name : string;
  input : list Source.InputModality;
  output : list Source.OutputModality;
  reasoning : option bool;
  openWeights : option bool;
  toolCalling : option bool;
  knowledge : option string;
  parameters : option (list string);
  defaultParameters : option (gmap string Source.Json);
  freeProviders : option (list Source.ModelInformationOfProvider);
  description : option (gmap string string);
  modelContextLength : option Z;   (* [contextLength] of the model *)
  modelInputLimit : option Z;      (* [inputLimit] of the model *)
  modelOutputLimit : option Z;     (* [outputLimit] of the model *)
  deprecated : option bool;
  lastImportedAt : option string;
  providers : list ProcessedModelProviderInformation
}.

(** [model.deprecated = v] *)
Definition setDeprecated (v : option bool) (m : ProcessedModelInformation)
  : ProcessedModelInformation :=
  {| id := id m; aliases := aliases m; name := name m; input := input m;
     output := output m; reasoning := reasoning m;
     openWeights := openWeights m; toolCalling := toolCalling m;
     knowledge := knowledge m; parameters := parameters m;
     defaultParameters := defaultParameters m;
     freeProviders := freeProviders m; description := description m;
     modelContextLength := modelContextLength m;
     modelInputLimit := modelInputLimit m;
     modelOutputLimit := modelOutputLimit m;
     deprecated := v; lastImportedAt := lastImportedAt m;
     providers := providers m |}.

End Processed.

Module Output.

Record ProviderInformation : Type := {
  id : string;
  name : string
}.

Record OutputStructure : Type := {
  models : list Processed.ProcessedModelInformation;
  providers : list ProviderInformation
}.

End Output.

(** ** The processor ([processing/processor.ts], [processing/steps/types.ts]) *)

Module Processor.
Import Processed.

(** [HashFileStructure]: the own properties of the object that
    [JSON.parse] makes of the hash file. *)
Abbreviation HashFileStructure := (gmap string string).

(** The steps.  The run options and the cache are the same in every call of a
    run and are left out; a step that throws gives [Throw].  A step is a
    function of the records it is given: what it changes, it returns. *)
Definition ProcessingStep : Type :=
  Source.ModelInformation → option ProcessedModelInformation →
  ProcessedModelInformation → Js.Result ProcessedModelInformation.
Definition BatchProcessingStep : Type :=
  list ProcessedModelInformation → Js.Result (list ProcessedModelInformation).
Definition ProcessingNoChangeStep : Type :=
  Source.ModelInformation → ProcessedModelInformation →
  Js.Result ProcessedModelInformation.
Definition ProcessingOutputStructureStep : Type :=
  Output.OutputStructure → Js.Result Output.OutputStructure.

Record Steps : Type := {
  newAndChanged : list ProcessingStep;
  batch : list BatchProcessingStep;
  noChange : list ProcessingNoChangeStep;
  outputStructure : list ProcessingOutputStructureStep
}.

(** The calls of steps that a run makes, in order: which step of its list,
    and what it was given. *)
Inductive Call : Type :=
| CallNewAndChanged (step : nat) (sourceModel : Source.ModelInformation)
    (existingModel : option ProcessedModelInformation)
    (newModel : ProcessedModelInformation)
| CallNoChange (step : nat) (sourceModel : Source.ModelInformation)
    (existingModel : ProcessedModelInformation)
| CallBatch (step : nat) (models : list ProcessedModelInformation)
| CallOutputStructure (step : nat) (structure : Output.OutputStructure).

(** What the loop over the source models changes. *)
Record LoopState : Type := {
  hashes : HashFileStructure;
  newModelsList : list ProcessedModelInformation;
  calls : list Call;
  clock : nat   (* how often the time was read *)
}.

(** [existingModels.find(m => m.id === id)] *)
Definition findModel (id : string) (existingModels : list ProcessedModelInformation)
  : option ProcessedModelInformation :=
  List.find (λ m, String.eqb (Processed.id m) id) existingModels.

(** [existingModels.find(m => m.id === missingModelId)!.deprecated = true]:
    the record is changed where it stands. *)
Fixpoint markDeprecated (existingModels : list ProcessedModelInformation)
  (missingModelId : string) : list ProcessedModelInformation :=
  match existingModels with
  | [] => []
  | m :: rest =>
      if String.eqb (Processed.id m) missingModelId
      then setDeprecated (Some true) m :: rest
      else m :: markDeprecated rest missingModelId
  end.

(** [if (!newModelsList.find(m => m.id === existingModel.id))
      newModelsList.push(existingModel)] *)
Definition addBack (newModelsList : list ProcessedModelInformation)
  (existingModel : ProcessedModelInformation)
  : list ProcessedModelInformation :=
  match findModel (Processed.id existingModel) newModelsList with
  | Some _ => newModelsList
  | None => newModelsList ++ [existingModel]
  end.

(** [{...sourceModel, description: undefined, lastImportedAt: ..., providers: []}] *)
Definition freshModel (sourceModel : Source.ModelInformation)
  (importedAt : string) : ProcessedModelInformation :=
  {| id := Source.id sourceModel;
     aliases := Source.aliases sourceModel;
     name := Source.name sourceModel;
     input := Source.input sourceModel;
     output := Source.output sourceModel;
     reasoning := Source.reasoning sourceModel;
     openWeights := Source.openWeights sourceModel;
     toolCalling := Source.toolCalling sourceModel;
     knowledge := Source.knowledge sourceModel;
     parameters := Source.parameters sourceModel;
     defaultParameters := Source.defaultParameters sourceModel;
     freeProviders := Source.freeProviders sourceModel;
     description := None;
     modelContextLength := None;
     modelInputLimit := None;
     modelOutputLimit := None;
     deprecated := None;
     lastImportedAt := Some importedAt;
     providers := [] |}.

(** The chains of steps, each call written to the log. *)
Fixpoint applyNewAndChanged (steps : list ProcessingStep) (index : nat)
  (sourceModel : Source.ModelInformation)
  (existingModel : option ProcessedModelInformation)
  (newModel : ProcessedModelInformation) (log : list Call)
  : Js.Result (ProcessedModelInformation * list Call) :=
  match steps with
  | [] => mret (newModel, log)
  | step :: steps' =>
      newModel' ← step sourceModel existingModel newModel;
      applyNewAndChanged steps' (S index) sourceModel existingModel newModel'
        (log ++ [CallNewAndChanged index sourceModel existingModel newModel])
  end.

Fixpoint applyNoChange (steps : list ProcessingNoChangeStep) (index : nat)
  (sourceModel : Source.ModelInformation)
  (existingModel : ProcessedModelInformation) (log : list Call)
  : Js.Result (ProcessedModelInformation * list Call) :=
  match steps with
  | [] => mret (existingModel, log)
  | step :: steps' =>
      existingModel' ← step sourceModel existingModel;
      applyNoChange steps' (S index) sourceModel existingModel'
        (log ++ [CallNoChange index sourceModel existingModel])
  end.

Fixpoint applyBatch (steps : list BatchProcessingStep) (index : nat)
  (newModelsList : list ProcessedModelInformation) (log : list Call)
  : Js.Result (list ProcessedModelInformation * list Call) :=
  match steps with
  | [] => mret (newModelsList, log)
  | step :: steps' =>
      newModelsList' ← step newModelsList;
      applyBatch steps' (S index) newModelsList'
        (log ++ [CallBatch index newModelsList])
  end.

Fixpoint applyOutputStructure (steps : list ProcessingOutputStructureStep)
  (index : nat) (structure : Output.OutputStructure) (log : list Call)
  : Js.Result (Output.OutputStructure * list Call) :=
  match steps with
  | [] => mret (structure, log)
  | step :: steps' =>
      structure' ← step structure;
      applyOutputStructure steps' (S index) structure'
        (log ++ [CallOutputStructure index structure])
  end.

Section WithBuiltins.

(** [hash('sha256', s)] *)
Variable sha256 : string → string.
(** [JSON.stringify] of a source model *)
Variable stringify : Source.ModelInformation → string.
(** [a.localeCompare(b)] *)
Variable localeCompare : string → string → Z.
(** [new Date().toISOString()], at the n-th reading of the clock *)
Variable now : nat → string.

Definition calculateModelHash (model : Source.ModelInformation) : string :=
  let modelCopy :=
    Source.setProviders
      (Js.sort (λ a b, localeCompare (Source.providerId a) (Source.providerId b))
         (Source.providers model))
      (Source.setAliases (Js.sort Js.byCodeUnits (Source.aliases model)) model) in
  sha256 (stringify modelCopy).

(** The body of the loop over the source models. *)
Definition processModel (existingModels : list ProcessedModelInformation)
  (existingModelIds : list string) (steps : Steps)
  (st : LoopState) (sourceModel : Source.ModelInformation)
  : Js.Result LoopState :=
  let newHash := calculateModelHash sourceModel in
  let existingHash :=
    Js.orElse (Js.getProperty (hashes st) (Source.id sourceModel)) "-1" in
  let newModel := freshModel sourceModel (now (clock st)) in
  let known := bool_decide (Source.id sourceModel ∈ existingModelIds) in
  let existingModel :=
    if known then findModel (Source.id sourceModel) existingModels
    else None in
  if known && Js.isString existingHash newHash then
    (* The source model is exactly the same as before. *)
    match noChange steps, existingModel with
    | [], _ =>
        mret {| hashes := hashes st; newModelsList := newModelsList st;
                calls := calls st; clock := S (clock st) |}
    | _ :: _, Some existing =>
        '(existing', log) ←
          applyNoChange (noChange steps) 0 sourceModel existing (calls st);
        mret {| hashes := hashes st;
                newModelsList := newModelsList st ++ [existing'];
                calls := log; clock := S (clock st) |}
    | _ :: _, None =>
        (* [find(...)!]: an id of [existingModelIds] is always found *)
        Js.Throw "TypeError: existingModel is undefined"
    end
  else
    (* The source model has changed, or is new. *)
    '(newModel', log) ←
      applyNewAndChanged (newAndChanged steps) 0 sourceModel existingModel
        newModel (calls st);
    mret {| hashes :=
              Js.setProperty (hashes st) (Source.id sourceModel) newHash;
            newModelsList := newModelsList st ++ [newModel'];
            calls := log; clock := S (clock st) |}.

Definition processor (sourceModels : list Source.ModelInformation)
  (structure : Output.OutputStructure) (hashes0 : HashFileStructure)
  (steps : Steps)
  : Js.Result (Output.OutputStructure * HashFileStructure * list Call) :=
  let existingModels := Output.models structure in
  let existingModelIds := Processed.id <$> existingModels in
  let sourceModelIds := Source.id <$> sourceModels in
  let missingModelIds :=
    filter (λ id, id ∉ sourceModelIds) existingModelIds in
  let existingModels := foldl markDeprecated existingModels missingModelIds in
  st ← Js.forOf (processModel existingModels existingModelIds steps)
         sourceModels
         {| hashes := hashes0; newModelsList := []; calls := []; clock := 0 |};
  '(newModelsList, log) ←
    applyBatch (batch steps) 0 (newModelsList st) (calls st);
  let newModelsList := foldl addBack newModelsList existingModels in
  let newModelsList :=
    Js.sort (λ a b, localeCompare (Processed.id a) (Processed.id b))
      newModelsList in
  let structure :=
    {| Output.models := newModelsList;
       Output.providers := Output.providers structure |} in
  '(structure, log) ←
    applyOutputStructure (outputStructure steps) 0 structure log;
  mret (structure, hashes st, log).

End WithBuiltins.

End Processor.

(** ** Ids of upstream models ([util.ts]) *)

Module Util.

(** [s.split(separator)], for a separator of one character: the parts
    between the separators, at least one. *)
Fixpoint split (separator : ascii) (s : string) : list string :=
  match s with
  | EmptyString => [EmptyString]
  | String c s' =>
      if Ascii.eqb c separator then EmptyString :: split separator s'
      else match split separator s' with
           | part :: parts => String c part :: parts
           | [] => [String c EmptyString]
           end
  end.

(** [parts.join(separator)] *)
Definition join (separator : string) (parts : list string) : string :=
  String.concat separator parts.

Definition getModelBaseId (modelId : string) : string :=
  let parts := split "/" modelId in
  if (length parts <=? 1)%nat then modelId
  else default modelId (last parts).

(** [parts.shift(); return parts.join('/')] *)
Definition removeModelidNamespace (modelId : string) : string :=
  let parts := split "/" modelId in
  if (length parts <=? 1)%nat then modelId
  else join "/" (tail parts).

(** *** The patterns of [isJunkModelId]

    Each of the four patterns is a sequence of character classes, the first
    two followed by [(.|$)]; none is anchored, so [test] looks for a match
    at every position. *)

(** [\d] and [[0-9]] *)
Definition isDigit (c : ascii) : bool :=
  let n := nat_of_ascii c in (48 <=? n)%nat && (n <=? 57)%nat.
(** [[@-]] *)
Definition isAtOrDash (c : ascii) : bool :=
  Ascii.eqb c "@" || Ascii.eqb c "-".
Definition isDash (c : ascii) : bool := Ascii.eqb c "-".
(** [[10]] *)
Definition isOneOrZero (c : ascii) : bool :=
  Ascii.eqb c "1" || Ascii.eqb c "0".
(** [[23]] *)
Definition isTwoOrThree (c : ascii) : bool :=
  Ascii.eqb c "2" || Ascii.eqb c "3".
(** What [.] does not match: a line terminator at the start of [s].  The
    line terminators are the line feed, the carriage return, the line
    separator U+2028 and the paragraph separator U+2029; in UTF-8 the two
    separators are the bytes E2 80 A8 and E2 80 A9. *)
Definition isLineTerminator (s : string) : bool :=
  match s with
  | EmptyString => false
  | String c rest =>
      let n := nat_of_ascii c in
      (n =? 10)%nat || (n =? 13)%nat
      || ((n =? 226)%nat
          && match rest with
             | String c1 (String c2 _) =>
                 (nat_of_ascii c1 =? 128)%nat
                 && ((nat_of_ascii c2 =? 168)%nat
                     || (nat_of_ascii c2 =? 169)%nat)
             | _ => false
             end)
  end.

(** The characters at the start of [s] are in the classes, one after the
    other; what follows them. *)
Fixpoint matchClasses (classes : list (ascii → bool)) (s : string)
  : option string :=
  match classes, s with
  | [], _ => Some s
  | class :: classes', String c s' =>
      if class c then matchClasses classes' s' else None
  | _ :: _, EmptyString => None
  end.

(** [(.|$)]: the end of the string, or a character that is no line
    terminator. *)
Definition dotOrEnd (s : string) : bool :=
  match s with
  | EmptyString => true
  | String _ _ => negb (isLineTerminator s)
  end.

(** A match at some position of [s], the end included. *)
Fixpoint somewhere (matchesHere : string → bool) (s : string) : bool :=
  matchesHere s
  || match s with
     | EmptyString => false
     | String _ s' => somewhere matchesHere s'
     end.

(** [/[@-](\d{8})(.|$)/] *)
Definition compactDate (s : string) : bool :=
  match matchClasses (isAtOrDash :: replicate 8 isDigit) s with
  | Some rest => dotOrEnd rest
  | None => false
  end.

(** [/[@-](\d{4}-\d{2}-\d{2})(.|$)/] *)
Definition dashedDate (s : string) : bool :=
  match matchClasses
          ([isAtOrDash; isDigit; isDigit; isDigit; isDigit; isDash;
            isDigit; isDigit; isDash; isDigit; isDigit]) s with
  | Some rest => dotOrEnd rest
  | None => false
  end.

(** [/[@-][10][0-9]-[23]\d/] *)
Definition monthAndYear (s : string) : bool :=
  bool_decide
    (is_Some (matchClasses
                [isAtOrDash; isOneOrZero; isDigit; isDash; isTwoOrThree;
                 isDigit] s)).

(** [/[@-][23]\d[10][0-9]/] *)
Definition yearAndMonth (s : string) : bool :=
  bool_decide
    (is_Some (matchClasses
                [isAtOrDash; isTwoOrThree; isDigit; isOneOrZero; isDigit]
                s)).

(** [s.includes(part)] *)
Definition includes (s part : string) : bool :=
  somewhere (String.prefix part) s.

(** [toLowerCase] is [Js.toLowerCase] on the letters of ASCII, which is
    what the two words of [includes] are made of: of the characters outside
    ASCII only U+0130 gives one of their letters (an [i], with U+0307
    after it), and that [i] is in no match. *)
Definition isJunkModelId (modelId : string) : bool :=
  somewhere compactDate modelId
  || somewhere dashedDate modelId
  || somewhere monthAndYear modelId
  || somewhere yearAndMonth modelId
  || includes (Js.toLowerCase modelId) "preview"
  || includes (Js.toLowerCase modelId) "-latest".

End Util.

(** ** The models that a run hands to the processor ([processing/run.ts]) *)

Module Runner.
Import Source.

(** [allModels.forEach(model => { model.id = model.id.toLowerCase(); })] *)
Definition lowercaseIds (allModels : list ModelInformation)
  : list ModelInformation :=
  (λ model, setId (Js.toLowerCase (id model)) model) <$> allModels.

(** The predicate of [models.filter]: everything passes when there is no
    deny list. *)
Definition isAllowed (modelDenyList : option (list string))
  (model : ModelInformation) : bool :=
  match modelDenyList with
  | None => true
  | Some denied => negb (bool_decide (id model ∈ denied))
  end.

Section WithBuiltins.
Variable parseFloat : string → Js.JsNumber.
Variable dateValue : string → Js.JsNumber.

(** [modelsFiltered]: the models of all sources, with lowercase ids,
    deduplicated, without the models of the deny list. *)
Definition modelsFiltered (modelDenyList : option (list string))
  (allModels : list ModelInformation) : Js.Result (list ModelInformation) :=
  models ← Dedup.deduplicateModels parseFloat dateValue
              (lowercaseIds allModels);
  mret (filter (λ model, isAllowed modelDenyList model = true) models).

End WithBuiltins.
End Runner.

(** ** Steps of the repository ([processing/steps]) *)

Module Steps.
Import Processed.

(** [model.description = v] *)
Definition setDescription (v : option (gmap string string))
  (m : ProcessedModelInformation) : ProcessedModelInformation :=
  {| id := id m; aliases := aliases m; name := name m; input := input m;
     output := output m; reasoning := reasoning m;
     openWeights := openWeights m; toolCalling := toolCalling m;
     knowledge := knowledge m; parameters := parameters m;
     defaultParameters := defaultParameters m;
     freeProviders := freeProviders m; description := v;
     modelContextLength := modelContextLength m;
     modelInputLimit := modelInputLimit m;
     modelOutputLimit := modelOutputLimit m;
     deprecated := deprecated m; lastImportedAt := lastImportedAt m;
     providers := providers m |}.

(** *** [generateSummaryInformation] *)

(** [newModel.providers.map(p => p[field] || 0).filter(l => l > 0)] *)
Definition knownLimits
  (field : ProcessedModelProviderInformation → option Z)
  (providers : list ProcessedModelProviderInformation) : list Z :=
  filter (λ l, (0 < l)%Z) ((λ p, default 0%Z (field p)) <$> providers).

(** [values.length > 0 ? Math.min(...values) : undefined] *)
Definition minimum (values : list Z) : option Z :=
  match values with
  | [] => None
  | value :: values' => Some (foldl Z.min value values')
  end.

Definition generateSummaryInformation : Processor.ProcessingStep :=
  λ _ _ newModel,
    mret
      {| id := id newModel; aliases := aliases newModel;
         name := name newModel; input := input newModel;
         output := output newModel; reasoning := reasoning newModel;
         openWeights := openWeights newModel;
         toolCalling := toolCalling newModel;
         knowledge := knowledge newModel;
         parameters := parameters newModel;
         defaultParameters := defaultParameters newModel;
         freeProviders := freeProviders newModel;
         description := description newModel;
         modelContextLength :=
           minimum (knownLimits contextLength (providers newModel));
         modelInputLimit :=
           minimum (knownLimits inputLimit (providers newModel));
         modelOutputLimit :=
           minimum (knownLimits outputLimit (providers newModel));
         deprecated := deprecated newModel;
         lastImportedAt := lastImportedAt newModel;
         providers := providers newModel |}.

(** *** [generateDescription] and [cleanupDescriptions] *)

Section WithBuiltins.

(** [s.trim()] *)
Variable trim : string → string.
(** [generateAiDescription], which asks the cache, Hugging Face and
    OpenAI: a text, or [null] *)
Variable generateAiDescription :
  Source.ModelInformation → Js.Result (option string).
(** [s.replace(/\s+/g, ' ').replace(/[\u200B-\u200D\uFEFF]/g, '').trim()] *)
Variable cleanText : string → string.

Definition getSourceDescription (sourceModel : Source.ModelInformation)
  : option string :=
  if String.eqb (Source.description sourceModel) ""
     || String.eqb (trim (Source.description sourceModel)) ""
  then None
  else Some (Source.description sourceModel).

Definition generateDescription : Processor.ProcessingStep :=
  λ sourceModel existingModel newModel,
    let existingDescription := existingModel ≫= description in
    (* [sourceDescription ?? existingModel?.description?.en
        ?? await generateAiDescription(...)] *)
    description ←
      match getSourceDescription sourceModel with
      | Some text => mret (Some text)
      | None =>
          match existingDescription ≫= (.!! "en") with
          | Some text => mret (Some text)
          | None => generateAiDescription sourceModel
          end
      end;
    if negb (Js.truthy description) then mret newModel
    else
      let descriptions : gmap string string :=
        {[ "en" := default "" description ]} in
      (* [Object.assign(descriptions, existingModel.description)] *)
      let descriptions :=
        match existingDescription with
        | Some existing => existing ∪ descriptions
        | None => descriptions
        end in
      mret (setDescription (Some descriptions) newModel).

Definition cleanupDescriptions : Processor.BatchProcessingStep :=
  λ models,
    mret ((λ model,
             match description model with
             | None => model
             | Some descriptions =>
                 setDescription (Some (cleanText <$> descriptions)) model
             end) <$> models).

End WithBuiltins.
End Steps.

(** ** The cache ([processing/AppCache.ts]) *)

Module AppCache.
Import Source.

(** The storage of the cache, which is also what the cache file holds: every
    call that stores a value writes the storage to the file.  The keys that
    the callers make up (["description-..."], ["deepl_..."], ...) are none
    of the names that every object has ([constructor], ...). *)
Abbreviation Storage := (gmap string Json).

(** A computation that works on the storage: what it returns or throws,
    and the storage as it leaves it. *)
Definition Cached (A : Type) : Type := Storage → Js.Result A * Storage.

(** Truthiness of a value of the storage. *)
Definition truthy (value : Json) : bool :=
  match value with
  | JNull => false
  | JBool b => b
  | JNumber n => negb (n =? 0)%Z
  | JString s => negb (String.eqb s "")
  | JArray _ | JObject _ => true
  end.

Definition isNull (value : Json) : bool :=
  match value with JNull => true | _ => false end.

Section WithBuiltins.
(** [hash('sha256', s)] *)
Variable sha256 : string → string.

(** [if (key.length > 50) { key = 'hash.' + hash('sha256', key); }] *)
Definition storageKey (key : string) : string :=
  if (50 <? String.length key)%nat then String.append "hash." (sha256 key)
  else key.

Definition remember (key : string) (value : Cached Json) : Cached Json :=
  λ storage,
    let key := storageKey key in
    (* [storage[key] = await value()], and the storage is written *)
    let compute :=
      match value storage with
      | (Js.Ok result, storage') =>
          (Js.Ok result, <[key := result]> storage')
      | (Js.Throw message, storage') => (Js.Throw message, storage')
      end in
    match storage !! key with
    | Some stored =>
        if truthy stored || isNull stored then (Js.Ok stored, storage)
        else compute
    | None => compute
    end.

End WithBuiltins.
End AppCache.

(** ** The source models.dev ([sources/modelsDev/modelsDevSource.ts]) *)

Module ModelsDev.

(** What the schema lets through of a model of models.dev, as far as
    [normalizeModels] reads it.  The properties of the objects [cost],
    [limit], [modalities] and [provider] are written out: [costInput] is
    [model.cost?.input], [limitContext] is [model.limit?.context]. *)
Inductive UpstreamInput :=
  UpText | UpImage | UpFile | UpAudio | UpVideo | UpPdf.
Inductive UpstreamOutput :=
  UpOutText | UpOutImage | UpOutAudio | UpOutEmbeddings.

Record ModelsDevModel : Type := {
  id : string;
  name : string;
  reasoning : option bool;
  tool_call : option bool;
  temperature : option bool;
  knowledge : option string;
  open_weights : option bool;
  modalitiesInput : list UpstreamInput;
  modalitiesOutput : list UpstreamOutput;
  costInput : option Qc;
  costOutput : option Qc;
  limitContext : option Z;
  limitOutput : option Z;
  providerId : string;
  providerName : string
}.

(** [flag || undefined] *)
Definition orUndefined (flag : option bool) : option bool :=
  match flag with
  | Some true => Some true
  | _ => None
  end.

(** [n || undefined] *)
Definition nonZero (n : option Z) : option Z :=
  match n with
  | Some 0%Z => None
  | _ => n
  end.

(** [.filter(mod => ['text', 'image', 'file', 'audio', 'video'].includes(mod))] *)
Definition keptInput (modality : UpstreamInput)
  : option Source.InputModality :=
  match modality with
  | UpText => Some Source.InText
  | UpImage => Some Source.InImage
  | UpFile => Some Source.InFile
  | UpAudio => Some Source.InAudio
  | UpVideo => Some Source.InVideo
  | UpPdf => None
  end.

(** [.filter(mod => ['text', 'image', 'embeddings'].includes(mod))] *)
Definition keptOutput (modality : UpstreamOutput)
  : option Source.OutputModality :=
  match modality with
  | UpOutText => Some Source.OutText
  | UpOutImage => Some Source.OutImage
  | UpOutEmbeddings => Some Source.OutEmbeddings
  | UpOutAudio => None
  end.

(** [/^\d{4}-(0[1-9]|1[0-2])(-([0-2][0-9]|3[0-1]))?$/] *)
Definition inRange (low high : nat) (c : ascii) : bool :=
  let n := nat_of_ascii c in (low <=? n)%nat && (n <=? high)%nat.

(** [(0[1-9]|1[0-2])] at the start; what follows *)
Definition month (s : string) : option string :=
  match s with
  | String a (String b rest) =>
      if (Ascii.eqb a "0" && inRange 49 57 b)
         || (Ascii.eqb a "1" && inRange 48 50 b)
      then Some rest else None
  | _ => None
  end.

(** [([0-2][0-9]|3[0-1])] at the start; what follows *)
Definition day (s : string) : option string :=
  match s with
  | String a (String b rest) =>
      if (inRange 48 50 a && inRange 48 57 b)
         || (Ascii.eqb a "3" && inRange 48 49 b)
      then Some rest else None
  | _ => None
  end.

Definition knowledgeRegex (s : string) : bool :=
  match Util.matchClasses
          [Util.isDigit; Util.isDigit; Util.isDigit; Util.isDigit;
           Util.isDash] s ≫= month with
  | Some EmptyString => true
  | Some (String c rest) =>
      Ascii.eqb c "-"
      && match day rest with
         | Some EmptyString => true
         | _ => false
         end
  | None => false
  end.

Section WithBuiltins.

(** [price.toFixed(2)] *)
Variable toFixed2 : Qc → string.
(** [new Date(s).toISOString().split('T')[0]], which throws when the date
    is not valid *)
Variable isoDay : string → Js.Result string.
Variable parseFloat : string → Js.JsNumber.
Variable dateValue : string → Js.JsNumber.

(** The body of [models.map(model => ...)]. *)
Definition normalizeModel (model : ModelsDevModel)
  : Js.Result Source.ModelInformation :=
  let baseId := Util.getModelBaseId (id model) in
  let idAliases :=
    Js.arrayFromSet
      (Js.toLowerCase <$> filter (λ s, s ≠ "") [baseId; id model]) in
  let providerInfo :=
    {| Source.providerId := providerId model;
       Source.providerName := Some (providerName model);
       Source.contextLength := nonZero (limitContext model);
       Source.inputLimit := None;
       Source.outputLimit := nonZero (limitOutput model);
       Source.price :=
         Some {| Source.currency := "usd";
                 Source.priceInput := toFixed2 <$> costInput model;
                 Source.priceOutput := toFixed2 <$> costOutput model |} |} in
  let parameters :=
    ((if bool_decide (temperature model = Some true)
      then ["temperature"] else [])
     ++ (if bool_decide (tool_call model = Some true)
         then ["tools"] else []))%list in
  knowledgeCutoff ←
    (if Js.truthy (knowledge model)
        && knowledgeRegex (default "" (knowledge model))
     then cutoff ← isoDay (default "" (knowledge model)); mret (Some cutoff)
     else mret None);
  mret
    {| Source.id := baseId;
       Source.aliases := Js.sort Dedup.byLengthDesc idAliases;
       Source.name := name model;
       Source.description := "";
       Source.input := omap keptInput (modalitiesInput model);
       Source.output := omap keptOutput (modalitiesOutput model);
       Source.reasoning := orUndefined (reasoning model);
       Source.openWeights := orUndefined (open_weights model);
       Source.toolCalling := orUndefined (tool_call model);
       Source.knowledge := knowledgeCutoff;
       Source.parameters := Some parameters;
       Source.defaultParameters := None;
       Source.providers := [providerInfo];
       Source.freeProviders := None |}.

Definition normalizeModels (models : list ModelsDevModel)
  : Js.Result (list Source.ModelInformation) :=
  Js.forOf (λ normalized model,
              info ← normalizeModel model; mret (normalized ++ [info])%list)
    models [].

(** [modelsDevSource], on the models that [fetchModels] has fetched. *)
Definition modelsDevSource (fetchedModels : list ModelsDevModel)
  : Js.Result (list Source.ModelInformation) :=
  let filteredModels :=
    filter (λ model, Util.isJunkModelId (id model) = false) fetchedModels in
  normalizedModels ← normalizeModels filteredModels;
  Dedup.deduplicateModels parseFloat dateValue normalizedModels.

End WithBuiltins.
End ModelsDev.

(** ** Vocabulary of the properties *)

Module Known.
Import Source.

(** [o.price?.input] and [o.price?.output] *)
Definition knownPriceInput (o : ModelInformationOfProvider) : option string :=
  price o ≫= priceInput.
Definition knownPriceOutput (o : ModelInformationOfProvider) : option string :=
  price o ≫= priceOutput.

(** The minimum of the values that are known of two limits. *)
Definition minOfKnown (a b : option Z) : option Z :=
  match a, b with
  | Some x, Some y => Some (Z.min x y)
  | Some x, None => Some x
  | None, Some y => Some y
  | None, None => None
  end.

(** The flag that is left of the flag of the canonical model and the flag of
    a record merged into it: [false] as soon as one of them is [false],
    otherwise the first known value. *)
Definition mergedFlag (existing incoming : option bool) : option bool :=
  match existing, incoming with
  | Some false, _ | _, Some false => Some false
  | None, _ => incoming
  | Some true, _ => Some true
  end.

Section WithBuiltins.
Variable parseFloat : string → Js.JsNumber.

(** [result] is the maximum of the known prices among [a] and [b]: the
    known one when only one is known, and otherwise one of the two such
    that neither is greater. *)
Definition isMaxOfKnown (a b result : option string) : Prop :=
  match a, b with
  | None, None => result = None
  | Some x, None => result = Some x
  | None, Some y => result = Some y
  | Some x, Some y =>
      ∃ r, result = Some r ∧ (r = x ∨ r = y)
           ∧ Js.gt (parseFloat x) (parseFloat r) = false
           ∧ Js.gt (parseFloat y) (parseFloat r) = false
  end.

(** The prices of an offering are numbers. *)
Definition numericPrices (o : ModelInformationOfProvider) : Prop :=
  ∀ s, knownPriceInput o = Some s ∨ knownPriceOutput o = Some s →
       Js.isNaN (parseFloat s) = false.

(** The limits and the prices of [merged] are the lower limits and the
    higher prices of [existing] and [provider]. *)
Definition boundsMerged
  (existing provider merged : ModelInformationOfProvider) : Prop :=
  contextLength merged
    = minOfKnown (contextLength existing) (contextLength provider)
  ∧ inputLimit merged = minOfKnown (inputLimit existing) (inputLimit provider)
  ∧ outputLimit merged
    = minOfKnown (outputLimit existing) (outputLimit provider)
  ∧ isMaxOfKnown (knownPriceInput existing) (knownPriceInput provider)
      (knownPriceInput merged)
  ∧ isMaxOfKnown (knownPriceOutput existing) (knownPriceOutput provider)
      (knownPriceOutput merged).

End WithBuiltins.
End Known.

Module Canonical.
Import Source Dedup.

(** The key under which [deduplicateModels] files a record: the comparable
    id of its id without the suffix of the free tier. *)
Definition comparableId (model : ModelInformation) : string :=
  makeIdComparable (id (stripFreeSuffix model)).

(** The keys of [modelsById] are distinct, and each is the comparable id of
    its model. *)
Definition keyedById (modelsById : list (string * ModelInformation)) : Prop :=
  NoDup modelsById.*1
  ∧ ∀ key c, Js.mapGet key modelsById = Some c →
             makeIdComparable (id c) = key.

(** Everything of a model that the properties look at: the id, the aliases,
    the two lists of providers and the flags. *)
Definition sameCore (a b : ModelInformation) : Prop :=
  id a = id b ∧ aliases a = aliases b ∧ providers a = providers b
  ∧ freeProviders a = freeProviders b
  ∧ ∀ flag, getFlag flag a = getFlag flag b.

(** Longest first. *)
Definition longestFirst : list string → Prop :=
  Sorted (λ a b, (String.length b ≤ String.length a)%nat).

(** No id ends with the suffix of the free tier. *)
Definition canonicalIds (models : list ModelInformation) : Prop :=
  ∀ model, model ∈ models → isFreeModel model = false.

End Canonical.

Module Contract.
Import Processed Processor.

(** What the processor relies on from the steps: they enrich the records
    they are given and hand them back under the same id, a batch step gives
    no record under an id that it was not given, and a step over the output
    structure leaves the list of models as it is. *)
Definition keepsId (step : ProcessingStep) : Prop :=
  ∀ sourceModel existingModel newModel newModel',
    step sourceModel existingModel newModel = Js.Ok newModel' →
    id newModel' = id newModel.

Definition noChangeKeepsId (step : ProcessingNoChangeStep) : Prop :=
  ∀ sourceModel existingModel existingModel',
    step sourceModel existingModel = Js.Ok existingModel' →
    id existingModel' = id existingModel.

Definition batchKeepsIds (step : BatchProcessingStep) : Prop :=
  ∀ models models',
    step models = Js.Ok models' → id <$> models' ⊆ id <$> models.

Definition keepsModels (step : ProcessingOutputStructureStep) : Prop :=
  ∀ structure structure',
    step structure = Js.Ok structure' →
    Output.models structure' = Output.models structure.

Definition enrichOnly (steps : Steps) : Prop :=
  Forall keepsId (newAndChanged steps)
  ∧ Forall noChangeKeepsId (noChange steps)
  ∧ Forall batchKeepsIds (batch steps)
  ∧ Forall keepsModels (outputStructure steps).

(** Every field of [r'] other than [deprecated] is as it is on [r]. *)
Definition otherFieldsKept (r' r : ProcessedModelInformation) : Prop :=
  id r' = id r ∧ aliases r' = aliases r ∧ name r' = name r
  ∧ input r' = input r ∧ output r' = output r
  ∧ reasoning r' = reasoning r ∧ openWeights r' = openWeights r
  ∧ toolCalling r' = toolCalling r ∧ knowledge r' = knowledge r
  ∧ parameters r' = parameters r
  ∧ defaultParameters r' = defaultParameters r
  ∧ freeProviders r' = freeProviders r ∧ description r' = description r
  ∧ modelContextLength r' = modelContextLength r
  ∧ modelInputLimit r' = modelInputLimit r
  ∧ modelOutputLimit r' = modelOutputLimit r
  ∧ lastImportedAt r' = lastImportedAt r ∧ providers r' = providers r.

(** The catalog after the loop over the missing ids: the records under an
    id that no source model has are marked. *)
Definition markedCatalog (sourceModels : list Source.ModelInformation)
  (structure : Output.OutputStructure) : list ProcessedModelInformation :=
  foldl markDeprecated (Output.models structure)
    (filter (λ id, id ∉ Source.id <$> sourceModels)
       (id <$> Output.models structure)).

(** The ids of the records that a call hands to a step of enrichment (a
    step for one model or a batch step). *)
Definition callIds (call : Call) : list string :=
  match call with
  | CallNewAndChanged _ sourceModel existingModel newModel =>
      Source.id sourceModel
      :: (id <$> option_list existingModel) ++ [id newModel]
  | CallNoChange _ sourceModel existingModel =>
      [Source.id sourceModel; id existingModel]
  | CallBatch _ models => id <$> models
  | CallOutputStructure _ _ => []
  end.

Definition isCallBatch (call : Call) : bool :=
  match call with
  | CallBatch _ _ => true
  | _ => false
  end.

Section WithBuiltins.
Variable sha256 : string → string.
Variable stringify : Source.ModelInformation → string.
Variable localeCompare : string → string → Z.

(** The test of the processor for a model that has not changed: its id is
    known and its hash is the stored one. *)
Definition isUnchanged (existingModelIds : list string)
  (hashes : gmap string string) (sourceModel : Source.ModelInformation)
  : bool :=
  bool_decide (Source.id sourceModel ∈ existingModelIds)
  && Js.isString
       (Js.orElse (Js.getProperty hashes (Source.id sourceModel)) "-1")
       (calculateModelHash sha256 stringify localeCompare sourceModel).

End WithBuiltins.
End Contract.

(** ** Sample records *)

Module Sample.
Import Source.

Definition offering (providerId : string) (providerName : option string)
  (contextLength : option Z) (input output : option string)
  : ModelInformationOfProvider :=
  {| providerId := providerId; providerName := providerName;
     contextLength := contextLength; inputLimit := None; outputLimit := None;
     price := Some {| currency := "usd"; priceInput := input;
                      priceOutput := output |} |}.

Definition acmeOne : ModelInformationOfProvider :=
  offering "a" (Some "Acme AI") (Some 8192%Z) (Some "1.00") None.
Definition acmeTwo : ModelInformationOfProvider :=
  offering "ab" (Some "Acme AI Cloud") (Some 4096%Z) (Some "2.00") (Some "3.50").

Definition model (id : string) (aliases : list string)
  (reasoning : option bool) (providers : list ModelInformationOfProvider)
  : ModelInformation :=
  {| id := id; aliases := aliases; name := id; description := "";
     input := [InText]; output := [OutText]; reasoning := reasoning;
     openWeights := None; toolCalling := None; knowledge := None;
     parameters := Some []; defaultParameters := None;
     providers := providers; freeProviders := None |}.

Abbreviation deduplicateModels :=
  (Dedup.deduplicateModels Builtins.decimalParseFloat Builtins.isoDateValue).

(** One model under three spellings of its id; the second says that it does
    not reason. *)
Definition spellings : list ModelInformation :=
  [ model "gpt-4" ["openai/gpt-4"; "gpt-4"] (Some true) [acmeOne];
    model "GPT4" ["GPT4"] (Some false) [acmeTwo];
    model "gpt_4" ["gpt_4"] None [];
    model "llama" ["llama"] None [acmeOne] ].

Definition spellingsResult : list ModelInformation :=
  Eval vm_compute in
    match deduplicateModels spellings with
    | Js.Ok result => result
    | Js.Throw _ => []
    end.

(** A paid and a free record of one model, from the same provider. *)
Definition paid : ModelInformation := model "m" ["m"] None [acmeOne].
Definition free : ModelInformation := model "m:free" ["m:free"] None [acmeOne].

Definition paidAndFreeResult : list ModelInformation :=
  Eval vm_compute in
    match deduplicateModels [paid; free] with
    | Js.Ok result => result
    | Js.Throw _ => []
    end.

(** A record whose aliases do not stand longest first, and two records whose
    ids differ by the case only. *)
Definition shortFirst : ModelInformation := model "ab" ["ab"; "abcd"] None [].
Definition upper : ModelInformation := model "Llama" ["Llama"] None [].
Definition lower : ModelInformation := model "llama" ["llama"] None [].


(** *** A catalog, its hashes and a run *)

Definition record (id : string) (deprecated : option bool)
  : Processed.ProcessedModelInformation :=
  {| Processed.id := id; Processed.aliases := [id]; Processed.name := id;
     Processed.input := [InText]; Processed.output := [OutText];
     Processed.reasoning := None; Processed.openWeights := None;
     Processed.toolCalling := None; Processed.knowledge := None;
     Processed.parameters := Some []; Processed.defaultParameters := None;
     Processed.freeProviders := None;
     Processed.description := Some {[ "en" := "A model." ]};
     Processed.modelContextLength := Some 8192%Z;
     Processed.modelInputLimit := None; Processed.modelOutputLimit := None;
     Processed.deprecated := deprecated;
     Processed.lastImportedAt := Some "2025-06-01T00:00:00Z";
     Processed.providers := [] |}.

(** [m] was marked as deprecated in an earlier run and is back among the
    sources as it was, [z] is in no source, [n] is new. *)
Definition catalog : Output.OutputStructure :=
  {| Output.models := [record "m" (Some true); record "z" None];
     Output.providers := [] |}.

Definition newcomer : ModelInformation := model "n" ["n"] None [acmeTwo].

Definition sources : list ModelInformation := [paid; newcomer].

Abbreviation calculateModelHash :=
  (Processor.calculateModelHash Builtins.plainDigest Builtins.plainStringify
     Js.byCodeUnits).

Definition storedHashes : gmap string string :=
  {[ "m" := calculateModelHash paid ]}.

(** A step for one model: the context length of the model is the one of its
    first offering. *)
Definition summarize : Processor.ProcessingStep :=
  λ sourceModel _ newModel,
    Js.Ok
      {| Processed.id := Processed.id newModel;
         Processed.aliases := Processed.aliases newModel;
         Processed.name := Processed.name newModel;
         Processed.input := Processed.input newModel;
         Processed.output := Processed.output newModel;
         Processed.reasoning := Processed.reasoning newModel;
         Processed.openWeights := Processed.openWeights newModel;
         Processed.toolCalling := Processed.toolCalling newModel;
         Processed.knowledge := Processed.knowledge newModel;
         Processed.parameters := Processed.parameters newModel;
         Processed.defaultParameters := Processed.defaultParameters newModel;
         Processed.freeProviders := Processed.freeProviders newModel;
         Processed.description := Processed.description newModel;
         Processed.modelContextLength :=
           head (providers sourceModel) ≫= contextLength;
         Processed.modelInputLimit := Processed.modelInputLimit newModel;
         Processed.modelOutputLimit := Processed.modelOutputLimit newModel;
         Processed.deprecated := Processed.deprecated newModel;
         Processed.lastImportedAt := Processed.lastImportedAt newModel;
         Processed.providers := Processed.providers newModel |}.

Definition steps : Processor.Steps :=
  {| Processor.newAndChanged := [summarize];
     Processor.batch := [λ models, Js.Ok models];
     Processor.noChange := [];
     Processor.outputStructure := [λ structure, Js.Ok structure] |}.

(** The same steps, and a step for the models that have not changed. *)
Definition stepsWithNoChange : Processor.Steps :=
  {| Processor.newAndChanged := Processor.newAndChanged steps;
     Processor.batch := Processor.batch steps;
     Processor.noChange := [λ _ existingModel, Js.Ok existingModel];
     Processor.outputStructure := Processor.outputStructure steps |}.

Abbreviation processor :=
  (Processor.processor Builtins.plainDigest Builtins.plainStringify
     Js.byCodeUnits Builtins.clockReading).

Definition emptyRun
  : Output.OutputStructure * gmap string string * list Processor.Call :=
  ({| Output.models := []; Output.providers := [] |}, ∅, []).

Definition run
  : Output.OutputStructure * gmap string string * list Processor.Call :=
  Eval vm_compute in
    match processor sources catalog storedHashes steps with
    | Js.Ok result => result
    | Js.Throw _ => emptyRun
    end.

Definition runWithNoChange
  : Output.OutputStructure * gmap string string * list Processor.Call :=
  Eval vm_compute in
    match processor sources catalog storedHashes stepsWithNoChange with
    | Js.Ok result => result
    | Js.Throw _ => emptyRun
    end.

End Sample.

(** ** Vocabulary of the further properties *)

Module Offerings.
Import Source Dedup Known.

(** [o.price?.currency] *)
Definition currencyOf (o : ModelInformationOfProvider) : option string :=
  currency <$> price o.

(** No offering of the list is the same provider as an earlier one. *)
Fixpoint apart (offerings : list ModelInformationOfProvider) : bool :=
  match offerings with
  | [] => true
  | p :: rest =>
      forallb (λ provider, negb (sameProvider p provider)) rest && apart rest
  end.

(** A limit that is known on [given] is known on [merged], and not higher
    there. *)
Definition notAbove (merged given : option Z) : Prop :=
  ∀ n, given = Some n → ∃ k, merged = Some k ∧ (k ≤ n)%Z.

Section WithBuiltins.
Variable parseFloat : string → Js.JsNumber.

(** A price that is known on [given] is known on [merged], and the one of
    [given] is not greater. *)
Definition notBelow (merged given : option string) : Prop :=
  ∀ s, given = Some s →
       ∃ t, merged = Some t ∧ Js.gt (parseFloat s) (parseFloat t) = false.

(** [merged] stands for [given]: same currency, limits that are not
    higher, prices that are not lower. *)
Definition covers (merged given : ModelInformationOfProvider) : Prop :=
  currencyOf merged = currencyOf given
  ∧ notAbove (contextLength merged) (contextLength given)
  ∧ notAbove (inputLimit merged) (inputLimit given)
  ∧ notAbove (outputLimit merged) (outputLimit given)
  ∧ notBelow (knownPriceInput merged) (knownPriceInput given)
  ∧ notBelow (knownPriceOutput merged) (knownPriceOutput given).

End WithBuiltins.
End Offerings.

Module Classes.
Import Source Dedup Canonical.

(** The records of [models] that [deduplicateModels] files under [key], in
    the order of the list. *)
Definition classOf (key : string) (models : list ModelInformation)
  : list ModelInformation :=
  filter (λ model, comparableId model = key) models.

(** The first text that is not empty, [""] when there is none. *)
Definition firstNonEmpty (texts : list string) : string :=
  default "" (head (filter (λ text, text ≠ "") texts)).

(** The value that the first record that has a default for [parameter]
    gives it. *)
Definition firstDefault (parameter : string) (models : list ModelInformation)
  : option Json :=
  head (omap (λ model, defaultParameters model ≫= (.!! parameter)) models).

(** What is left of the values that the records of a model give for a
    flag: [false] when one of them says [false], otherwise [true] when one
    of them says [true], otherwise nothing. *)
Definition classFlag (values : list (option bool)) : option bool :=
  if decide (Some false ∈ values) then Some false
  else if decide (Some true ∈ values) then Some true
  else None.

Section WithBuiltins.
Variable parseFloat : string → Js.JsNumber.
Variable dateValue : string → Js.JsNumber.

(** What the loop of [deduplicateModels] does to the entry of one key
    when a record of that key comes in: the first record is filed
    (without the suffix of the free tier), every other one is merged into
    the entry. *)
Definition mergeInto (entry : option ModelInformation)
  (model0 : ModelInformation) : Js.Result (option ModelInformation) :=
  match entry with
  | None => mret (Some (stripFreeSuffix model0))
  | Some existingModel =>
      merged ← mergeModel parseFloat dateValue (isFreeModel model0)
                 existingModel (stripFreeSuffix model0);
      mret (Some merged)
  end.

End WithBuiltins.
End Classes.

(** ** Further sample records *)

Module MoreSamples.
Import Source.

(** Two providers that have nothing in common, and an offering in euros of
    the first one. *)
Definition betaOne : ModelInformationOfProvider :=
  Sample.offering "b" (Some "Beta Inference") (Some 2048%Z) (Some "0.50") None.
Definition acmeEuro : ModelInformationOfProvider :=
  {| providerId := "a"; providerName := Some "Acme AI";
     contextLength := Some 1024%Z; inputLimit := None; outputLimit := None;
     price := Some {| currency := "eur"; priceInput := Some "0.90";
                      priceOutput := None |} |}.

Definition described (id description : string) (knowledge : option string)
  (defaults : option (gmap string Json)) (input : list InputModality)
  (parameters : list string) : ModelInformation :=
  {| id := id; aliases := [id]; name := id; description := description;
     input := input; output := [OutText]; reasoning := None;
     openWeights := None; toolCalling := None; knowledge := knowledge;
     parameters := Some parameters; defaultParameters := defaults;
     providers := []; freeProviders := None |}.

(** Three records of one model and a record of another one. *)
Definition variants : list ModelInformation :=
  [ described "Mistral-7B" "" (Some "2023-10-01") None [InText]
      ["temperature"];
    described "other" "Another model." None None [InText] [];
    described "mistral_7b:free" "A small model." (Some "2023-06-01")
      (Some {[ "temperature" := JNumber 1 ]}) [InText; InImage] ["top_p"];
    described "mistral7b" "The same model." None
      (Some {[ "temperature" := JNumber 0; "top_p" := JNumber 1 ]}) [InText]
      ["temperature"] ].

Definition variantsResult : list ModelInformation :=
  Eval vm_compute in
    match Sample.deduplicateModels variants with
    | Js.Ok result => result
    | Js.Throw _ => []
    end.

Definition mistral : ModelInformation :=
  Eval vm_compute in default (Sample.model "" [] None []) (head variantsResult).

(** The canonical model of the spellings of the sample. *)
Definition gpt4 : ModelInformation :=
  Eval vm_compute in
    default (Sample.model "" [] None []) (head Sample.spellingsResult).

(** What a run makes of the spellings of the sample when [llama] is on the
    deny list. *)
Definition prepared : list ModelInformation :=
  Eval vm_compute in
    match Runner.modelsFiltered Builtins.decimalParseFloat
            Builtins.isoDateValue (Some ["llama"]) Sample.spellings with
    | Js.Ok result => result
    | Js.Throw _ => []
    end.

End MoreSamples.

(** ** Vocabulary of the further properties of a run *)

Module Rerun.
Import Processed Processor.

(** A batch step as the steps of the repository are written: a [map] over
    the list, which gives the records back under their ids, in their
    order. *)
Definition batchKeepsAll (step : BatchProcessingStep) : Prop :=
  ∀ models models',
    step models = Js.Ok models' → id <$> models' = id <$> models.

(** [a.localeCompare(b)] puts any two strings in an order: when [a] comes
    after [b], [b] does not come after [a]. *)
Definition ordersAll (localeCompare : string → string → Z) : Prop :=
  ∀ a b, (0 < localeCompare a b)%Z → (localeCompare b a ≤ 0)%Z.

(** The list is in the order of [localeCompare] on the ids. *)
Definition sortedById (localeCompare : string → string → Z)
  : list ProcessedModelInformation → Prop :=
  Sorted (λ a b, (localeCompare (id a) (id b) ≤ 0)%Z).

(** [hashes[sourceModel.id] ?? '-1']: what the processor reads as the
    stored hash of a source model. *)
Definition existingHash (hashes : gmap string string)
  (sourceModel : Source.ModelInformation) : Js.Property :=
  Js.orElse (Js.getProperty hashes (Source.id sourceModel)) "-1".

(** The table of the hashes takes a hash for the source model: its id is
    not [__proto__], or the table has an own property of that name (which
    no run adds to it). *)
Definition canBeStored (hashes : gmap string string)
  (sourceModel : Source.ModelInformation) : Prop :=
  Source.id sourceModel = "__proto__" → is_Some (hashes !! "__proto__").

Section WithBuiltins.
Variable sha256 : string → string.
Variable stringify : Source.ModelInformation → string.
Variable localeCompare : string → string → Z.

(** The source models of which the loop of the processor pushes a record
    on [newModelsList]: those that are new or have changed, and all of
    them when there are steps for the models that have not changed. *)
Definition isPushed (existingModelIds : list string)
  (hashes : gmap string string) (steps : Steps)
  (sourceModel : Source.ModelInformation) : bool :=
  negb (Contract.isUnchanged sha256 stringify localeCompare
          existingModelIds hashes sourceModel)
  || match noChange steps with [] => false | _ :: _ => true end.

End WithBuiltins.
End Rerun.

Module SecondRun.

(** The run that follows the run of the sample, on what that one wrote. *)
Definition run
  : Output.OutputStructure * gmap string string * list Processor.Call :=
  Eval vm_compute in
    match Sample.processor Sample.sources Sample.run.1.1 Sample.run.1.2
            Sample.steps with
    | Js.Ok result => result
    | Js.Throw _ => Sample.emptyRun
    end.

(** A source model under the id [__proto__], and two runs over it: the
    first one on an empty catalog without hashes, the second one on what
    the first one wrote. *)
Definition inherited : Source.ModelInformation :=
  Sample.model "__proto__" ["__proto__"] None [Sample.acmeOne].

Definition inheritedRun
  : Output.OutputStructure * gmap string string * list Processor.Call :=
  Eval vm_compute in
    match Sample.processor [inherited] Sample.emptyRun.1.1 ∅
            Sample.steps with
    | Js.Ok result => result
    | Js.Throw _ => Sample.emptyRun
    end.

Definition inheritedSecondRun
  : Output.OutputStructure * gmap string string * list Processor.Call :=
  Eval vm_compute in
    match Sample.processor [inherited] inheritedRun.1.1 inheritedRun.1.2
            Sample.steps with
    | Js.Ok result => result
    | Js.Throw _ => Sample.emptyRun
    end.

End SecondRun.

(** ** Vocabulary of the properties of the ids *)

Module Texts.

(** [s] does not begin in the middle of a character: its first byte is no
    continuation byte of UTF-8 (the bytes from 80 to BF).  No text begins
    with such a byte. *)
Definition beginsCharacter (s : string) : bool :=
  match s with
  | EmptyString => true
  | String c _ =>
      let n := nat_of_ascii c in negb ((128 <=? n)%nat && (n <=? 191)%nat)
  end.

(** The line separator U+2028 and the paragraph separator U+2029. *)
Definition lineSeparator : string :=
  String (ascii_of_nat 226) (String (ascii_of_nat 128)
    (String (ascii_of_nat 168) EmptyString)).
Definition paragraphSeparator : string :=
  String (ascii_of_nat 226) (String (ascii_of_nat 128)
    (String (ascii_of_nat 169) EmptyString)).

End Texts.

(** ** Vocabulary of the properties of the steps *)

Module Summary.
Import Processed.

(** [summary] is the lowest of the limits above zero that the providers
    give in [field], and unknown when no provider gives one. *)
Definition isLowestKnown
  (field : ProcessedModelProviderInformation → option Z)
  (providers : list ProcessedModelProviderInformation)
  (summary : option Z) : Prop :=
  match summary with
  | Some n =>
      (0 < n)%Z
      ∧ (∃ p, p ∈ providers ∧ field p = Some n)
      ∧ ∀ p k, p ∈ providers → field p = Some k → (0 < k)%Z → (n ≤ k)%Z
  | None => ∀ p k, p ∈ providers → field p = Some k → (k ≤ 0)%Z
  end.

End Summary.

(** ** Vocabulary of the properties of the sources *)

Module SourceRecords.
Import Source Dedup.

(** Every offering of the list is priced in [currency]. *)
Definition allIn (currency : string)
  (offerings : list ModelInformationOfProvider) : Prop :=
  Forall (λ o, Offerings.currencyOf o = Some currency) offerings.

(** What the records of models.dev have in common: the array of the
    parameters is there, no flag is [false], and every offering is priced
    in US dollars. *)
Definition fromModelsDev (model : ModelInformation) : Prop :=
  is_Some (parameters model)
  ∧ (∀ flag, getFlag flag model ≠ Some false)
  ∧ allIn "usd" (providers model)
  ∧ allIn "usd" (default [] (freeProviders model)).

End SourceRecords.

Module UpstreamSamples.
Import ModelsDev.

(** Stand-ins for [toFixed(2)], on the price [0], and for the day of a date
    that is written [YYYY-MM] or [YYYY-MM-DD]. *)
Definition zeroFixed (price : Qc) : string := "0.00".
Definition isoDay (date : string) : Js.Result string :=
  Js.Ok (if (String.length date =? 7)%nat then String.append date "-01"
         else date).

Definition upstream (id providerId : string) (knowledge : option string)
  (reasoning : option bool) : ModelsDevModel :=
  {| id := id; name := id; reasoning := reasoning; tool_call := Some true;
     temperature := Some false; knowledge := knowledge;
     open_weights := None;
     modalitiesInput := [UpText; UpPdf]; modalitiesOutput := [UpOutText];
     costInput := Some 0%Qc; costOutput := None;
     limitContext := Some 0%Z; limitOutput := Some 4096%Z;
     providerId := providerId; providerName := providerId |}.

Definition fetched : list ModelsDevModel :=
  [ upstream "openai/gpt-4" "openai" (Some "2023-04") (Some false);
    upstream "openai/gpt-4-0125-preview" "openai" None None;
    upstream "azure/GPT-4" "azure" (Some "2023-04-15") (Some true);
    upstream "meta/llama-3:free" "meta" (Some "soon") None ].

Definition records : list Source.ModelInformation :=
  Eval vm_compute in
    match normalizeModels zeroFixed isoDay
            (filter (λ model, Util.isJunkModelId (id model) = false)
               fetched) with
    | Js.Ok records => records
    | Js.Throw _ => []
    end.

End UpstreamSamples.

(** ** Facts about the built-ins *)

Local Open Scope list_scope.
Set Warnings "-clear-no-such-hyp".

Module JsFacts.
Import Canonical.

Lemma bind_Ok {A B} (r : Js.Result A) (k : A → Js.Result B) (b : B) :
  r ≫= k = Js.Ok b ↔ ∃ a, r = Js.Ok a ∧ k a = Js.Ok b.
Proof.
  destruct r as [a|e]; simpl; split.
  - intros H. by exists a.
  - by intros (a' & [= <-] & H).
  - done.
  - by intros (a' & [=] & _).
Qed.

Lemma bind_Ok_l {A B} (a : A) (k : A → Js.Result B) : Js.Ok a ≫= k = k a.
Proof. done. Qed.

Lemma forOf_cons {A S} (body : S → A → Js.Result S) x xs acc :
  Js.forOf body (x :: xs) acc = body acc x ≫= Js.forOf body xs.
Proof. done. Qed.

Lemma forOf_app {A S} (body : S → A → Js.Result S) xs ys acc :
  Js.forOf body (xs ++ ys) acc = Js.forOf body xs acc ≫= Js.forOf body ys.
Proof.
  revert acc. induction xs as [|x xs IH]; intros acc; simpl; [done|].
  destruct (body acc x) as [s|e]; simpl; [apply IH|done].
Qed.

Lemma forOf_snoc {A S} (body : S → A → Js.Result S) xs x acc :
  Js.forOf body (xs ++ [x]) acc
  = Js.forOf body xs acc ≫= λ s, body s x.
Proof.
  rewrite forOf_app. destruct (Js.forOf body xs acc) as [s|e]; simpl; [|done].
  by destruct (body s x).
Qed.

(** A property of the elements gone through and of the state holds after the
    loop when every turn keeps it. *)
Lemma forOf_invariant {A S} (body : S → A → Js.Result S)
  (P : list A → S → Prop) xs acc res :
  P [] acc →
  (∀ pre x s s', pre ++ [x] `prefix_of` xs →
                 P pre s → body s x = Js.Ok s' → P (pre ++ [x]) s') →
  Js.forOf body xs acc = Js.Ok res →
  P xs res.
Proof.
  intros H0 Hstep.
  cut (∀ pre acc, pre ++ xs `prefix_of` pre ++ xs → P pre acc →
         (∀ pre' x s s', pre' ++ [x] `prefix_of` pre ++ xs →
                  P pre' s → body s x = Js.Ok s' → P (pre' ++ [x]) s') →
         Js.forOf body xs acc = Js.Ok res → P (pre ++ xs) res).
  { intros Hgen. apply (Hgen [] acc); [done|done|]. intros; eauto. }
  clear H0 Hstep acc.
  induction xs as [|x xs IH]; intros pre acc _ HP Hstep; simpl.
  - intros [= <-]. by rewrite app_nil_r.
  - intros (s & Hs & Hrest)%bind_Ok.
    replace (pre ++ x :: xs) with ((pre ++ [x]) ++ xs) in *
      by (by rewrite <- app_assoc).
    apply (IH (pre ++ [x]) s); [done| |done|done].
    eapply Hstep; [|done|done]. by apply prefix_app_r.
Qed.

(** *** Arrays *)

Lemma filter_all {A} (P : A → Prop) `{∀ x, Decision (P x)} (l : list A) :
  Forall P l → filter P l = l.
Proof.
  induction 1 as [|x l Hx _ IH]; [done|].
  by rewrite filter_cons, decide_True, IH.
Qed.

Lemma filter_none {A} (P : A → Prop) `{∀ x, Decision (P x)} (l : list A) :
  Forall (λ x, ¬ P x) l → filter P l = [].
Proof.
  induction 1 as [|x l Hx _ IH]; [done|].
  by rewrite filter_cons, decide_False, IH.
Qed.

(** *** Sets *)

Section Sets.
Context `{EqDecision A}.
Implicit Types xs set : list A.

Lemma elem_of_setAdd set x y : y ∈ Js.setAdd set x ↔ y ∈ set ∨ y = x.
Proof.
  unfold Js.setAdd. case_decide; [|set_solver].
  split; [by left|]. intros [?| ->]; done.
Qed.

Lemma NoDup_setAdd set x : NoDup set → NoDup (Js.setAdd set x).
Proof.
  intros Hnd. unfold Js.setAdd. case_decide; [done|].
  apply NoDup_app. split_and!; [done| |apply NoDup_singleton].
  intros y Hy ->%list_elem_of_singleton. done.
Qed.

Lemma elem_of_foldl_setAdd xs set y :
  y ∈ foldl Js.setAdd set xs ↔ y ∈ set ∨ y ∈ xs.
Proof.
  revert set. induction xs as [|x xs IH]; intros set; simpl.
  - set_solver.
  - rewrite IH, elem_of_setAdd. set_solver.
Qed.

Lemma NoDup_foldl_setAdd xs set :
  NoDup set → NoDup (foldl Js.setAdd set xs).
Proof.
  revert set. induction xs as [|x xs IH]; intros set Hnd; simpl; [done|].
  by apply IH, NoDup_setAdd.
Qed.

Lemma elem_of_arrayFromSet xs y : y ∈ Js.arrayFromSet xs ↔ y ∈ xs.
Proof. unfold Js.arrayFromSet. rewrite elem_of_foldl_setAdd. set_solver. Qed.

Lemma NoDup_arrayFromSet xs : NoDup (Js.arrayFromSet xs).
Proof. apply NoDup_foldl_setAdd, NoDup_nil_2. Qed.
End Sets.

(** *** Sorting *)

Lemma sortInsert_Permutation {A} (compare : A → A → Z) x sorted :
  Js.sortInsert compare x sorted ≡ₚ x :: sorted.
Proof.
  induction sorted as [|y sorted IH]; simpl; [done|].
  destruct (compare x y <=? 0)%Z; [done|].
  rewrite IH. apply Permutation_swap.
Qed.

Lemma sort_Permutation {A} (compare : A → A → Z) xs :
  Js.sort compare xs ≡ₚ xs.
Proof.
  induction xs as [|x xs IH]; simpl; [done|].
  by rewrite sortInsert_Permutation, IH.
Qed.

Lemma elem_of_sort {A} (compare : A → A → Z) xs y :
  y ∈ Js.sort compare xs ↔ y ∈ xs.
Proof. by rewrite sort_Permutation. Qed.

Lemma sortInsert_longestFirst x sorted :
  longestFirst sorted →
  longestFirst (Js.sortInsert Dedup.byLengthDesc x sorted).
Proof.
  unfold longestFirst.
  induction sorted as [|y sorted IH]; intros Hs; simpl.
  - repeat constructor.
  - unfold Dedup.byLengthDesc at 1.
    destruct (Z.leb_spec (Z.of_nat (String.length y) - Z.of_nat (String.length x)) 0).
    + constructor; [done|]. constructor. lia.
    + inversion Hs as [|? ? Hs' Hhd]; subst.
      constructor; [by apply IH|].
      destruct sorted as [|z sorted]; simpl.
      * constructor. lia.
      * destruct (Dedup.byLengthDesc x z <=? 0)%Z; constructor; [lia|].
        by inversion Hhd.
Qed.

Lemma sort_longestFirst xs : longestFirst (Js.sort Dedup.byLengthDesc xs).
Proof.
  induction xs as [|x xs IH]; simpl; [constructor|].
  by apply sortInsert_longestFirst.
Qed.

(** *** Maps *)

Section Maps.
Context {V : Type}.
Implicit Types map : list (string * V).

Lemma mapGet_None key map : Js.mapGet key map = None ↔ key ∉ map.*1.
Proof.
  induction map as [|[k v] map IH]; simpl; [set_solver|].
  case_decide; [set_solver|]. rewrite IH. set_solver.
Qed.

Lemma mapGet_Some_elem key map v :
  Js.mapGet key map = Some v → (key, v) ∈ map.
Proof.
  induction map as [|[k v0] map IH]; simpl; [done|].
  case_decide; [intros [= <-]; subst; set_solver|]. set_solver.
Qed.

Lemma mapGet_elem key map v :
  NoDup map.*1 → (key, v) ∈ map → Js.mapGet key map = Some v.
Proof.
  induction map as [|[k v0] map IH]; simpl; [set_solver|].
  intros [Hk Hnd]%NoDup_cons Hin. case_decide as Hkey.
  - subst. apply elem_of_cons in Hin as [[= ->]|Hin]; [done|].
    destruct Hk. apply list_elem_of_fmap. by exists (key, v).
  - apply elem_of_cons in Hin as [[= -> ->]|Hin]; [done|]. by apply IH.
Qed.

Lemma mapSet_fresh key v map :
  key ∉ map.*1 → Js.mapSet key v map = map ++ [(key, v)].
Proof.
  induction map as [|[k v0] map IH]; simpl; [done|].
  intros Hk. case_decide; [set_solver|]. f_equal. apply IH. set_solver.
Qed.

Lemma mapSet_keys_present key v map :
  key ∈ map.*1 → (Js.mapSet key v map).*1 = map.*1.
Proof.
  induction map as [|[k v0] map IH]; simpl; [set_solver|].
  intros Hk. case_decide; [done|]. simpl. f_equal. apply IH. set_solver.
Qed.

Lemma mapGet_mapSet_eq key v map :
  Js.mapGet key (Js.mapSet key v map) = Some v.
Proof.
  induction map as [|[k v0] map IH]; simpl.
  - by case_decide.
  - case_decide as Hk; simpl; by case_decide.
Qed.

Lemma mapGet_mapSet_ne key key' v map :
  key ≠ key' → Js.mapGet key' (Js.mapSet key v map) = Js.mapGet key' map.
Proof.
  intros Hne. induction map as [|[k v0] map IH]; simpl.
  - by case_decide.
  - case_decide as Hk; simpl; repeat case_decide; congruence.
Qed.

Lemma mapSet_keys key v map :
  NoDup map.*1 → NoDup (Js.mapSet key v map).*1.
Proof.
  intros Hnd. destruct (decide (key ∈ map.*1)) as [Hk|Hk].
  - by rewrite mapSet_keys_present.
  - rewrite mapSet_fresh by done. rewrite fmap_app. simpl.
    apply NoDup_app. split_and!; [done| |apply NoDup_singleton].
    by intros k Hin ->%list_elem_of_singleton.
Qed.

Lemma mapGet_mapSet key key' v map :
  Js.mapGet key' (Js.mapSet key v map)
  = if decide (key = key') then Some v else Js.mapGet key' map.
Proof.
  case_decide as Hk; [subst; apply mapGet_mapSet_eq|].
  by apply mapGet_mapSet_ne.
Qed.

Lemma elem_of_mapValues map v :
  NoDup map.*1 → v ∈ Js.mapValues map ↔ ∃ key, Js.mapGet key map = Some v.
Proof.
  intros Hnd. unfold Js.mapValues. rewrite list_elem_of_fmap. split.
  - intros ([k v'] & -> & Hin). exists k. by apply mapGet_elem.
  - intros (k & Hget). exists (k, v). split; [done|].
    by apply mapGet_Some_elem.
Qed.

End Maps.
(** *** Tables of strings *)

Lemma lookup_setProperty_ne (object : gmap string string) key value i :
  key ≠ i → Js.setProperty object key value !! i = object !! i.
Proof.
  intros Hne. unfold Js.setProperty.
  destruct (object !! key); [by rewrite lookup_insert_ne|].
  destruct (String.eqb key "__proto__"); [done|].
  by rewrite lookup_insert_ne.
Qed.

Lemma lookup_setProperty_eq (object : gmap string string) key value :
  (key = "__proto__" → is_Some (object !! key)) →
  Js.setProperty object key value !! key = Some value.
Proof.
  intros Hown. unfold Js.setProperty.
  destruct (object !! key) eqn:Hget; [by rewrite lookup_insert_eq|].
  destruct (String.eqb_spec key "__proto__") as [Heq|_].
  - by destruct (Hown Heq).
  - by rewrite lookup_insert_eq.
Qed.

(** Nothing comes to stand under [__proto__]. *)
Lemma lookup_setProperty_proto (object : gmap string string) key value :
  object !! "__proto__" = None →
  Js.setProperty object key value !! "__proto__" = None.
Proof.
  intros Hnone. unfold Js.setProperty.
  destruct (object !! key) eqn:Hget.
  - rewrite lookup_insert_ne; [done|]. intros ->. congruence.
  - destruct (String.eqb_spec key "__proto__") as [Heq|Hne]; [done|].
    by rewrite lookup_insert_ne.
Qed.

Lemma getProperty_lookup (object object' : gmap string string) key :
  object !! key = object' !! key →
  Js.getProperty object key = Js.getProperty object' key.
Proof. unfold Js.getProperty. by intros ->. Qed.

Lemma getProperty_own (object : gmap string string) key value :
  object !! key = Some value →
  Js.getProperty object key = Js.StringValue value.
Proof. unfold Js.getProperty. by intros ->. Qed.

Lemma isString_true value s :
  Js.isString value s = true ↔ value = Js.StringValue s.
Proof.
  destruct value as [v| |]; simpl; [|done..].
  rewrite String.eqb_eq. split; congruence.
Qed.

End JsFacts.

(** ** Properties of [deduplicateProviders] *)

Module OfferingMerge.
Import Source Dedup Known.

Section WithBuiltins.
Variable parseFloat : string → Js.JsNumber.

Lemma lt_irrefl a : Js.lt a a = false.
Proof.
  destruct a; simpl; try done.
  apply bool_decide_eq_false. apply (irreflexivity Qclt).
Qed.

Lemma lt_asym a b : Js.lt a b = true → Js.lt b a = false.
Proof.
  destruct a, b; simpl; try done.
  rewrite bool_decide_eq_true, bool_decide_eq_false.
  intros H1 H2. exact (irreflexivity Qclt _ (Qclt_trans _ _ _ H1 H2)).
Qed.

Lemma lt_total a b :
  Js.isNaN a = false → Js.isNaN b = false →
  Js.lt a b = false → Js.lt b a = false → a = b.
Proof.
  destruct a as [| |x|], b as [| |y|]; simpl; try done.
  rewrite !bool_decide_eq_false. intros _ _ H1 H2.
  f_equal. destruct (Qc_dec x y) as [[?|?]|?]; done.
Qed.

Lemma mergeLimit_min e p : mergeLimit e p = minOfKnown e p.
Proof.
  destruct e as [e|], p as [p|]; simpl; try done.
  destruct (Z.ltb_spec p e); f_equal; lia.
Qed.

Lemma mergeLimit_comm e p : mergeLimit e p = mergeLimit p e.
Proof.
  rewrite !mergeLimit_min.
  destruct e, p; simpl; try done. by rewrite Z.min_comm.
Qed.

Lemma mergePriceValue_max e p :
  isMaxOfKnown parseFloat e p (mergePriceValue parseFloat e p).
Proof.
  destruct e as [e|], p as [p|]; simpl; try done.
  destruct (Js.gt (parseFloat p) (parseFloat e)) eqn:Hgt.
  - exists p. split_and!; [done|by right| |apply lt_irrefl].
    by apply lt_asym.
  - exists e. split_and!; [done|by left|apply lt_irrefl|done].
Qed.

(** Whichever of two numeric prices comes first, the merged price is the
    same number. *)
Lemma mergePriceValue_comm e p :
  (∀ s, e = Some s → Js.isNaN (parseFloat s) = false) →
  (∀ s, p = Some s → Js.isNaN (parseFloat s) = false) →
  parseFloat <$> mergePriceValue parseFloat e p
  = parseFloat <$> mergePriceValue parseFloat p e.
Proof.
  intros He Hp. destruct e as [e|], p as [p|]; simpl; try done.
  unfold Js.gt.
  destruct (Js.lt (parseFloat e) (parseFloat p)) eqn:H1,
           (Js.lt (parseFloat p) (parseFloat e)) eqn:H2; simpl; try done.
  - apply lt_asym in H1. congruence.
  - f_equal. symmetry. apply lt_total; auto.
Qed.

Lemma mergePrice_input e p :
  mergePrice parseFloat e p ≫= priceInput
  = mergePriceValue parseFloat (e ≫= priceInput) (p ≫= priceInput).
Proof. by destruct e as [e|], p as [p|]. Qed.

Lemma mergePrice_output e p :
  mergePrice parseFloat e p ≫= priceOutput
  = mergePriceValue parseFloat (e ≫= priceOutput) (p ≫= priceOutput).
Proof. by destruct e as [e|], p as [p|]. Qed.

Lemma mergeProvider_bounds existing provider :
  boundsMerged parseFloat existing provider
    (mergeProvider parseFloat existing provider).
Proof.
  unfold boundsMerged, knownPriceInput, knownPriceOutput; simpl.
  rewrite !mergeLimit_min, mergePrice_input, mergePrice_output.
  split_and!; try done; apply mergePriceValue_max.
Qed.

Lemma mergeOrPush_found deduplicated provider i existing :
  list_find (λ p, sameProvider p provider = true) deduplicated
    = Some (i, existing) →
  mergeOrPush parseFloat deduplicated provider
  = <[i := mergeProvider parseFloat existing provider]> deduplicated.
Proof.
  revert i. induction deduplicated as [|p rest IH]; intros i; simpl; [done|].
  case_decide as Hp.
  - intros [= <- <-]. by rewrite Hp.
  - apply not_true_is_false in Hp. rewrite Hp.
    destruct (list_find _ rest) as [[j e]|] eqn:Hfind; simpl; [|done].
    intros [= <- <-]. simpl. f_equal. by apply IH.
Qed.

Lemma deduplicateProviders_snoc offerings provider :
  deduplicateProviders parseFloat (offerings ++ [provider])
  = mergeOrPush parseFloat (deduplicateProviders parseFloat offerings)
      provider.
Proof. unfold deduplicateProviders. by rewrite foldl_app. Qed.

Lemma sameProvider_sym a b : sameProvider a b = sameProvider b a.
Proof.
  unfold sameProvider. f_equal.
  - apply bool_decide_ext. split; intros H; by symmetry.
  - rewrite String.eqb_sym.
    destruct (String.eqb (providerId b) (providerId a)); simpl; [done|].
    destruct (Js.truthy (providerName a)), (Js.truthy (providerName b));
      simpl; try done.
    by rewrite orb_comm.
Qed.

(** C3.  For every list of offerings, whenever [deduplicateProviders]
    merges the next offering [provider] into an offering [existing] of its
    list (the first one that is the same provider), the merged offering
    takes that place, its [contextLength], [inputLimit] and [outputLimit]
    are the minimum of the values known on the two offerings, and its
    [price.input] and [price.output] are the maximum of the known values;
    a value that is unknown on one side leaves the known one. *)
Theorem merged_offering_has_lower_limits_and_higher_prices
  (offerings : list ModelInformationOfProvider)
  (provider existing : ModelInformationOfProvider) (i : nat) :
  list_find (λ p, sameProvider p provider = true)
    (deduplicateProviders parseFloat offerings) = Some (i, existing) →
  ∃ merged,
    deduplicateProviders parseFloat (offerings ++ [provider])
    = <[i := merged]> (deduplicateProviders parseFloat offerings)
    ∧ boundsMerged parseFloat existing provider merged.
Proof.
  intros Hfind. exists (mergeProvider parseFloat existing provider).
  split; [|apply mergeProvider_bounds].
  rewrite deduplicateProviders_snoc. by apply mergeOrPush_found.
Qed.

(** C9.  For two offerings [A] and [B] that are the same provider, with
    numeric prices, the lists [[A; B]] and [[B; A]] both merge into a single
    offering, and the two results have the same limits (the minimum of the
    known values) and prices of the same numeric value (the maximum of the
    known values). *)
Theorem merged_bounds_do_not_depend_on_the_order
  (A B : ModelInformationOfProvider) :
  sameProvider A B = true →
  numericPrices parseFloat A → numericPrices parseFloat B →
  ∃ ab ba,
    deduplicateProviders parseFloat [A; B] = [ab]
    ∧ deduplicateProviders parseFloat [B; A] = [ba]
    ∧ boundsMerged parseFloat A B ab
    ∧ boundsMerged parseFloat B A ba
    ∧ contextLength ab = contextLength ba
    ∧ inputLimit ab = inputLimit ba
    ∧ outputLimit ab = outputLimit ba
    ∧ parseFloat <$> knownPriceInput ab = parseFloat <$> knownPriceInput ba
    ∧ parseFloat <$> knownPriceOutput ab
      = parseFloat <$> knownPriceOutput ba.
Proof.
  intros Hsame HA HB.
  exists (mergeProvider parseFloat A B), (mergeProvider parseFloat B A).
  unfold deduplicateProviders; simpl.
  rewrite Hsame, sameProvider_sym, Hsame.
  split_and!; try done; try apply mergeProvider_bounds; simpl;
    try apply mergeLimit_comm.
  - unfold knownPriceInput; simpl. rewrite !mergePrice_input.
    apply mergePriceValue_comm; intros s Hs; [apply HA|apply HB]; by left.
  - unfold knownPriceOutput; simpl. rewrite !mergePrice_output.
    apply mergePriceValue_comm; intros s Hs; [apply HA|apply HB]; by right.
Qed.

End WithBuiltins.

(** The scenario of the specification: two offerings of one provider, the
    name of the second starting with the name of the first. *)
Example scenario_shorter_id_higher_price :
  deduplicateProviders Builtins.decimalParseFloat
    [Sample.acmeOne; Sample.acmeTwo]
  = [ {| providerId := "a"; providerName := Some "Acme AI Cloud";
         contextLength := Some 4096%Z; inputLimit := None;
         outputLimit := None;
         price := Some {| currency := "usd"; priceInput := Some "2.00";
                          priceOutput := Some "3.50" |} |} ].
Proof. vm_compute. reflexivity. Qed.

Lemma merged_offering_witness :
  ∃ merged,
    deduplicateProviders Builtins.decimalParseFloat
      ([Sample.acmeOne] ++ [Sample.acmeTwo])
    = <[0 := merged]>
        (deduplicateProviders Builtins.decimalParseFloat [Sample.acmeOne])
    ∧ boundsMerged Builtins.decimalParseFloat Sample.acmeOne Sample.acmeTwo
        merged.
Proof.
  apply (merged_offering_has_lower_limits_and_higher_prices
           Builtins.decimalParseFloat [Sample.acmeOne] Sample.acmeTwo
           Sample.acmeOne 0).
  vm_compute. reflexivity.
Defined.

Lemma numericPrices_acmeOne :
  numericPrices Builtins.decimalParseFloat Sample.acmeOne.
Proof. intros s [[= <-]|[=]]. vm_compute. reflexivity. Defined.

Lemma numericPrices_acmeTwo :
  numericPrices Builtins.decimalParseFloat Sample.acmeTwo.
Proof. intros s [[= <-]|[= <-]]; vm_compute; reflexivity. Defined.

Lemma merged_bounds_order_witness :
  ∃ ab ba,
    deduplicateProviders Builtins.decimalParseFloat
      [Sample.acmeOne; Sample.acmeTwo] = [ab]
    ∧ deduplicateProviders Builtins.decimalParseFloat
        [Sample.acmeTwo; Sample.acmeOne] = [ba]
    ∧ boundsMerged Builtins.decimalParseFloat Sample.acmeOne Sample.acmeTwo ab
    ∧ boundsMerged Builtins.decimalParseFloat Sample.acmeTwo Sample.acmeOne ba
    ∧ contextLength ab = contextLength ba
    ∧ inputLimit ab = inputLimit ba
    ∧ outputLimit ab = outputLimit ba
    ∧ Builtins.decimalParseFloat <$> knownPriceInput ab
      = Builtins.decimalParseFloat <$> knownPriceInput ba
    ∧ Builtins.decimalParseFloat <$> knownPriceOutput ab
      = Builtins.decimalParseFloat <$> knownPriceOutput ba.
Proof.
  apply (merged_bounds_do_not_depend_on_the_order
           Builtins.decimalParseFloat Sample.acmeOne Sample.acmeTwo).
  - vm_compute. reflexivity.
  - exact numericPrices_acmeOne.
  - exact numericPrices_acmeTwo.
Defined.

End OfferingMerge.

(** ** Properties of [deduplicateModels] *)

Module ModelMerge.
Import Source Dedup Known Canonical JsFacts.

Lemma sameCore_refl a : sameCore a a.
Proof. by split_and!. Qed.

Lemma sameCore_trans a b c : sameCore a b → sameCore b c → sameCore a c.
Proof.
  intros (?&?&?&?&Hf1) (?&?&?&?&Hf2). split_and!; congruence.
Qed.

Ltac same_core := split_and!; try done; by intros [].

Lemma getFlag_setFlag flag flag' v m :
  getFlag flag (setFlag flag' v m)
  = if decide (flag = flag') then v else getFlag flag m.
Proof. by destruct flag, flag'. Qed.

Lemma getFlag_mergeFlag flag flag' existingModel model :
  getFlag flag (mergeFlag model existingModel flag')
  = if decide (flag = flag')
    then mergedFlag (getFlag flag existingModel) (getFlag flag model)
    else getFlag flag existingModel.
Proof.
  unfold mergeFlag.
  destruct (decide (flag = flag')) as [<-|Hne].
  - destruct (getFlag flag existingModel) as [[]|] eqn:He,
             (getFlag flag model) as [[]|] eqn:Hm; simpl;
      rewrite ?getFlag_setFlag, ?decide_True by done; done.
  - repeat case_match; rewrite ?getFlag_setFlag, ?decide_False by done; done.
Qed.

Lemma getFlag_mergeFlags flag existingModel model :
  getFlag flag (mergeFlags existingModel model)
  = mergedFlag (getFlag flag existingModel) (getFlag flag model).
Proof.
  unfold mergeFlags, flags; simpl.
  rewrite !getFlag_mergeFlag. by destruct flag.
Qed.

Lemma mergeFlag_fields flag existingModel model :
  let merged := mergeFlag model existingModel flag in
  id merged = id existingModel ∧ aliases merged = aliases existingModel
  ∧ providers merged = providers existingModel
  ∧ freeProviders merged = freeProviders existingModel.
Proof. unfold mergeFlag. repeat case_match; by destruct flag. Qed.

Lemma mergeFlags_fields existingModel model :
  let merged := mergeFlags existingModel model in
  id merged = id existingModel ∧ aliases merged = aliases existingModel
  ∧ providers merged = providers existingModel
  ∧ freeProviders merged = freeProviders existingModel.
Proof.
  unfold mergeFlags, flags; simpl.
  destruct (mergeFlag_fields OpenWeights existingModel model) as (?&?&?&?).
  destruct (mergeFlag_fields Reasoning
              (mergeFlag model existingModel OpenWeights) model) as (?&?&?&?).
  destruct (mergeFlag_fields ToolCalling
              (mergeFlag model (mergeFlag model existingModel OpenWeights)
                 Reasoning) model) as (?&?&?&?).
  repeat split; congruence.
Qed.

Lemma mergeDescription_core e m : sameCore (mergeDescription e m) e.
Proof. unfold mergeDescription. case_match; same_core. Qed.

Lemma mergeInput_core e m : sameCore (mergeInput e m) e.
Proof. unfold mergeInput. case_match; same_core. Qed.

Lemma mergeOutput_core e m : sameCore (mergeOutput e m) e.
Proof. unfold mergeOutput. case_match; same_core. Qed.

Lemma mergeParameters_core e m e' :
  mergeParameters e m = Js.Ok e' → sameCore e' e.
Proof.
  unfold mergeParameters. repeat case_match; intros [= <-]; same_core.
Qed.

Lemma mergeDefaultParameters_core e m :
  sameCore (mergeDefaultParameters e m) e.
Proof. unfold mergeDefaultParameters. case_match; same_core. Qed.

Section WithBuiltins.
Variable parseFloat : string → Js.JsNumber.
Variable dateValue : string → Js.JsNumber.

Local Abbreviation dedupModel := (Dedup.dedupModel parseFloat dateValue).
Local Abbreviation mergeModel := (Dedup.mergeModel parseFloat dateValue).
Local Abbreviation deduplicateModels :=
  (Dedup.deduplicateModels parseFloat dateValue).
Local Abbreviation deduplicateProviders :=
  (Dedup.deduplicateProviders parseFloat).

Lemma mergeKnowledge_core e m : sameCore (mergeKnowledge dateValue e m) e.
Proof. unfold mergeKnowledge. repeat case_match; same_core. Qed.

(** *** The merge of one record into the canonical model *)

Lemma mergeModel_Ok free existingModel model merged :
  mergeModel free existingModel model = Js.Ok merged →
  id merged = id existingModel
  ∧ aliases merged
    = Js.sort byLengthDesc
        (Js.arrayFromSet (aliases existingModel ++ aliases model))
  ∧ providers merged
    = (if free then providers existingModel
       else deduplicateProviders
              (providers existingModel ++ providers model))
  ∧ freeProviders merged
    = (if free
       then Some (deduplicateProviders
                    (default [] (freeProviders existingModel)
                     ++ providers model))
       else freeProviders existingModel)
  ∧ ∀ flag, getFlag flag merged
            = mergedFlag (getFlag flag existingModel) (getFlag flag model).
Proof.
  unfold Dedup.mergeModel. intros (e6 & He6 & [= <-])%bind_Ok.
  set (e2 := Dedup.mergeProviders _ _ _ _) in *.
  assert (sameCore e6 e2) as (Hid & Hal & Hpr & Hfr & Hfl).
  { apply mergeParameters_core in He6.
    eapply sameCore_trans; [exact He6|].
    eapply sameCore_trans; [apply mergeOutput_core|].
    eapply sameCore_trans; [apply mergeInput_core|].
    apply mergeDescription_core. }
  clear He6.
  destruct (mergeKnowledge_core
              (mergeFlags (mergeDefaultParameters e6 model) model) model)
    as (Hid9 & Hal9 & Hpr9 & Hfr9 & Hfl9).
  destruct (mergeFlags_fields (mergeDefaultParameters e6 model) model)
    as (Hid8 & Hal8 & Hpr8 & Hfr8).
  destruct (mergeDefaultParameters_core e6 model)
    as (Hid7 & Hal7 & Hpr7 & Hfr7 & Hfl7).
  rewrite Hid9, Hal9, Hpr9, Hfr9, Hid8, Hal8, Hpr8, Hfr8,
    Hid7, Hal7, Hpr7, Hfr7, Hid, Hal, Hpr, Hfr.
  subst e2. unfold Dedup.mergeProviders, mergeAliases.
  split_and!; try (by destruct free).
  intros flag.
  rewrite Hfl9, getFlag_mergeFlags, Hfl7, Hfl.
  by destruct free, flag.
Qed.

(** *** One turn of the loop *)

Lemma dedupModel_cases modelsById model0 modelsById' :
  dedupModel modelsById model0 = Js.Ok modelsById' →
  (Js.mapGet (comparableId model0) modelsById = None
   ∧ modelsById'
     = Js.mapSet (comparableId model0) (stripFreeSuffix model0) modelsById)
  ∨ (∃ existingModel merged,
       Js.mapGet (comparableId model0) modelsById = Some existingModel
       ∧ mergeModel (isFreeModel model0) existingModel
           (stripFreeSuffix model0) = Js.Ok merged
       ∧ modelsById' = Js.mapSet (comparableId model0) merged modelsById).
Proof.
  unfold Dedup.dedupModel, comparableId.
  destruct (Js.mapGet _ modelsById) as [existingModel|] eqn:Hget.
  - intros (merged & Hmerge & [= <-])%bind_Ok. right. by exists existingModel, merged.
  - intros [= <-]. by left.
Qed.

Lemma stripFreeSuffix_fields model :
  providers (stripFreeSuffix model) = providers model
  ∧ freeProviders (stripFreeSuffix model) = freeProviders model
  ∧ ∀ flag, getFlag flag (stripFreeSuffix model) = getFlag flag model.
Proof.
  unfold stripFreeSuffix. case_match; split_and!; try done; by intros [].
Qed.

Lemma stripFreeSuffix_not_free model :
  isFreeModel model = false → stripFreeSuffix model = model.
Proof. unfold stripFreeSuffix. by intros ->. Qed.

Lemma stripFreeSuffix_id_in_aliases model :
  id model ∈ aliases model →
  id (stripFreeSuffix model) ∈ aliases (stripFreeSuffix model).
Proof.
  unfold stripFreeSuffix. case_match; simpl; [|done].
  intros _. apply elem_of_app. right. by apply list_elem_of_singleton.
Qed.

(** The keys of the map are distinct, and each is the comparable id of
    its model. *)
Lemma dedupModel_keyed modelsById model0 modelsById' :
  keyedById modelsById →
  dedupModel modelsById model0 = Js.Ok modelsById' →
  keyedById modelsById'.
Proof.
  intros [Hnd Hkey] Hstep. split.
  - apply dedupModel_cases in Hstep
      as [[_ ->]|(e & merged & _ & _ & ->)]; by apply mapSet_keys.
  - intros k c.
    apply dedupModel_cases in Hstep
      as [[_ ->]|(e & merged & Hget & Hmerge & ->)];
      rewrite mapGet_mapSet; case_decide; subst; try apply Hkey.
    + by intros [= <-].
    + intros [= <-]. apply mergeModel_Ok in Hmerge as (-> & _).
      by apply Hkey.
Qed.

Lemma loop_keyed models modelsById :
  Js.forOf dedupModel models [] = Js.Ok modelsById → keyedById modelsById.
Proof.
  intros Hloop.
  apply (forOf_invariant dedupModel (λ _, keyedById) models [] _);
    [|by eauto using dedupModel_keyed|done].
  split; [constructor|done].
Qed.

Lemma deduplicateModels_Ok models result :
  deduplicateModels models = Js.Ok result →
  ∃ modelsById,
    Js.forOf dedupModel models [] = Js.Ok modelsById
    ∧ keyedById modelsById
    ∧ result = Js.mapValues modelsById.
Proof.
  unfold Dedup.deduplicateModels.
  intros (modelsById & Hloop & [= <-])%bind_Ok.
  exists modelsById. eauto using loop_keyed.
Qed.

Lemma canonical_lookup modelsById c :
  keyedById modelsById →
  c ∈ Js.mapValues modelsById
  ↔ Js.mapGet (makeIdComparable (id c)) modelsById = Some c.
Proof.
  intros [Hnd Hkey]. rewrite elem_of_mapValues by done. split.
  - intros (k & Hget). by rewrite (Hkey _ _ Hget).
  - eauto.
Qed.

(** *** When [deduplicateModels] returns *)

Lemma parameters_mergeFlag flag existingModel model :
  parameters (mergeFlag model existingModel flag) = parameters existingModel.
Proof. unfold mergeFlag. repeat case_match; by destruct flag. Qed.

Lemma parameters_after_merge model e6 :
  parameters
    (mergeKnowledge dateValue
       (mergeFlags (mergeDefaultParameters e6 model) model) model)
  = parameters e6.
Proof.
  transitivity (parameters (mergeFlags (mergeDefaultParameters e6 model) model)).
  { unfold mergeKnowledge. by repeat case_match. }
  unfold mergeFlags, flags. cbn [foldl].
  rewrite !parameters_mergeFlag.
  unfold mergeDefaultParameters. by case_match.
Qed.

Lemma parameters_before_merge free existingModel model :
  parameters
    (mergeOutput
       (mergeInput
          (mergeDescription
             (Dedup.mergeProviders parseFloat free
                (mergeAliases existingModel model) model) model) model)
       model)
  = parameters existingModel.
Proof.
  transitivity (parameters
    (mergeInput
       (mergeDescription
          (Dedup.mergeProviders parseFloat free
             (mergeAliases existingModel model) model) model) model)).
  { unfold mergeOutput. by case_match. }
  transitivity (parameters
    (mergeDescription
       (Dedup.mergeProviders parseFloat free
          (mergeAliases existingModel model) model) model)).
  { unfold mergeInput. by case_match. }
  transitivity (parameters
       (Dedup.mergeProviders parseFloat free
          (mergeAliases existingModel model) model)).
  { unfold mergeDescription. by case_match. }
  by destruct free.
Qed.

Lemma mergeModel_returns free existingModel model :
  is_Some (parameters existingModel) → is_Some (parameters model) →
  ∃ merged, mergeModel free existingModel model = Js.Ok merged
            ∧ is_Some (parameters merged).
Proof.
  intros [a Ha] [b Hb]. unfold Dedup.mergeModel.
  set (e5 := mergeOutput _ _).
  assert (parameters e5 = Some a) as He5
    by (subst e5; by rewrite parameters_before_merge).
  clearbody e5. unfold mergeParameters. rewrite He5, Hb.
  destruct (setsDiffer _ _); rewrite bind_Ok_l; eexists;
    (split; [reflexivity|]); rewrite parameters_after_merge; by eauto.
Qed.

(** When every model of the list has its array of parameters,
    [deduplicateModels] returns. *)
Lemma deduplicateModels_returns models :
  (∀ model, model ∈ models → is_Some (parameters model)) →
  ∃ result, deduplicateModels models = Js.Ok result.
Proof.
  intros Hmodels.
  cut (∀ modelsById,
         (∀ key c, Js.mapGet key modelsById = Some c →
                   is_Some (parameters c)) →
         ∃ modelsById', Js.forOf dedupModel models modelsById
                        = Js.Ok modelsById').
  { intros Hloop. destruct (Hloop []) as [modelsById' Hm]; [done|].
    exists (Js.mapValues modelsById').
    unfold Dedup.deduplicateModels. by rewrite Hm. }
  induction models as [|x models IH]; intros modelsById Hinv.
  { by eexists. }
  rewrite forOf_cons.
  assert (is_Some (parameters (stripFreeSuffix x))) as Hx.
  { unfold stripFreeSuffix. case_match; simpl; apply Hmodels; set_solver. }
  assert (∃ modelsById',
            dedupModel modelsById x = Js.Ok modelsById'
            ∧ ∀ key c, Js.mapGet key modelsById' = Some c →
                       is_Some (parameters c)) as (m' & -> & Hinv').
  { unfold Dedup.dedupModel.
    destruct (Js.mapGet _ modelsById) as [e|] eqn:Hget.
    - destruct (mergeModel_returns (isFreeModel x) e (stripFreeSuffix x))
        as (merged & -> & Hmerged); [by eapply Hinv|done|].
      eexists. split; [reflexivity|]. intros key c.
      rewrite mapGet_mapSet. case_decide; [by intros [= <-]|apply Hinv].
    - eexists. split; [reflexivity|]. intros key c.
      rewrite mapGet_mapSet. case_decide; [by intros [= <-]|apply Hinv]. }
  rewrite bind_Ok_l. apply IH; [|done].
  intros model Hin. apply Hmodels. set_solver.
Qed.

(** *** Sticky [false] *)

Lemma mergedFlag_false_l incoming : mergedFlag (Some false) incoming = Some false.
Proof. done. Qed.

Lemma mergedFlag_false_r existing : mergedFlag existing (Some false) = Some false.
Proof. by destruct existing as [[]|]. Qed.

Lemma loop_false_flag flag models modelsById :
  Js.forOf dedupModel models [] = Js.Ok modelsById →
  ∀ model, model ∈ models → getFlag flag model = Some false →
    ∃ c, Js.mapGet (comparableId model) modelsById = Some c
         ∧ getFlag flag c = Some false.
Proof.
  apply (forOf_invariant dedupModel
           (λ pre modelsById, ∀ model, model ∈ pre →
              getFlag flag model = Some false →
              ∃ c, Js.mapGet (comparableId model) modelsById = Some c
                   ∧ getFlag flag c = Some false)).
  { intros model Hin. by apply elem_of_nil in Hin. }
  intros pre x s s' _ IH Hstep model Hin Hflag.
  apply dedupModel_cases in Hstep
    as [[Hnone ->]|(e & merged & Hget & Hmerge & ->)];
    rewrite mapGet_mapSet; case_decide as Hkey.
  - exists (stripFreeSuffix x). split; [done|].
    apply elem_of_app in Hin as [Hin| ->%list_elem_of_singleton].
    + destruct (IH model Hin Hflag) as (c & Hc & _). congruence.
    + by rewrite (proj2 (proj2 (stripFreeSuffix_fields _))).
  - apply elem_of_app in Hin as [Hin| ->%list_elem_of_singleton]; [eauto|done].
  - exists merged. split; [done|].
    apply mergeModel_Ok in Hmerge as (_ & _ & _ & _ & ->).
    apply elem_of_app in Hin as [Hin| ->%list_elem_of_singleton].
    + destruct (IH model Hin Hflag) as (c & Hc & Hcf).
      rewrite <- Hkey, Hget in Hc. injection Hc as ->. by rewrite Hcf.
    + rewrite (proj2 (proj2 (stripFreeSuffix_fields _))), Hflag.
      apply mergedFlag_false_r.
  - apply elem_of_app in Hin as [Hin| ->%list_elem_of_singleton]; [eauto|done].
Qed.

(** C4.  For each of the flags [openWeights], [reasoning] and
    [toolCalling] and every list of models: when a model of the list has the
    flag [false], the list has a canonical model for it in the result of
    [deduplicateModels], and the canonical model it is merged into has the
    flag [false], wherever the model stands in the list and whatever the
    other models say. *)
Theorem false_flag_is_sticky (flag : Flag)
  (models result : list ModelInformation) (model : ModelInformation) :
  deduplicateModels models = Js.Ok result →
  model ∈ models →
  getFlag flag model = Some false →
  (∃ c, c ∈ result ∧ makeIdComparable (id c) = comparableId model)
  ∧ ∀ c, c ∈ result → makeIdComparable (id c) = comparableId model →
         getFlag flag c = Some false.
Proof.
  intros (modelsById & Hloop & Hkeyed & ->)%deduplicateModels_Ok Hin Hflag.
  destruct (loop_false_flag flag _ _ Hloop model Hin Hflag)
    as (c & Hget & Hc).
  pose proof (proj2 Hkeyed _ _ Hget) as Hkey.
  split.
  - exists c. split; [|done]. apply canonical_lookup; [done|].
    by rewrite Hkey.
  - intros c' Hc'%canonical_lookup Hkey'; [|done].
    rewrite Hkey' in Hc'. congruence.
Qed.

(** *** Deduplicating what is deduplicated *)

Lemma isFreeModel_id a b : id a = id b → isFreeModel a = isFreeModel b.
Proof. unfold isFreeModel. by intros ->. Qed.

Lemma canonical_origin models modelsById :
  Js.forOf dedupModel models [] = Js.Ok modelsById →
  ∀ key c, Js.mapGet key modelsById = Some c →
    ∃ model, model ∈ models ∧ id c = id (stripFreeSuffix model).
Proof.
  intros Hloop.
  cut (∀ key c, Js.mapGet key modelsById = Some c →
         ∃ model, model ∈ models ∧ model ∈ models
                  ∧ id c = id (stripFreeSuffix model)).
  { intros H key c Hget. destruct (H key c Hget) as (m & ? & _ & ?); eauto. }
  revert Hloop.
  apply (forOf_invariant dedupModel
           (λ pre modelsById, ∀ key c, Js.mapGet key modelsById = Some c →
              ∃ model, model ∈ models ∧ model ∈ pre
                       ∧ id c = id (stripFreeSuffix model))).
  { done. }
  intros pre x s s' Hpre IH Hstep key c.
  assert (x ∈ models) as Hx.
  { destruct Hpre as [rest ->]. set_solver. }
  apply dedupModel_cases in Hstep
    as [[Hnone ->]|(e & merged & Hget & Hmerge & ->)];
    rewrite mapGet_mapSet; case_decide as Hkey.
  - intros [= <-]. exists x. set_solver.
  - intros Hc. destruct (IH key c Hc) as (m & ? & ? & ?).
    exists m. set_solver.
  - intros [= <-]. apply mergeModel_Ok in Hmerge as (-> & _).
    destruct (IH _ _ Hget) as (m & ? & ? & ?). exists m. set_solver.
  - intros Hc. destruct (IH key c Hc) as (m & ? & ? & ?).
    exists m. set_solver.
Qed.

Lemma dedupModel_fresh modelsById model :
  isFreeModel model = false →
  makeIdComparable (id model) ∉ modelsById.*1 →
  dedupModel modelsById model
  = Js.Ok (modelsById ++ [(makeIdComparable (id model), model)]).
Proof.
  intros Hfree Hfresh. unfold Dedup.dedupModel.
  rewrite (stripFreeSuffix_not_free _ Hfree).
  rewrite (proj2 (mapGet_None _ _) Hfresh).
  by rewrite mapSet_fresh.
Qed.

(** A list of models with distinct comparable ids, none of the free tier,
    goes through the loop as it is. *)
Lemma loop_distinct models modelsById :
  canonicalIds models →
  NoDup (modelsById.*1 ++ (makeIdComparable ∘ id <$> models)) →
  Js.forOf dedupModel models modelsById
  = Js.Ok (modelsById ++ ((λ c, (makeIdComparable (id c), c)) <$> models)).
Proof.
  revert modelsById.
  induction models as [|x models IH]; intros modelsById Hfree Hnd.
  - cbn [Js.forOf fmap list_fmap]. by rewrite app_nil_r.
  - assert (isFreeModel x = false) as Hx by (apply Hfree; set_solver).
    assert (makeIdComparable (id x) ∉ modelsById.*1) as Hfresh.
    { apply NoDup_app in Hnd as (_ & Hdisj & _).
      intros Hin. apply (Hdisj _ Hin). set_solver. }
    rewrite forOf_cons, dedupModel_fresh, bind_Ok_l by done.
    rewrite IH.
    + rewrite fmap_cons. by rewrite <- app_assoc.
    + intros m Hm. apply Hfree. set_solver.
    + rewrite fmap_app, fmap_cons. cbn [fmap list_fmap fst].
      rewrite fmap_cons in Hnd. by rewrite <- app_assoc.
Qed.

Lemma deduplicateModels_distinct models :
  canonicalIds models →
  NoDup (makeIdComparable ∘ id <$> models) →
  deduplicateModels models = Js.Ok models.
Proof.
  intros Hfree Hnd. unfold Dedup.deduplicateModels.
  rewrite loop_distinct by done. simpl. f_equal.
  unfold Js.mapValues. rewrite <- list_fmap_compose.
  by rewrite list_fmap_id.
Qed.

Lemma keyedById_values modelsById :
  keyedById modelsById →
  makeIdComparable ∘ id <$> Js.mapValues modelsById = modelsById.*1.
Proof.
  intros [Hnd Hkey]. unfold Js.mapValues.
  rewrite <- list_fmap_compose. apply Forall_fmap_ext, Forall_forall.
  intros [k c] Hin. simpl. apply Hkey. by apply mapGet_elem.
Qed.

(** The result of [deduplicateModels] has distinct comparable ids. *)
Lemma deduplicateModels_NoDup models result :
  deduplicateModels models = Js.Ok result →
  NoDup (makeIdComparable ∘ id <$> result).
Proof.
  intros (modelsById & Hloop & Hkeyed & ->)%deduplicateModels_Ok.
  rewrite keyedById_values by done. apply Hkeyed.
Qed.

Lemma deduplicateModels_canonicalIds models result :
  canonicalIds models →
  deduplicateModels models = Js.Ok result →
  canonicalIds result.
Proof.
  intros Hfree (modelsById & Hloop & Hkeyed & ->)%deduplicateModels_Ok.
  intros c Hc%canonical_lookup; [|done].
  destruct (canonical_origin _ _ Hloop _ _ Hc) as (m & Hm & Hid).
  rewrite (stripFreeSuffix_not_free _ (Hfree _ Hm)) in Hid.
  rewrite (isFreeModel_id _ _ Hid). by apply Hfree.
Qed.

(** C8.  For every list of models whose ids are canonical already (none
    carries the suffix of the free tier), deduplicating the result of
    [deduplicateModels] once more gives that result: nothing is merged. *)
Theorem deduplicateModels_idempotent (models : list ModelInformation) :
  canonicalIds models →
  deduplicateModels models ≫= deduplicateModels = deduplicateModels models.
Proof.
  intros Hfree.
  destruct (deduplicateModels models) as [result|e] eqn:Hresult; simpl;
    [|done].
  apply deduplicateModels_distinct.
  - by eapply deduplicateModels_canonicalIds.
  - by eapply deduplicateModels_NoDup.
Qed.

(** *** Providers of the free tier *)

(** C6, amended.  When the next model [model] of the list is merged into
    a canonical model [c] that the list before it has given, the merged
    canonical model keeps the id; if [model] is of the free tier (its id
    ends with [:free], whatever the case), its offerings are merged into
    [freeProviders] by [deduplicateProviders] and [providers] stays as it
    is; if it is not, its offerings are merged into [providers] and
    [freeProviders] stays as it is.  The other canonical models stay, and
    no canonical model is added. *)
Theorem merged_offerings_go_to_their_list
  (models result result' : list ModelInformation)
  (model c : ModelInformation) :
  deduplicateModels models = Js.Ok result →
  c ∈ result →
  makeIdComparable (id c) = comparableId model →
  deduplicateModels (models ++ [model]) = Js.Ok result' →
  (∃ merged,
     merged ∈ result'
     ∧ id merged = id c
     ∧ providers merged
       = (if isFreeModel model then providers c
          else deduplicateProviders (providers c ++ providers model))
     ∧ freeProviders merged
       = (if isFreeModel model
          then Some (deduplicateProviders
                       (default [] (freeProviders c) ++ providers model))
          else freeProviders c))
  ∧ (∀ other, other ∈ result →
       makeIdComparable (id other) ≠ comparableId model →
       other ∈ result')
  ∧ length result' = length result.
Proof.
  intros (modelsById & Hloop & Hkeyed & ->)%deduplicateModels_Ok
    Hc%canonical_lookup Hkey; [|done].
  unfold Dedup.deduplicateModels. rewrite forOf_snoc, Hloop; simpl.
  intros (modelsById' & Hstep & [= <-])%bind_Ok.
  pose proof (dedupModel_keyed _ _ _ Hkeyed Hstep) as Hkeyed'.
  rewrite Hkey in Hc.
  apply dedupModel_cases in Hstep
    as [[Hnone _]|(e & merged & Hget & Hmerge & ->)]; [congruence|].
  assert (e = c) as -> by congruence.
  split_and!.
  - exists merged.
    apply mergeModel_Ok in Hmerge as Hm.
    destruct Hm as (Hid & _ & Hpr & Hfr & _).
    destruct (stripFreeSuffix_fields model) as (Hsp & _).
    rewrite Hsp in Hpr, Hfr. split_and!; try done.
    apply canonical_lookup; [done|].
    rewrite Hid, Hkey. apply mapGet_mapSet_eq.
  - intros other Hother%canonical_lookup Hne; [|done].
    apply canonical_lookup; [done|]. by rewrite mapGet_mapSet_ne.
  - unfold Js.mapValues. rewrite !length_fmap.
    rewrite <- (length_fmap fst (Js.mapSet _ _ _)),
      <- (length_fmap fst modelsById).
    rewrite mapSet_keys_present; [done|].
    apply dec_stable. intros Hn%mapGet_None. congruence.
Qed.

End WithBuiltins.
End ModelMerge.

(** ** [deduplicateModels] on the sample records *)

Module ModelMergeExamples.
Import Source Dedup Known Canonical JsFacts.

Example spellings_merge :
  Sample.deduplicateModels Sample.spellings = Js.Ok Sample.spellingsResult
  ∧ (id <$> Sample.spellingsResult) = ["gpt-4"; "llama"]
  ∧ (reasoning <$> Sample.spellingsResult) = [Some false; None]
  ∧ (aliases <$> Sample.spellingsResult)
    = [["openai/gpt-4"; "gpt-4"; "gpt_4"; "GPT4"]; ["llama"]].
Proof. vm_compute. done. Qed.

Lemma false_flag_witness :
  (∃ c, c ∈ Sample.spellingsResult
        ∧ makeIdComparable (id c)
          = comparableId (Sample.model "GPT4" ["GPT4"] (Some false)
                            [Sample.acmeTwo]))
  ∧ ∀ c, c ∈ Sample.spellingsResult →
         makeIdComparable (id c)
         = comparableId (Sample.model "GPT4" ["GPT4"] (Some false)
                           [Sample.acmeTwo]) →
         getFlag Reasoning c = Some false.
Proof.
  apply (ModelMerge.false_flag_is_sticky Builtins.decimalParseFloat
           Builtins.isoDateValue Reasoning Sample.spellings).
  - vm_compute. reflexivity.
  - apply list_elem_of_further, list_elem_of_here.
  - reflexivity.
Defined.

Lemma spellings_ids_in_aliases :
  ∀ model, model ∈ Sample.spellings → id model ∈ aliases model.
Proof.
  intros model Hin. unfold Sample.spellings in Hin.
  repeat (apply elem_of_cons in Hin as [->|Hin]);
    [| | | |by apply elem_of_nil in Hin]; simpl.
  - apply list_elem_of_further, list_elem_of_here.
  - apply list_elem_of_here.
  - apply list_elem_of_here.
  - apply list_elem_of_here.
Defined.

(** C7 as it is stated does not hold: a model that nothing is merged into
    keeps its aliases in the order in which they came, and two spellings that
    differ by the case only both stay among the aliases of the merged
    model. *)
Lemma aliases_counterexample :
  (id Sample.shortFirst ∈ aliases Sample.shortFirst
   ∧ Sample.deduplicateModels [Sample.shortFirst] = Js.Ok [Sample.shortFirst]
   ∧ ¬ longestFirst (aliases Sample.shortFirst))
  ∧ (id Sample.upper ∈ aliases Sample.upper
     ∧ id Sample.lower ∈ aliases Sample.lower
     ∧ ∃ c, Sample.deduplicateModels [Sample.upper; Sample.lower] = Js.Ok [c]
            ∧ aliases c = ["Llama"; "llama"]
            ∧ ¬ NoDup (Js.toLowerCase <$> aliases c)).
Proof.
  split; split_and!.
  - apply list_elem_of_here.
  - vm_compute. reflexivity.
  - intros Hs. inversion Hs as [|? ? _ Hhd]; subst.
    inversion Hhd as [|? ? Hle]; subst. simpl in Hle. lia.
  - apply list_elem_of_here.
  - apply list_elem_of_here.
  - eexists. split_and!; [vm_compute; reflexivity|reflexivity|].
    simpl. intros Hnd. apply NoDup_cons in Hnd as [Hnotin _].
    apply Hnotin, list_elem_of_here.
Qed.

Lemma canonicalIds_spellings : canonicalIds Sample.spellings.
Proof.
  intros model Hin. unfold Sample.spellings in Hin.
  repeat (apply elem_of_cons in Hin as [->|Hin]);
    [| | | |by apply elem_of_nil in Hin]; reflexivity.
Defined.

Lemma idempotent_witness :
  Sample.deduplicateModels Sample.spellings ≫= Sample.deduplicateModels
  = Sample.deduplicateModels Sample.spellings.
Proof.
  apply (ModelMerge.deduplicateModels_idempotent Builtins.decimalParseFloat
           Builtins.isoDateValue Sample.spellings).
  exact canonicalIds_spellings.
Defined.

(** C6 as it is stated does not hold: the paid and the free record of a
    model come from the same provider, and its offering stands in
    [providers] and in [freeProviders]. *)
Lemma free_and_paid_counterexample :
  ∃ c, Sample.deduplicateModels [Sample.paid; Sample.free] = Js.Ok [c]
       ∧ isFreeModel Sample.free = true
       ∧ Sample.acmeOne ∈ providers c
       ∧ Sample.acmeOne ∈ default [] (freeProviders c).
Proof.
  eexists. split_and!.
  - vm_compute. reflexivity.
  - reflexivity.
  - apply list_elem_of_here.
  - apply list_elem_of_here.
Qed.

(** Two suffixes of the free tier: the first pass takes one, the second pass
    takes the other. *)
Example double_suffix_is_not_stable :
  ∃ once twice,
    Sample.deduplicateModels [Sample.model "m:free:free" ["m:free:free"] None []]
    = Js.Ok [once]
    ∧ Sample.deduplicateModels [once] = Js.Ok [twice]
    ∧ id once = "m:free" ∧ id twice = "m".
Proof.
  do 2 eexists. split_and!; [vm_compute; reflexivity..|done|done].
Qed.

(** The merge of the parameters spreads [parameters!]: when a model gives no
    parameters and the other gives some, [deduplicateModels] throws. *)
Example undefined_parameters_throw :
  Sample.deduplicateModels
    [ setParameters None (Sample.model "m" ["m"] None []);
      setParameters (Some ["temperature"]) (Sample.model "M" ["M"] None []) ]
  = Js.Throw "TypeError: undefined is not iterable".
Proof. vm_compute. reflexivity. Qed.

(** A record of the free tier that is the first of its model becomes the
    canonical model, with its offerings in [providers]. *)
Example free_record_first :
  ∃ c, Sample.deduplicateModels [Sample.free] = Js.Ok [c]
       ∧ id c = "m" ∧ aliases c = ["m:free"; "m"]
       ∧ providers c = [Sample.acmeOne] ∧ freeProviders c = None.
Proof. eexists. split_and!; [vm_compute; reflexivity|done..]. Qed.

Lemma merged_offerings_witness :
  (∃ merged,
     merged ∈ Sample.paidAndFreeResult
     ∧ id merged = id Sample.paid
     ∧ providers merged
       = (if isFreeModel Sample.free then providers Sample.paid
          else deduplicateProviders Builtins.decimalParseFloat
                 (providers Sample.paid ++ providers Sample.free))
     ∧ freeProviders merged
       = (if isFreeModel Sample.free
          then Some (deduplicateProviders Builtins.decimalParseFloat
                       (default [] (freeProviders Sample.paid)
                        ++ providers Sample.free))
          else freeProviders Sample.paid))
  ∧ (∀ other, other ∈ [Sample.paid] →
       makeIdComparable (id other) ≠ comparableId Sample.free →
       other ∈ Sample.paidAndFreeResult)
  ∧ length Sample.paidAndFreeResult = length [Sample.paid].
Proof.
  apply (ModelMerge.merged_offerings_go_to_their_list
           Builtins.decimalParseFloat Builtins.isoDateValue
           [Sample.paid] [Sample.paid] Sample.paidAndFreeResult
           Sample.free Sample.paid).
  - vm_compute. reflexivity.
  - apply list_elem_of_here.
  - reflexivity.
  - vm_compute. reflexivity.
Defined.

End ModelMergeExamples.

(** ** Properties of the processor *)

Module Reconcile.
Import Processed Processor Contract JsFacts.

(** *** Finding, marking and adding back the records of the catalog *)

Lemma findModel_Some i l r : findModel i l = Some r → id r = i ∧ r ∈ l.
Proof.
  unfold findModel. induction l as [|m l IH]; simpl; [done|].
  destruct (String.eqb (id m) i) eqn:Heq.
  - intros [= <-]. apply String.eqb_eq in Heq. split; [done|]. apply list_elem_of_here.
  - intros [? ?]%IH. split; [done|]. by apply list_elem_of_further.
Qed.

Lemma findModel_None i l : findModel i l = None ↔ i ∉ id <$> l.
Proof.
  unfold findModel. induction l as [|m l IH]; simpl.
  - split; [|done]. intros _ Hin. by apply elem_of_nil in Hin.
  - destruct (String.eqb (id m) i) eqn:Heq.
    + apply String.eqb_eq in Heq. split; [done|]. intros Hn. destruct Hn.
      rewrite Heq. apply list_elem_of_here.
    + apply String.eqb_neq in Heq. rewrite IH, not_elem_of_cons. naive_solver.
Qed.

Lemma findModel_known i l : i ∈ id <$> l → ∃ r, findModel i l = Some r.
Proof.
  intros Hin. destruct (findModel i l) as [r|] eqn:Hfind; [by exists r|].
  by apply findModel_None in Hfind.
Qed.

Lemma findModel_cons i m l :
  findModel i (m :: l) = if decide (id m = i) then Some m else findModel i l.
Proof.
  unfold findModel; simpl. case_decide as Heq.
  - by apply String.eqb_eq in Heq as ->.
  - by apply String.eqb_neq in Heq as ->.
Qed.

#[local] Arguments findModel : simpl never.

Lemma findModel_markDeprecated i x l :
  findModel i (markDeprecated l x)
  = if decide (i = x) then setDeprecated (Some true) <$> findModel i l
    else findModel i l.
Proof.
  induction l as [|m l IH]; simpl; [by case_decide|].
  destruct (String.eqb (id m) x) eqn:Heq.
  - apply String.eqb_eq in Heq. rewrite !findModel_cons; simpl.
    repeat case_decide; simplify_eq; done.
  - apply String.eqb_neq in Heq. rewrite !findModel_cons, IH.
    repeat case_decide; simplify_eq; done.
Qed.

Lemma findModel_marked i missing l :
  findModel i (foldl markDeprecated l missing)
  = if decide (i ∈ missing) then setDeprecated (Some true) <$> findModel i l
    else findModel i l.
Proof.
  revert l. induction missing as [|x missing IH]; intros l; cbn [foldl].
  - destruct (decide (i ∈ [])) as [Hin|]; [by apply elem_of_nil in Hin|done].
  - rewrite IH, findModel_markDeprecated.
    destruct (decide (i = x)) as [->|Hne].
    + rewrite (decide_True (P := x ∈ x :: missing)) by apply list_elem_of_here.
      case_decide; [|done]. by destruct (findModel x l).
    + destruct (decide (i ∈ missing)) as [Hin|Hin].
      * rewrite decide_True; [done|]. by apply list_elem_of_further.
      * rewrite decide_False; [done|]. by apply not_elem_of_cons.
Qed.

Lemma addBack_incl acc m r : r ∈ acc → r ∈ addBack acc m.
Proof. unfold addBack. case_match; set_solver. Qed.

Lemma addBack_fold_incl acc l r : r ∈ acc → r ∈ foldl addBack acc l.
Proof.
  revert acc. induction l as [|m l IH]; intros acc Hin; simpl; [done|].
  by apply IH, addBack_incl.
Qed.

(** The first record of the catalog under an id comes back when no record
    of the list has the id. *)
Lemma addBack_fold_adds acc l i r :
  findModel i l = Some r → i ∉ id <$> acc → r ∈ foldl addBack acc l.
Proof.
  revert acc. induction l as [|m l IH]; intros acc; [done|].
  rewrite findModel_cons. simpl. case_decide as Heq.
  - intros [= <-] Hacc. apply addBack_fold_incl. unfold addBack.
    rewrite Heq. apply findModel_None in Hacc as ->. set_solver.
  - intros Hfind Hacc. apply IH; [done|]. unfold addBack.
    case_match; [done|]. rewrite fmap_app. set_solver.
Qed.

(** What comes out of the adding back was in the list, or is the first
    record of the catalog under an id that the list did not have. *)
Lemma addBack_fold_inv acc l r :
  r ∈ foldl addBack acc l →
  r ∈ acc ∨ (findModel (id r) l = Some r ∧ id r ∉ id <$> acc).
Proof.
  revert acc. induction l as [|m l IH]; intros acc; simpl; [by left|].
  intros [Hin|[Hfind Hacc]]%IH; unfold addBack in *;
    rewrite findModel_cons;
    destruct (findModel (id m) acc) as [a|] eqn:Hm.
  - by left.
  - apply elem_of_app in Hin as [?| ->%list_elem_of_singleton]; [by left|].
    right. rewrite decide_True by done. split; [done|].
    by apply findModel_None.
  - right. apply findModel_Some in Hm as [Hid Ha].
    rewrite decide_False; [done|]. intros Heq. apply Hacc.
    rewrite <- Heq, <- Hid. by apply list_elem_of_fmap_2.
  - right. rewrite fmap_app in Hacc. rewrite decide_False; set_solver.
Qed.

(** *** The chains of steps *)

Lemma applyNewAndChanged_Ok steps index sourceModel existingModel newModel
  log newModel' log' :
  applyNewAndChanged steps index sourceModel existingModel newModel log
  = Js.Ok (newModel', log') →
  ∃ added,
    log' = log ++ added
    ∧ Forall (λ call, ∃ j given,
                call = CallNewAndChanged j sourceModel existingModel given
                ∧ (Forall keepsId steps → id given = id newModel)) added
    ∧ (Forall keepsId steps → id newModel' = id newModel).
Proof.
  revert index newModel log.
  induction steps as [|step steps IH]; intros index newModel log; simpl.
  - intros [= <- <-]. exists []. by rewrite app_nil_r.
  - intros (given & Hstep & Hrest)%bind_Ok.
    apply IH in Hrest as (added & -> & Hadded & Hid).
    exists (CallNewAndChanged index sourceModel existingModel newModel
            :: added).
    split_and!.
    + by rewrite <- app_assoc.
    + constructor; [by eauto|].
      eapply Forall_impl; [exact Hadded|]. simpl.
      intros call (j & g & -> & Hg). exists j, g. split; [done|].
      intros [Hk Hks]%Forall_cons. rewrite (Hg Hks). by eapply Hk.
    + intros [Hk Hks]%Forall_cons. rewrite (Hid Hks). by eapply Hk.
Qed.

Lemma applyNoChange_Ok steps index sourceModel existingModel log
  existingModel' log' :
  applyNoChange steps index sourceModel existingModel log
  = Js.Ok (existingModel', log') →
  ∃ added,
    log' = log ++ added
    ∧ Forall (λ call, ∃ j given,
                call = CallNoChange j sourceModel given
                ∧ (Forall noChangeKeepsId steps →
                   id given = id existingModel)) added
    ∧ (Forall noChangeKeepsId steps → id existingModel' = id existingModel).
Proof.
  revert index existingModel log.
  induction steps as [|step steps IH]; intros index existingModel log; simpl.
  - intros [= <- <-]. exists []. by rewrite app_nil_r.
  - intros (given & Hstep & Hrest)%bind_Ok.
    apply IH in Hrest as (added & -> & Hadded & Hid).
    exists (CallNoChange index sourceModel existingModel :: added).
    split_and!.
    + by rewrite <- app_assoc.
    + constructor; [by eauto|].
      eapply Forall_impl; [exact Hadded|]. simpl.
      intros call (j & g & -> & Hg). exists j, g. split; [done|].
      intros [Hk Hks]%Forall_cons. rewrite (Hg Hks). by eapply Hk.
    + intros [Hk Hks]%Forall_cons. rewrite (Hid Hks). by eapply Hk.
Qed.

Lemma applyBatch_Ok steps index models log models' log' :
  applyBatch steps index models log = Js.Ok (models', log') →
  ∃ added,
    log' = log ++ added
    ∧ Forall (λ call, ∃ j given,
                call = CallBatch j given
                ∧ (Forall batchKeepsIds steps →
                   id <$> given ⊆ id <$> models)) added
    ∧ (Forall batchKeepsIds steps → id <$> models' ⊆ id <$> models)
    ∧ length added = length steps.
Proof.
  revert index models log.
  induction steps as [|step steps IH]; intros index models log; simpl.
  - intros [= <- <-]. exists []. by rewrite app_nil_r.
  - intros (given & Hstep & Hrest)%bind_Ok.
    apply IH in Hrest as (added & -> & Hadded & Hid & Hlen).
    exists (CallBatch index models :: added).
    split_and!.
    + by rewrite <- app_assoc.
    + constructor; [by eauto|].
      eapply Forall_impl; [exact Hadded|]. simpl.
      intros call (j & g & -> & Hg). exists j, g. split; [done|].
      intros [Hk Hks]%Forall_cons. etrans; [by apply Hg|]. by eapply Hk.
    + intros [Hk Hks]%Forall_cons. etrans; [by apply Hid|]. by eapply Hk.
    + simpl. by rewrite Hlen.
Qed.

Lemma applyOutputStructure_Ok steps index structure log structure' log' :
  applyOutputStructure steps index structure log
  = Js.Ok (structure', log') →
  ∃ added,
    log' = log ++ added
    ∧ Forall (λ call, ∃ j given, call = CallOutputStructure j given) added
    ∧ (Forall keepsModels steps →
       Output.models structure' = Output.models structure).
Proof.
  revert index structure log.
  induction steps as [|step steps IH]; intros index structure log; simpl.
  - intros [= <- <-]. exists []. by rewrite app_nil_r.
  - intros (given & Hstep & Hrest)%bind_Ok.
    apply IH in Hrest as (added & -> & Hadded & Hid).
    exists (CallOutputStructure index structure :: added).
    split_and!.
    + by rewrite <- app_assoc.
    + constructor; [by eauto|done].
    + intros [Hk Hks]%Forall_cons. rewrite (Hid Hks). by eapply Hk.
Qed.

End Reconcile.

Module Run.
Import Processed Processor Contract JsFacts Reconcile.

#[local] Arguments findModel : simpl never.

Section WithBuiltins.
Variable sha256 : string → string.
Variable stringify : Source.ModelInformation → string.
Variable localeCompare : string → string → Z.
Variable now : nat → string.

Local Abbreviation processor :=
  (Processor.processor sha256 stringify localeCompare now).
Local Abbreviation processModel :=
  (Processor.processModel sha256 stringify localeCompare now).
Local Abbreviation calculateModelHash :=
  (Processor.calculateModelHash sha256 stringify localeCompare).
Local Abbreviation isUnchanged :=
  (Contract.isUnchanged sha256 stringify localeCompare).

(** *** One turn of the loop over the source models *)

Lemma processModel_Ok existingModels existingModelIds steps st x st' :
  processModel existingModels existingModelIds steps st x = Js.Ok st' →
  ∃ added pushed,
    calls st' = calls st ++ added
    ∧ newModelsList st' = newModelsList st ++ pushed
    ∧ (enrichOnly steps →
       (∀ call, call ∈ added → callIds call ⊆ [Source.id x])
       ∧ (∀ r, r ∈ pushed → id r = Source.id x))
    ∧ (if isUnchanged existingModelIds (hashes st) x
       then hashes st' = hashes st
            ∧ Forall (λ call, ∃ j e, call = CallNoChange j x e) added
            ∧ (noChange steps = [] → pushed = [] ∧ added = [])
       else hashes st'
            = Js.setProperty (hashes st) (Source.id x)
                (calculateModelHash x)
            ∧ Forall (λ call, ∃ j ex nm,
                        call = CallNewAndChanged j x ex nm) added).
Proof.
  unfold Processor.processModel, Contract.isUnchanged.
  set (known := bool_decide (Source.id x ∈ existingModelIds)).
  set (same := Js.isString _ _).
  set (existingModel := if known then _ else _).
  assert (∀ e, existingModel = Some e → id e = Source.id x) as Hex.
  { subst existingModel. destruct known; [|done].
    by intros e [? _]%findModel_Some. }
  clearbody existingModel.
  destruct (known && same) eqn:Htest.
  - destruct (noChange steps) as [|step rest] eqn:Hsteps.
    { intros [= <-]. exists [], []. simpl. rewrite !app_nil_r.
      split_and!; try done. intros _. split; intros ? Hin;
        by apply elem_of_nil in Hin. }
    destruct existingModel as [e|]; [|done].
    intros ([e' log] & Hchain & [= <-])%bind_Ok. simpl.
    apply applyNoChange_Ok in Hchain as (added & -> & Hadded & Hid).
    exists added, [e']. split_and!; try done.
    + intros (_ & Hk & _). rewrite Hsteps in Hk. split.
      * intros call Hin.
        rewrite Forall_forall in Hadded.
        destruct (Hadded _ Hin) as (j & g & -> & Hg). simpl.
        rewrite (Hg Hk), (Hex e eq_refl). set_solver.
      * intros r ->%list_elem_of_singleton.
        by rewrite (Hid Hk), (Hex e eq_refl).
    + eapply Forall_impl; [exact Hadded|]. simpl.
      intros call (j & g & -> & _). eauto.
  - intros ([nm log] & Hchain & [= <-])%bind_Ok. simpl.
    apply applyNewAndChanged_Ok in Hchain as (added & -> & Hadded & Hid).
    exists added, [nm]. split_and!; try done.
    + intros (Hk & _). split.
      * intros call Hin.
        rewrite Forall_forall in Hadded.
        destruct (Hadded _ Hin) as (j & g & -> & Hg). simpl.
        rewrite (Hg Hk). simpl.
        destruct existingModel as [e|]; simpl;
          [rewrite (Hex e eq_refl)|]; set_solver.
      * intros r ->%list_elem_of_singleton. by rewrite (Hid Hk).
    + eapply Forall_impl; [exact Hadded|]. simpl.
      intros call (j & g & -> & _). eauto.
Qed.

(** *** The loop *)

(** Under the contract of the steps, the steps for one model are given
    records of the source models only, and so is the list of the new
    models. *)
Lemma calls_carry_source_ids existingModels existingModelIds steps sourceModels st0 st :
  enrichOnly steps →
  Js.forOf (processModel existingModels existingModelIds steps)
    sourceModels st0 = Js.Ok st →
  calls st0 = [] → newModelsList st0 = [] →
  (∀ call, call ∈ calls st → callIds call ⊆ Source.id <$> sourceModels)
  ∧ (id <$> newModelsList st ⊆ Source.id <$> sourceModels).
Proof.
  intros Hsteps Hloop Hc0 Hn0. revert Hloop.
  apply (forOf_invariant _
           (λ pre st,
              (∀ call, call ∈ calls st → callIds call ⊆ Source.id <$> pre)
              ∧ (id <$> newModelsList st ⊆ Source.id <$> pre))).
  { rewrite Hc0, Hn0. split; [|done]. intros ? Hin.
    by apply elem_of_nil in Hin. }
  intros pre x s s' _ [IHc IHn] Hstep.
  apply processModel_Ok in Hstep
    as (added & pushed & -> & -> & Hids & _).
  destruct (Hids Hsteps) as [Hadded Hpushed].
  rewrite !fmap_app. simpl. split.
  - intros call [Hin|Hin]%elem_of_app.
    + etrans; [by apply IHc|]. set_solver.
    + etrans; [by apply Hadded|]. set_solver.
  - intros i [Hin|Hin]%elem_of_app.
    + apply IHn in Hin. set_solver.
    + apply list_elem_of_fmap in Hin as (r & -> & Hr).
      rewrite (Hpushed _ Hr). set_solver.
Qed.

(** With distinct ids among the source models, each of them is tested
    against the hashes as they were stored before the run. *)
Lemma loop_classified existingModels existingModelIds steps sourceModels
  hashes0 st :
  NoDup (Source.id <$> sourceModels) →
  Js.forOf (processModel existingModels existingModelIds steps)
    sourceModels
    {| hashes := hashes0; newModelsList := []; calls := []; clock := 0 |}
  = Js.Ok st →
  (∀ x, x ∈ sourceModels → isUnchanged existingModelIds hashes0 x = true →
        hashes st !! Source.id x = hashes0 !! Source.id x)
  ∧ Forall (λ call,
              match call with
              | CallNewAndChanged _ s _ _ =>
                  isUnchanged existingModelIds hashes0 s = false
              | CallNoChange _ s _ =>
                  isUnchanged existingModelIds hashes0 s = true
              | _ => False
              end) (calls st)
  ∧ (noChange steps = [] → enrichOnly steps →
     ∀ r, r ∈ newModelsList st →
       ∃ s, s ∈ sourceModels ∧ id r = Source.id s
            ∧ isUnchanged existingModelIds hashes0 s = false).
Proof.
  intros Hnd Hloop.
  set (class call :=
         match call with
         | CallNewAndChanged _ s _ _ =>
             isUnchanged existingModelIds hashes0 s = false
         | CallNoChange _ s _ =>
             isUnchanged existingModelIds hashes0 s = true
         | _ => False
         end).
  pose (P := λ (pre : list Source.ModelInformation) (st : LoopState),
          (∀ i, i ∉ Source.id <$> pre → hashes st !! i = hashes0 !! i)
          ∧ (∀ x, x ∈ pre →
               isUnchanged existingModelIds hashes0 x = true →
               hashes st !! Source.id x = hashes0 !! Source.id x)
          ∧ Forall class (calls st)
          ∧ (noChange steps = [] → enrichOnly steps →
             ∀ r, r ∈ newModelsList st →
               ∃ s, s ∈ pre ∧ id r = Source.id s
                    ∧ isUnchanged existingModelIds hashes0 s = false)).
  cut (P sourceModels st).
  { intros (_ & H2 & H3 & H4). split_and!; try done. }
  revert Hloop. apply forOf_invariant.
  { split_and!.
    - done.
    - intros x Hin. by apply elem_of_nil in Hin.
    - constructor.
    - intros _ _ r Hin. by apply elem_of_nil in Hin. }
  intros pre x s s' Hpre (IHh & IHu & IHc & IHn) Hstep.
  assert (Source.id x ∉ Source.id <$> pre) as Hfresh.
  { destruct Hpre as [rest ->]. rewrite !fmap_app in Hnd.
    apply NoDup_app in Hnd as (Hnd & _).
    apply NoDup_app in Hnd as (_ & Hdisj & _).
    intros Hin. apply (Hdisj _ Hin). apply list_elem_of_here. }
  assert (isUnchanged existingModelIds (hashes s) x
          = isUnchanged existingModelIds hashes0 x) as Hsame.
  { unfold Contract.isUnchanged.
    by rewrite (getProperty_lookup _ _ _ (IHh _ Hfresh)). }
  apply processModel_Ok in Hstep
    as (added & pushed & Hcalls & Hpushed & Hids & Hcase).
  rewrite Hsame in Hcase.
  assert (∀ i, i ∈ Source.id <$> pre → i ≠ Source.id x) as Hother
    by (intros i Hin ->; done).
  destruct (isUnchanged existingModelIds hashes0 x) eqn:Hx.
  - destruct Hcase as (Hh & Hadded & Hnone).
    split_and!.
    + intros i Hi. rewrite Hh. apply IHh. rewrite fmap_app in Hi. set_solver.
    + intros x0 [Hin| ->%list_elem_of_singleton]%elem_of_app Hu;
        rewrite Hh; [by apply IHu|by apply IHh].
    + rewrite Hcalls. apply Forall_app. split; [done|].
      eapply Forall_impl; [exact Hadded|]. by intros call (j & e & ->).
    + intros Hno Hsteps r. destruct (Hnone Hno) as [-> _].
      rewrite Hpushed, app_nil_r. intros Hr.
      destruct (IHn Hno Hsteps r Hr) as (s0 & ? & ? & ?).
      exists s0. set_solver.
  - destruct Hcase as (Hh & Hadded).
    split_and!.
    + intros i Hi. rewrite Hh. rewrite fmap_app in Hi.
      rewrite lookup_setProperty_ne by set_solver. apply IHh. set_solver.
    + intros x0 [Hin| ->%list_elem_of_singleton]%elem_of_app Hu;
        [|congruence].
      rewrite Hh, lookup_setProperty_ne; [by apply IHu|].
      intros Heq. symmetry in Heq. revert Heq. apply Hother.
      by apply list_elem_of_fmap_2.
    + rewrite Hcalls. apply Forall_app. split; [done|].
      eapply Forall_impl; [exact Hadded|].
      by intros call (j & e & nm & ->).
    + intros Hno Hsteps r. rewrite Hpushed.
      intros [Hr|Hr]%elem_of_app.
      * destruct (IHn Hno Hsteps r Hr) as (s0 & ? & ? & ?).
        exists s0. set_solver.
      * exists x. split_and!; [set_solver| |done].
        by apply (proj2 (Hids Hsteps)).
Qed.

(** *** The run *)

Lemma processor_Ok sourceModels structure hashes0 steps out hashes' log :
  processor sourceModels structure hashes0 steps
  = Js.Ok (out, hashes', log) →
  ∃ st batched log1,
    Js.forOf
      (processModel (markedCatalog sourceModels structure)
         (id <$> Output.models structure) steps)
      sourceModels
      {| hashes := hashes0; newModelsList := []; calls := []; clock := 0 |}
    = Js.Ok st
    ∧ applyBatch (batch steps) 0 (newModelsList st) (calls st)
      = Js.Ok (batched, log1)
    ∧ applyOutputStructure (outputStructure steps) 0
        {| Output.models :=
             Js.sort (λ a b, localeCompare (id a) (id b))
               (foldl addBack batched
                  (markedCatalog sourceModels structure));
           Output.providers := Output.providers structure |} log1
      = Js.Ok (out, log)
    ∧ hashes' = hashes st.
Proof.
  unfold Processor.processor, markedCatalog.
  intros (st & Hloop & Hrest)%bind_Ok.
  apply bind_Ok in Hrest as ([batched log1] & Hbatch & Hrest).
  apply bind_Ok in Hrest as ([out' log'] & Hout & [= <- <- <-]).
  by exists st, batched, log1.
Qed.

Lemma NoDup_fmap_elem_inj {A B} (f : A → B) (l : list A) x y :
  NoDup (f <$> l) → x ∈ l → y ∈ l → f x = f y → x = y.
Proof.
  induction l as [|a l IH]; simpl.
  - intros _ Hin. by apply elem_of_nil in Hin.
  - intros [Ha Hnd]%NoDup_cons
      [->|Hx]%elem_of_cons [->|Hy]%elem_of_cons Heq; try done.
    + destruct Ha. rewrite Heq. by apply list_elem_of_fmap_2.
    + destruct Ha. rewrite <- Heq. by apply list_elem_of_fmap_2.
    + by apply IH.
Qed.

(** A record of the catalog whose id is not the id of a new model is in
    the output, and is the only record of the output under its id. *)
Lemma kept_record sourceModels structure hashes0 steps out hashes' log i r :
  enrichOnly steps →
  processor sourceModels structure hashes0 steps
  = Js.Ok (out, hashes', log) →
  (∀ st,
     Js.forOf
       (processModel (markedCatalog sourceModels structure)
          (id <$> Output.models structure) steps)
       sourceModels
       {| hashes := hashes0; newModelsList := []; calls := [];
          clock := 0 |}
     = Js.Ok st →
     i ∉ id <$> newModelsList st) →
  findModel i (markedCatalog sourceModels structure) = Some r →
  r ∈ Output.models out
  ∧ ∀ r', r' ∈ Output.models out → id r' = i → r' = r.
Proof.
  intros Hsteps (st & batched & log1 & Hloop & Hbatch & Hout & _)%processor_Ok
    Hnew Hfind.
  apply applyBatch_Ok in Hbatch as (_ & _ & _ & Hids & _).
  apply applyOutputStructure_Ok in Hout as (_ & _ & _ & Hmodels).
  rewrite (Hmodels (proj2 (proj2 (proj2 Hsteps)))). simpl.
  assert (i ∉ id <$> batched) as Hi.
  { intros Hin. apply (Hnew _ Hloop).
    by apply (Hids (proj1 (proj2 (proj2 Hsteps)))). }
  split.
  - apply elem_of_sort. by eapply addBack_fold_adds.
  - intros r' Hr'%elem_of_sort Hid.
    apply addBack_fold_inv in Hr' as [Hin|[Hfind' _]].
    + destruct Hi. rewrite <- Hid. by apply list_elem_of_fmap_2.
    + rewrite Hid in Hfind'. congruence.
Qed.

Lemma isUnchanged_stored existingModelIds hashes0 m :
  Source.id m ∈ existingModelIds →
  hashes0 !! Source.id m = Some (calculateModelHash m) →
  isUnchanged existingModelIds hashes0 m = true.
Proof.
  intros Hin Hhash. unfold Contract.isUnchanged.
  rewrite (getProperty_own _ _ _ Hhash). simpl.
  rewrite bool_decide_eq_true_2 by done. apply String.eqb_refl.
Qed.

Lemma unchanged_not_new sourceModels existingModels existingModelIds steps
  hashes0 st m :
  NoDup (Source.id <$> sourceModels) →
  m ∈ sourceModels →
  isUnchanged existingModelIds hashes0 m = true →
  noChange steps = [] → enrichOnly steps →
  Js.forOf (processModel existingModels existingModelIds steps)
    sourceModels
    {| hashes := hashes0; newModelsList := []; calls := []; clock := 0 |}
  = Js.Ok st →
  Source.id m ∉ id <$> newModelsList st.
Proof.
  intros Hnd Hm Hu Hno Hsteps Hloop.
  apply loop_classified in Hloop as (_ & _ & Hnew); [|done].
  intros (r & Hid & Hr)%list_elem_of_fmap.
  destruct (Hnew Hno Hsteps r Hr) as (s & Hs & Hrs & Hchanged).
  assert (s = m) as -> by (eapply NoDup_fmap_elem_inj; eauto; congruence).
  congruence.
Qed.

Lemma marked_present sourceModels structure m :
  m ∈ sourceModels →
  findModel (Source.id m) (markedCatalog sourceModels structure)
  = findModel (Source.id m) (Output.models structure).
Proof.
  intros Hm. unfold markedCatalog. rewrite findModel_marked.
  rewrite decide_False; [done|].
  intros [Hn _]%list_elem_of_filter. apply Hn.
  by apply list_elem_of_fmap_2.
Qed.

Lemma marked_missing sourceModels structure x r :
  x ∉ Source.id <$> sourceModels →
  findModel x (Output.models structure) = Some r →
  findModel x (markedCatalog sourceModels structure)
  = Some (setDeprecated (Some true) r).
Proof.
  intros Hx Hfind. unfold markedCatalog. rewrite findModel_marked, Hfind.
  rewrite decide_True; [done|].
  apply list_elem_of_filter. split; [done|].
  apply findModel_Some in Hfind as [<- Hr]. by apply list_elem_of_fmap_2.
Qed.

(** C1.  For every source model [m] (of a list with distinct ids) whose
    id is in the catalog and whose hash is the hash stored for its id, a
    run of the processor calls no step of [newAndChanged] for [m] and
    leaves the stored hash as it is; and when no step of [noChange] is
    configured (and the steps keep to their contract), the record of the
    catalog under that id is in the output as it was. *)
Theorem unchanged_model_is_not_processed
  (sourceModels : list Source.ModelInformation)
  (structure out : Output.OutputStructure)
  (hashes0 hashes' : gmap string string) (steps : Steps)
  (log : list Call) (m : Source.ModelInformation) :
  NoDup (Source.id <$> sourceModels) →
  m ∈ sourceModels →
  Source.id m ∈ id <$> Output.models structure →
  hashes0 !! Source.id m = Some (calculateModelHash m) →
  processor sourceModels structure hashes0 steps
  = Js.Ok (out, hashes', log) →
  (∀ j existingModel newModel,
     CallNewAndChanged j m existingModel newModel ∉ log)
  ∧ hashes' !! Source.id m = hashes0 !! Source.id m
  ∧ (noChange steps = [] → enrichOnly steps →
     ∃ r, findModel (Source.id m) (Output.models structure) = Some r
          ∧ r ∈ Output.models out).
Proof.
  intros Hnd Hm Hknown Hhash Hrun.
  pose proof (isUnchanged_stored _ _ _ Hknown Hhash) as Hu.
  pose proof Hrun as (st & batched & log1 & Hloop & Hbatch & Hout & ->)%processor_Ok.
  pose proof Hloop as (Hhashes & Hcalls & _)%loop_classified; [|done].
  split_and!.
  - intros j ex nm Hin.
    apply applyBatch_Ok in Hbatch as (added1 & -> & Hadded1 & _).
    apply applyOutputStructure_Ok in Hout as (added2 & -> & Hadded2 & _).
    rewrite Forall_forall in Hcalls, Hadded1, Hadded2.
    apply elem_of_app in Hin as [[Hin|Hin]%elem_of_app|Hin].
    + apply Hcalls in Hin. simpl in Hin. congruence.
    + by destruct (Hadded1 _ Hin) as (? & ? & ? & _).
    + by destruct (Hadded2 _ Hin) as (? & ? & ?).
  - by apply Hhashes.
  - intros Hno Hsteps.
    destruct (findModel_known _ _ Hknown) as [r Hr]. exists r.
    split; [done|].
    eapply (kept_record _ _ _ _ _ _ _ (Source.id m)); [done|exact Hrun| |].
    + intros st' Hst'. by eapply unchanged_not_new.
    + by rewrite marked_present.
Qed.

(** C2.  For every id [x] of the catalog that no source model has, the
    output of a run (with steps that keep to their contract) has a record
    under [x]; every record of the output under [x] has
    [deprecated = true] and every other field as the record [r] of the
    catalog under [x] has it; and no step for one model and no batch step
    is given a record under that id. *)
Theorem missing_model_is_deprecated
  (sourceModels : list Source.ModelInformation)
  (structure out : Output.OutputStructure)
  (hashes0 hashes' : gmap string string) (steps : Steps)
  (log : list Call) (x : string) (r : ProcessedModelInformation) :
  x ∉ Source.id <$> sourceModels →
  findModel x (Output.models structure) = Some r →
  enrichOnly steps →
  processor sourceModels structure hashes0 steps
  = Js.Ok (out, hashes', log) →
  (∃ r', r' ∈ Output.models out ∧ id r' = x)
  ∧ (∀ r', r' ∈ Output.models out → id r' = x →
       deprecated r' = Some true ∧ otherFieldsKept r' r)
  ∧ ∀ call, call ∈ log → x ∉ callIds call.
Proof.
  intros Hx Hfind Hsteps Hrun.
  pose proof Hrun as (st & batched & log1 & Hloop & Hbatch & Hout & ->)%processor_Ok.
  pose proof Hloop as (Hcalls & Hnew)%calls_carry_source_ids; [|done..].
  destruct (kept_record _ _ _ _ _ _ _ x (setDeprecated (Some true) r)
              Hsteps Hrun) as [Hkept Honly].
  { intros st' Hst'.
    apply calls_carry_source_ids in Hst' as (_ & Hnew'); [|done..].
    intros Hin. by apply Hx, Hnew'. }
  { by apply marked_missing. }
  split_and!.
  - exists (setDeprecated (Some true) r). split; [done|].
    by apply findModel_Some in Hfind as [? _].
  - intros r' Hr' Hid. rewrite (Honly r' Hr' Hid).
    split; [done|]. by repeat split.
  - intros call Hin Hcall.
    apply applyBatch_Ok in Hbatch as (added1 & -> & Hadded1 & _).
    apply applyOutputStructure_Ok in Hout as (added2 & -> & Hadded2 & _).
    rewrite Forall_forall in Hadded1, Hadded2.
    apply elem_of_app in Hin as [[Hin|Hin]%elem_of_app|Hin].
    + by apply Hx, (Hcalls _ Hin).
    + destruct (Hadded1 _ Hin) as (j & given & -> & Hgiven).
      simpl in Hcall. apply Hx, Hnew.
      by apply (Hgiven (proj1 (proj2 (proj2 Hsteps)))).
    + destruct (Hadded2 _ Hin) as (j & given & ->).
      simpl in Hcall. by apply elem_of_nil in Hcall.
Qed.

(** C10.  When the record of the catalog under the id of a source model
    [m] has [deprecated = true], the hash of [m] is the stored hash, and
    no step of [noChange] is configured, then the output of the run (with
    distinct ids among the source models and steps that keep to their
    contract) has a record under that id, and every record of the output
    under that id has [deprecated = true]: the processor does not take the
    mark back. *)
Theorem deprecated_stays_deprecated
  (sourceModels : list Source.ModelInformation)
  (structure out : Output.OutputStructure)
  (hashes0 hashes' : gmap string string) (steps : Steps)
  (log : list Call) (m : Source.ModelInformation)
  (r : ProcessedModelInformation) :
  NoDup (Source.id <$> sourceModels) →
  m ∈ sourceModels →
  findModel (Source.id m) (Output.models structure) = Some r →
  deprecated r = Some true →
  hashes0 !! Source.id m = Some (calculateModelHash m) →
  noChange steps = [] →
  enrichOnly steps →
  processor sourceModels structure hashes0 steps
  = Js.Ok (out, hashes', log) →
  (∃ r', r' ∈ Output.models out ∧ id r' = Source.id m)
  ∧ ∀ r', r' ∈ Output.models out → id r' = Source.id m →
          deprecated r' = Some true.
Proof.
  intros Hnd Hm Hfind Hdep Hhash Hno Hsteps Hrun.
  pose proof (findModel_Some _ _ _ Hfind) as [Hid Hr].
  assert (Source.id m ∈ id <$> Output.models structure) as Hknown.
  { rewrite <- Hid. by apply list_elem_of_fmap_2. }
  pose proof (isUnchanged_stored _ _ _ Hknown Hhash) as Hu.
  destruct (kept_record _ _ _ _ _ _ _ (Source.id m) r Hsteps Hrun)
    as [Hin Honly].
  - intros st' Hst'. by eapply unchanged_not_new.
  - by rewrite marked_present.
  - split; [by exists r|].
    intros r' Hr' Hid'. by rewrite (Honly r' Hr' Hid').
Qed.

(** With no step of [noChange], the records that the batch steps are
    given are records of source models that are new or have changed, and
    every batch step is called once. *)
Lemma batch_steps_without_noChange
  (sourceModels : list Source.ModelInformation)
  (structure out : Output.OutputStructure)
  (hashes0 hashes' : gmap string string) (steps : Steps)
  (log : list Call) :
  NoDup (Source.id <$> sourceModels) →
  noChange steps = [] →
  enrichOnly steps →
  processor sourceModels structure hashes0 steps
  = Js.Ok (out, hashes', log) →
  (∀ j given r, CallBatch j given ∈ log → r ∈ given →
     ∃ s, s ∈ sourceModels ∧ id r = Source.id s
          ∧ isUnchanged (id <$> Output.models structure) hashes0 s = false)
  ∧ length (filter (λ call, isCallBatch call = true) log)
    = length (batch steps).
Proof.
  intros Hnd Hno Hsteps
    (st & batched & log1 & Hloop & Hbatch & Hout & _)%processor_Ok.
  apply loop_classified in Hloop as (_ & Hcalls & Hnew); [|done].
  apply applyBatch_Ok in Hbatch as (added1 & -> & Hadded1 & _ & Hlen).
  apply applyOutputStructure_Ok in Hout as (added2 & -> & Hadded2 & _).
  split.
  - intros j given r Hin Hr.
    rewrite Forall_forall in Hcalls, Hadded1, Hadded2.
    apply elem_of_app in Hin as [[Hin|Hin]%elem_of_app|Hin].
    + by apply Hcalls in Hin.
    + destruct (Hadded1 _ Hin) as (j' & given' & [= <- <-] & Hgiven).
      assert (id r ∈ id <$> newModelsList st) as Hid.
      { apply (Hgiven (proj1 (proj2 (proj2 Hsteps)))).
        by apply list_elem_of_fmap_2. }
      apply list_elem_of_fmap in Hid as (r0 & -> & Hr0).
      by apply Hnew.
    + by destruct (Hadded2 _ Hin) as (? & ? & ?).
  - rewrite !filter_app, !length_app.
    assert (filter (λ call, isCallBatch call = true) (calls st) = []) as ->.
    { apply filter_none. eapply Forall_impl; [exact Hcalls|].
      by intros []. }
    assert (filter (λ call, isCallBatch call = true) added2 = []) as ->.
    { apply filter_none. eapply Forall_impl; [exact Hadded2|].
      by intros call (? & ? & ->). }
    assert (filter (λ call, isCallBatch call = true) added1 = added1) as ->.
    { apply filter_all. eapply Forall_impl; [exact Hadded1|].
      by intros call (? & ? & -> & _). }
    simpl. lia.
Qed.

End WithBuiltins.
End Run.

(** ** A run of the processor on the sample catalog *)

Module RunExamples.
Import Processed Processor Contract.

Example run_output :
  Sample.processor Sample.sources Sample.catalog Sample.storedHashes
    Sample.steps = Js.Ok Sample.run
  ∧ (id <$> Output.models Sample.run.1.1) = ["m"; "n"; "z"]
  ∧ (deprecated <$> Output.models Sample.run.1.1)
    = [Some true; None; Some true]
  ∧ (modelContextLength <$> Output.models Sample.run.1.1)
    = [Some 8192%Z; Some 4096%Z; Some 8192%Z]
  ∧ dom Sample.run.1.2 = {[ "m"; "n" ]}.
Proof. vm_compute. done. Qed.

Lemma sources_NoDup : NoDup (Source.id <$> Sample.sources).
Proof. compute_done. Defined.

Lemma steps_enrichOnly : enrichOnly Sample.steps.
Proof.
  unfold enrichOnly, Sample.steps; simpl. split_and!.
  - apply Forall_cons. split; [|apply Forall_nil_2].
    by intros sourceModel existingModel newModel newModel' [= <-].
  - apply Forall_nil_2.
  - apply Forall_cons. split; [|apply Forall_nil_2].
    by intros models models' [= <-].
  - apply Forall_cons. split; [|apply Forall_nil_2].
    by intros structure structure' [= <-].
Defined.

Lemma unchanged_model_witness :
  (∀ j existingModel newModel,
     CallNewAndChanged j Sample.paid existingModel newModel ∉ Sample.run.2)
  ∧ Sample.run.1.2 !! Source.id Sample.paid
    = Sample.storedHashes !! Source.id Sample.paid
  ∧ ∃ r, findModel (Source.id Sample.paid) (Output.models Sample.catalog)
         = Some r
         ∧ r ∈ Output.models Sample.run.1.1.
Proof.
  assert (NoDup (Source.id <$> Sample.sources)) as Hnd
    by exact sources_NoDup.
  assert (Sample.paid ∈ Sample.sources) as Hin
    by apply list_elem_of_here.
  assert (Source.id Sample.paid ∈ id <$> Output.models Sample.catalog)
    as Hknown by apply list_elem_of_here.
  assert (Sample.storedHashes !! Source.id Sample.paid
          = Some (Sample.calculateModelHash Sample.paid)) as Hhash
    by (vm_compute; reflexivity).
  assert (Sample.processor Sample.sources Sample.catalog Sample.storedHashes
            Sample.steps
          = Js.Ok (Sample.run.1.1, Sample.run.1.2, Sample.run.2)) as Hrun
    by (vm_compute; reflexivity).
  destruct (Run.unchanged_model_is_not_processed Builtins.plainDigest
              Builtins.plainStringify Js.byCodeUnits Builtins.clockReading
              Sample.sources Sample.catalog Sample.run.1.1
              Sample.storedHashes Sample.run.1.2 Sample.steps Sample.run.2
              Sample.paid Hnd Hin Hknown Hhash Hrun)
    as (Hcalls & Hstored & Hrecord).
  split_and!; [exact Hcalls|exact Hstored|].
  exact (Hrecord eq_refl steps_enrichOnly).
Defined.

Lemma missing_model_witness :
  (∃ r', r' ∈ Output.models Sample.run.1.1 ∧ id r' = "z")
  ∧ (∀ r', r' ∈ Output.models Sample.run.1.1 → id r' = "z" →
       deprecated r' = Some true
       ∧ otherFieldsKept r' (Sample.record "z" None))
  ∧ ∀ call, call ∈ Sample.run.2 → "z" ∉ callIds call.
Proof.
  apply (Run.missing_model_is_deprecated Builtins.plainDigest
           Builtins.plainStringify Js.byCodeUnits Builtins.clockReading
           Sample.sources Sample.catalog Sample.run.1.1
           Sample.storedHashes Sample.run.1.2 Sample.steps Sample.run.2
           "z" (Sample.record "z" None)).
  - compute_done.
  - reflexivity.
  - exact steps_enrichOnly.
  - vm_compute. reflexivity.
Defined.

Lemma deprecated_stays_witness :
  (∃ r', r' ∈ Output.models Sample.run.1.1 ∧ id r' = Source.id Sample.paid)
  ∧ ∀ r', r' ∈ Output.models Sample.run.1.1 →
          id r' = Source.id Sample.paid → deprecated r' = Some true.
Proof.
  apply (Run.deprecated_stays_deprecated Builtins.plainDigest
           Builtins.plainStringify Js.byCodeUnits Builtins.clockReading
           Sample.sources Sample.catalog Sample.run.1.1
           Sample.storedHashes Sample.run.1.2 Sample.steps Sample.run.2
           Sample.paid (Sample.record "m" (Some true))).
  - exact sources_NoDup.
  - apply list_elem_of_here.
  - reflexivity.
  - reflexivity.
  - vm_compute. reflexivity.
  - reflexivity.
  - exact steps_enrichOnly.
  - vm_compute. reflexivity.
Defined.

(** C5 fails on the code when a step of [noChange] is configured: the
    source model [m] has the stored hash and is not changed, the step of
    [noChange] is called for it, and its record is then in the list that the
    batch step is given. *)
Theorem batch_step_is_given_the_record_of_an_unchanged_model :
  Sample.processor Sample.sources Sample.catalog Sample.storedHashes
    Sample.stepsWithNoChange = Js.Ok Sample.runWithNoChange
  ∧ isUnchanged Builtins.plainDigest Builtins.plainStringify Js.byCodeUnits
      (id <$> Output.models Sample.catalog) Sample.storedHashes Sample.paid
    = true
  ∧ CallNoChange 0 Sample.paid (Sample.record "m" (Some true))
      ∈ Sample.runWithNoChange.2
  ∧ ∃ newModel,
      CallBatch 0 [Sample.record "m" (Some true); newModel]
        ∈ Sample.runWithNoChange.2.
Proof.
  split_and!.
  - vm_compute. reflexivity.
  - vm_compute. reflexivity.
  - apply list_elem_of_here.
  - eexists. do 2 apply list_elem_of_further. apply list_elem_of_here.
Qed.

Example batch_steps_of_the_sample :
  length (filter (λ call, isCallBatch call = true) Sample.run.2) = 1
  ∧ ∃ newModel,
      CallBatch 0 [newModel] ∈ Sample.run.2
      ∧ id newModel = "n"
      ∧ lastImportedAt newModel = Some (Builtins.clockReading 1).
Proof.
  split; [reflexivity|]. eexists.
  split; [apply list_elem_of_further, list_elem_of_here|].
  split; reflexivity.
Qed.

End RunExamples.

(** ** Further properties of [deduplicateProviders] *)

Module OfferingFacts.
Import Source Dedup Known Offerings JsFacts OfferingMerge.

Section WithBuiltins.
Variable parseFloat : string → Js.JsNumber.

Local Abbreviation deduplicateProviders :=
  (Dedup.deduplicateProviders parseFloat).
Local Abbreviation mergeOrPush := (Dedup.mergeOrPush parseFloat).
Local Abbreviation mergeProvider := (Dedup.mergeProvider parseFloat).

(** *** Offerings of different providers *)

Lemma apart_snoc offerings provider :
  apart (offerings ++ [provider])
  = apart offerings
    && forallb (λ p, negb (sameProvider p provider)) offerings.
Proof.
  induction offerings as [|p rest IH]; [done|].
  cbn [apart forallb app]. rewrite forallb_app, IH. cbn [forallb].
  generalize (forallb (λ q, negb (sameProvider p q)) rest)
    (forallb (λ q, negb (sameProvider q provider)) rest)
    (negb (sameProvider p provider)) (apart rest).
  by intros [] [] [] [].
Qed.

Lemma mergeOrPush_apart deduplicated provider :
  forallb (λ p, negb (sameProvider p provider)) deduplicated = true →
  mergeOrPush deduplicated provider = deduplicated ++ [provider].
Proof.
  induction deduplicated as [|p rest IH]; [done|].
  cbn [forallb Dedup.mergeOrPush app].
  destruct (sameProvider p provider); [done|].
  intros H. by rewrite IH.
Qed.

Lemma mergeOrPush_length deduplicated provider :
  length (mergeOrPush deduplicated provider)
  = if forallb (λ p, negb (sameProvider p provider)) deduplicated
    then S (length deduplicated) else length deduplicated.
Proof.
  induction deduplicated as [|p rest IH]; [done|].
  cbn [forallb Dedup.mergeOrPush].
  destruct (sameProvider p provider); [done|].
  cbn [negb andb length]. rewrite IH. by case_match.
Qed.

Lemma deduplicateProviders_length offerings :
  (length (deduplicateProviders offerings) ≤ length offerings)%nat
  ∧ (length (deduplicateProviders offerings) = length offerings →
     deduplicateProviders offerings = offerings
     ∧ apart offerings = true).
Proof.
  induction offerings as [|provider offerings [IHle IHeq]] using rev_ind;
    [done|].
  rewrite deduplicateProviders_snoc, mergeOrPush_length, length_app.
  cbn [length].
  destruct (forallb _ (deduplicateProviders offerings)) eqn:Hall.
  - split; [lia|]. intros Hlen.
    destruct IHeq as [Heq Hapart]; [lia|].
    rewrite mergeOrPush_apart by done. rewrite Heq in Hall |- *.
    split; [done|]. rewrite apart_snoc, Hapart, Hall. done.
  - split; [lia|]. intros Hlen. lia.
Qed.

(** X1.  [deduplicateProviders] gives back the list of offerings it was
    given exactly when no offering of the list is the same provider (in
    the same currency) as an earlier one; in every case the result is not
    longer than the input. *)
Theorem offerings_are_kept_iff_apart
  (offerings : list ModelInformationOfProvider) :
  (deduplicateProviders offerings = offerings ↔ apart offerings = true)
  ∧ (length (deduplicateProviders offerings) ≤ length offerings)%nat.
Proof.
  split; [|apply deduplicateProviders_length]. split.
  - intros Heq. apply deduplicateProviders_length. by rewrite Heq.
  - induction offerings as [|provider offerings IH] using rev_ind;
      [done|].
    rewrite apart_snoc, andb_true_iff. intros [Hapart Hall].
    rewrite deduplicateProviders_snoc, IH by done.
    by apply mergeOrPush_apart.
Qed.

(** *** Currencies *)

Lemma mergeProvider_currency existing provider :
  sameProvider existing provider = true →
  currencyOf (mergeProvider existing provider) = currencyOf existing.
Proof.
  unfold sameProvider, currencyOf. rewrite andb_true_iff.
  intros [Hcur%bool_decide_eq_true _]. revert Hcur. cbn [price Dedup.mergeProvider].
  by destruct (price existing), (price provider).
Qed.

Lemma filter_mergeOrPush c deduplicated provider :
  filter (λ o, currencyOf o = c) (mergeOrPush deduplicated provider)
  = if decide (currencyOf provider = c)
    then mergeOrPush (filter (λ o, currencyOf o = c) deduplicated) provider
    else filter (λ o, currencyOf o = c) deduplicated.
Proof.
  induction deduplicated as [|p rest IH].
  - cbn [Dedup.mergeOrPush]. rewrite filter_cons, filter_nil.
    by case_decide.
  - cbn [Dedup.mergeOrPush].
    destruct (sameProvider p provider) eqn:Hsame.
    + pose proof (mergeProvider_currency _ _ Hsame) as Hmerged.
      assert (currencyOf p = currencyOf provider) as Hcur.
      { unfold sameProvider in Hsame. apply andb_true_iff in Hsame.
        by destruct Hsame as [?%bool_decide_eq_true _]. }
      rewrite !filter_cons, Hmerged, Hcur.
      destruct (decide (currencyOf provider = c)); [|done].
      cbn [Dedup.mergeOrPush]. by rewrite Hsame.
    + rewrite !filter_cons, IH.
      destruct (decide (currencyOf p = c)),
        (decide (currencyOf provider = c)); try done.
      cbn [Dedup.mergeOrPush]. by rewrite Hsame.
Qed.

(** X2.  Offerings are merged currency by currency: the offerings of the
    result that are priced in a given currency (or that have no price)
    are what [deduplicateProviders] makes of the offerings of the input in
    that currency alone. *)
Theorem offerings_are_merged_currency_by_currency
  (c : option string) (offerings : list ModelInformationOfProvider) :
  filter (λ o, currencyOf o = c) (deduplicateProviders offerings)
  = deduplicateProviders (filter (λ o, currencyOf o = c) offerings).
Proof.
  induction offerings as [|provider offerings IH] using rev_ind; [done|].
  rewrite deduplicateProviders_snoc, filter_mergeOrPush, filter_app, IH.
  rewrite filter_cons, filter_nil.
  destruct (decide (currencyOf provider = c)).
  - by rewrite deduplicateProviders_snoc.
  - by rewrite app_nil_r.
Qed.

(** *** Every offering is accounted for *)

Lemma lt_before a b c :
  Js.lt a b = true → Js.lt a c = false → Js.lt b c = false.
Proof.
  destruct a as [| |x|], b as [| |y|], c as [| |z|]; simpl; try done.
  rewrite bool_decide_eq_true, !bool_decide_eq_false.
  intros Hxy Hxz Hyz. apply Hxz. by apply Qclt_trans with y.
Qed.

Lemma notAbove_refl limit : notAbove limit limit.
Proof. intros n ->. by exists n. Qed.

Lemma notAbove_mergeLimit_l existing provider given :
  notAbove existing given → notAbove (mergeLimit existing provider) given.
Proof.
  intros H n [k [-> Hk]]%H. rewrite mergeLimit_min.
  destruct provider as [p|]; simpl; [|by exists k].
  exists (Z.min k p). split; [done|lia].
Qed.

Lemma notAbove_mergeLimit_r existing provider :
  notAbove (mergeLimit existing provider) provider.
Proof.
  intros n ->. rewrite mergeLimit_min.
  destruct existing as [e|]; simpl; [|by exists n].
  exists (Z.min e n). split; [done|lia].
Qed.

Lemma notBelow_refl value : notBelow parseFloat value value.
Proof. intros s ->. exists s. split; [done|]. apply lt_irrefl. Qed.

Lemma notBelow_mergePriceValue_l existing provider given :
  notBelow parseFloat existing given →
  notBelow parseFloat (mergePriceValue parseFloat existing provider) given.
Proof.
  intros H s [t [-> Ht]]%H.
  destruct provider as [p|]; simpl; [|by exists t].
  destruct (Js.gt (parseFloat p) (parseFloat t)) eqn:Hgt; [|by exists t].
  exists p. split; [done|]. unfold Js.gt in *. by eapply lt_before.
Qed.

Lemma notBelow_mergePriceValue_r existing provider :
  notBelow parseFloat (mergePriceValue parseFloat existing provider)
    provider.
Proof.
  intros s ->. destruct existing as [e|]; simpl.
  - destruct (Js.gt (parseFloat s) (parseFloat e)) eqn:Hgt.
    + exists s. split; [done|]. apply lt_irrefl.
    + by exists e.
  - exists s. split; [done|]. apply lt_irrefl.
Qed.

Lemma covers_refl o : covers parseFloat o o.
Proof.
  split_and!; [done|apply notAbove_refl..|apply notBelow_refl
              |apply notBelow_refl].
Qed.

Lemma covers_mergeProvider_l existing provider given :
  sameProvider existing provider = true →
  covers parseFloat existing given →
  covers parseFloat (mergeProvider existing provider) given.
Proof.
  intros Hsame (Hcur & Hc & Hi & Ho & Hpi & Hpo).
  split_and!.
  - by rewrite mergeProvider_currency.
  - by apply notAbove_mergeLimit_l.
  - by apply notAbove_mergeLimit_l.
  - by apply notAbove_mergeLimit_l.
  - unfold knownPriceInput at 1. cbn [price Dedup.mergeProvider].
    rewrite mergePrice_input. by apply notBelow_mergePriceValue_l.
  - unfold knownPriceOutput at 1. cbn [price Dedup.mergeProvider].
    rewrite mergePrice_output. by apply notBelow_mergePriceValue_l.
Qed.

Lemma covers_mergeProvider_r existing provider :
  sameProvider existing provider = true →
  covers parseFloat (mergeProvider existing provider) provider.
Proof.
  intros Hsame. split_and!.
  - rewrite mergeProvider_currency by done.
    unfold sameProvider in Hsame. apply andb_true_iff in Hsame.
    by destruct Hsame as [?%bool_decide_eq_true _].
  - apply notAbove_mergeLimit_r.
  - apply notAbove_mergeLimit_r.
  - apply notAbove_mergeLimit_r.
  - unfold knownPriceInput at 1. cbn [price Dedup.mergeProvider].
    rewrite mergePrice_input. apply notBelow_mergePriceValue_r.
  - unfold knownPriceOutput at 1. cbn [price Dedup.mergeProvider].
    rewrite mergePrice_output. apply notBelow_mergePriceValue_r.
Qed.

Lemma mergeOrPush_covers deduplicated provider :
  (∀ given, (∃ r, r ∈ deduplicated ∧ covers parseFloat r given) →
            ∃ r, r ∈ mergeOrPush deduplicated provider
                 ∧ covers parseFloat r given)
  ∧ ∃ r, r ∈ mergeOrPush deduplicated provider
         ∧ covers parseFloat r provider.
Proof.
  induction deduplicated as [|p rest [IHold IHnew]].
  - split; [by intros given (r & ?%elem_of_nil & _)|].
    exists provider. split; [apply list_elem_of_here|apply covers_refl].
  - cbn [Dedup.mergeOrPush].
    destruct (sameProvider p provider) eqn:Hsame.
    + split.
      * intros given (r & [->|Hin]%elem_of_cons & Hr).
        -- eexists. split; [apply list_elem_of_here|].
           by apply covers_mergeProvider_l.
        -- exists r. split; [by apply list_elem_of_further|done].
      * eexists. split; [apply list_elem_of_here|].
        by apply covers_mergeProvider_r.
    + split.
      * intros given (r & [->|Hin]%elem_of_cons & Hr).
        -- exists p. split; [apply list_elem_of_here|done].
        -- destruct (IHold given) as (r' & Hin' & Hr'); [by exists r|].
           exists r'. split; [by apply list_elem_of_further|done].
      * destruct IHnew as (r & Hin & Hr).
        exists r. split; [by apply list_elem_of_further|done].
Qed.

(** X3.  No offering is lost: every offering of the input has an offering
    in the result of [deduplicateProviders] that is priced in the same
    currency, on which every limit known on the input offering is known
    and not higher, and every price known on the input offering is known
    and not lower. *)
Theorem every_offering_is_covered
  (offerings : list ModelInformationOfProvider)
  (given : ModelInformationOfProvider) :
  given ∈ offerings →
  ∃ r, r ∈ deduplicateProviders offerings ∧ covers parseFloat r given.
Proof.
  induction offerings as [|provider offerings IH] using rev_ind;
    [by intros ?%elem_of_nil|].
  rewrite deduplicateProviders_snoc.
  destruct (mergeOrPush_covers (deduplicateProviders offerings) provider)
    as [Hold Hnew].
  intros [Hin|Heq%list_elem_of_singleton]%elem_of_app; [|by subst].
  apply Hold. by apply IH.
Qed.

End WithBuiltins.
End OfferingFacts.

(** ** [deduplicateProviders] on the sample offerings *)

Module OfferingFactsExamples.
Import Source Dedup Known Offerings.

Example offerings_of_three_providers :
  deduplicateProviders Builtins.decimalParseFloat
    [Sample.acmeOne; MoreSamples.betaOne; MoreSamples.acmeEuro]
  = [Sample.acmeOne; MoreSamples.betaOne; MoreSamples.acmeEuro]
  ∧ apart [Sample.acmeOne; MoreSamples.betaOne; MoreSamples.acmeEuro] = true
  ∧ apart [Sample.acmeOne; MoreSamples.betaOne; Sample.acmeTwo] = false.
Proof. vm_compute. done. Qed.

Lemma every_offering_is_covered_witness :
  ∃ r, r ∈ deduplicateProviders Builtins.decimalParseFloat
             [Sample.acmeOne; MoreSamples.betaOne; Sample.acmeTwo]
       ∧ covers Builtins.decimalParseFloat r Sample.acmeTwo.
Proof.
  apply (OfferingFacts.every_offering_is_covered Builtins.decimalParseFloat
           [Sample.acmeOne; MoreSamples.betaOne; Sample.acmeTwo]
           Sample.acmeTwo).
  apply list_elem_of_further, list_elem_of_further, list_elem_of_here.
Defined.
End OfferingFactsExamples.

(** ** Further properties of [deduplicateModels] *)

Module ModelFacts.
Import Source Dedup Known Canonical Classes JsFacts ModelMerge.

(** *** What a merge leaves of the other properties of the canonical model *)

Lemma mergeAliases_rest e m :
  let merged := mergeAliases e m in
  name merged = name e ∧ description merged = description e
  ∧ input merged = input e ∧ output merged = output e
  ∧ parameters merged = parameters e
  ∧ defaultParameters merged = defaultParameters e
  ∧ knowledge merged = knowledge e.
Proof. done. Qed.

Lemma mergeDescription_rest e m :
  let merged := mergeDescription e m in
  name merged = name e
  ∧ description merged
    = (if String.eqb (description e) ""
          && negb (String.eqb (description m) "")
       then description m else description e)
  ∧ input merged = input e ∧ output merged = output e
  ∧ parameters merged = parameters e
  ∧ defaultParameters merged = defaultParameters e
  ∧ knowledge merged = knowledge e.
Proof. unfold mergeDescription. by case_match. Qed.

Lemma mergeInput_rest e m :
  let merged := mergeInput e m in
  name merged = name e ∧ description merged = description e
  ∧ input merged
    = (if setsDiffer (input e) (input m)
       then Js.arrayFromSet (input e ++ input m) else input e)
  ∧ output merged = output e
  ∧ parameters merged = parameters e
  ∧ defaultParameters merged = defaultParameters e
  ∧ knowledge merged = knowledge e.
Proof. unfold mergeInput. by case_match. Qed.

Lemma mergeOutput_rest e m :
  let merged := mergeOutput e m in
  name merged = name e ∧ description merged = description e
  ∧ input merged = input e
  ∧ output merged
    = (if setsDiffer (output e) (output m)
       then Js.arrayFromSet (output e ++ output m) else output e)
  ∧ parameters merged = parameters e
  ∧ defaultParameters merged = defaultParameters e
  ∧ knowledge merged = knowledge e.
Proof. unfold mergeOutput. by case_match. Qed.

Lemma mergeParameters_rest e m merged :
  mergeParameters e m = Js.Ok merged →
  name merged = name e ∧ description merged = description e
  ∧ input merged = input e ∧ output merged = output e
  ∧ default [] (parameters merged)
    = (if setsDiffer (default [] (parameters e)) (default [] (parameters m))
       then Js.arrayFromSet
              (default [] (parameters e) ++ default [] (parameters m))
       else default [] (parameters e))
  ∧ defaultParameters merged = defaultParameters e
  ∧ knowledge merged = knowledge e.
Proof.
  unfold mergeParameters.
  destruct (setsDiffer _ _); [|by intros [= <-]].
  destruct (parameters e), (parameters m); try done. by intros [= <-].
Qed.

Lemma mergeDefaultParameters_rest e m :
  let merged := mergeDefaultParameters e m in
  name merged = name e ∧ description merged = description e
  ∧ input merged = input e ∧ output merged = output e
  ∧ parameters merged = parameters e
  ∧ defaultParameters merged
    = match defaultParameters m with
      | Some theirs => Some (default ∅ (defaultParameters e) ∪ theirs)
      | None => defaultParameters e
      end
  ∧ knowledge merged = knowledge e.
Proof. unfold mergeDefaultParameters. by case_match. Qed.

Lemma mergeFlag_rest flag e m :
  let merged := mergeFlag m e flag in
  name merged = name e ∧ description merged = description e
  ∧ input merged = input e ∧ output merged = output e
  ∧ parameters merged = parameters e
  ∧ defaultParameters merged = defaultParameters e
  ∧ knowledge merged = knowledge e.
Proof. unfold mergeFlag. repeat case_match; by destruct flag. Qed.

Lemma mergeFlags_rest e m :
  let merged := mergeFlags e m in
  name merged = name e ∧ description merged = description e
  ∧ input merged = input e ∧ output merged = output e
  ∧ parameters merged = parameters e
  ∧ defaultParameters merged = defaultParameters e
  ∧ knowledge merged = knowledge e.
Proof.
  unfold mergeFlags, flags. cbn [foldl].
  destruct (mergeFlag_rest OpenWeights e m) as (?&?&?&?&?&?&?).
  destruct (mergeFlag_rest Reasoning (mergeFlag m e OpenWeights) m)
    as (?&?&?&?&?&?&?).
  destruct (mergeFlag_rest ToolCalling
              (mergeFlag m (mergeFlag m e OpenWeights) Reasoning) m)
    as (?&?&?&?&?&?&?).
  cbv zeta. split_and!; congruence.
Qed.

Section WithBuiltins.
Variable parseFloat : string → Js.JsNumber.
Variable dateValue : string → Js.JsNumber.

Local Abbreviation dedupModel := (Dedup.dedupModel parseFloat dateValue).
Local Abbreviation mergeModel := (Dedup.mergeModel parseFloat dateValue).
Local Abbreviation deduplicateModels :=
  (Dedup.deduplicateModels parseFloat dateValue).
Local Abbreviation mergeInto := (Classes.mergeInto parseFloat dateValue).

Lemma mergeProviders_rest free e m :
  let merged := Dedup.mergeProviders parseFloat free e m in
  name merged = name e ∧ description merged = description e
  ∧ input merged = input e ∧ output merged = output e
  ∧ parameters merged = parameters e
  ∧ defaultParameters merged = defaultParameters e
  ∧ knowledge merged = knowledge e.
Proof. by destruct free. Qed.

Lemma mergeKnowledge_rest e m :
  let merged := mergeKnowledge dateValue e m in
  name merged = name e ∧ description merged = description e
  ∧ input merged = input e ∧ output merged = output e
  ∧ parameters merged = parameters e
  ∧ defaultParameters merged = defaultParameters e.
Proof. unfold mergeKnowledge. by repeat case_match. Qed.

Lemma mergeModel_rest free e m merged :
  mergeModel free e m = Js.Ok merged →
  name merged = name e
  ∧ description merged
    = (if String.eqb (description e) ""
          && negb (String.eqb (description m) "")
       then description m else description e)
  ∧ input merged
    = (if setsDiffer (input e) (input m)
       then Js.arrayFromSet (input e ++ input m) else input e)
  ∧ output merged
    = (if setsDiffer (output e) (output m)
       then Js.arrayFromSet (output e ++ output m) else output e)
  ∧ default [] (parameters merged)
    = (if setsDiffer (default [] (parameters e))
            (default [] (parameters m))
       then Js.arrayFromSet
              (default [] (parameters e) ++ default [] (parameters m))
       else default [] (parameters e))
  ∧ defaultParameters merged
    = match defaultParameters m with
      | Some theirs => Some (default ∅ (defaultParameters e) ∪ theirs)
      | None => defaultParameters e
      end
  ∧ ∃ e8, merged = mergeKnowledge dateValue e8 m
          ∧ knowledge e8 = knowledge e.
Proof.
  unfold Dedup.mergeModel. intros (e6 & He6 & [= <-])%bind_Ok.
  apply mergeParameters_rest in He6.
  set (e1 := mergeAliases e m) in *.
  set (e2 := Dedup.mergeProviders parseFloat free e1 m) in *.
  set (e3 := mergeDescription e2 m) in *.
  set (e4 := mergeInput e3 m) in *.
  set (e5 := mergeOutput e4 m) in *.
  set (e7 := mergeDefaultParameters e6 m) in *.
  set (e8 := mergeFlags e7 m) in *.
  destruct He6 as (Hn6 & Hd6 & Hi6 & Ho6 & Hp6 & Hdp6 & Hk6).
  destruct (mergeKnowledge_rest e8 m) as (Hn9 & Hd9 & Hi9 & Ho9 & Hp9 & Hdp9).
  destruct (mergeFlags_rest e7 m) as (Hn8 & Hd8 & Hi8 & Ho8 & Hp8 & Hdp8 & Hk8).
  destruct (mergeDefaultParameters_rest e6 m)
    as (Hn7 & Hd7 & Hi7 & Ho7 & Hp7 & Hdp7 & Hk7).
  destruct (mergeOutput_rest e4 m) as (Hn5 & Hd5 & Hi5 & Ho5 & Hp5 & Hdp5 & Hk5).
  destruct (mergeInput_rest e3 m) as (Hn4 & Hd4 & Hi4 & Ho4 & Hp4 & Hdp4 & Hk4).
  destruct (mergeDescription_rest e2 m)
    as (Hn3 & Hd3 & Hi3 & Ho3 & Hp3 & Hdp3 & Hk3).
  destruct (mergeProviders_rest free e1 m)
    as (Hn2 & Hd2 & Hi2 & Ho2 & Hp2 & Hdp2 & Hk2).
  destruct (mergeAliases_rest e m) as (Hn1 & Hd1 & Hi1 & Ho1 & Hp1 & Hdp1 & Hk1).
  fold e1 e2 e3 e4 e5 e7 e8 in Hn1, Hd1, Hi1, Ho1, Hp1, Hdp1, Hk1,
    Hn2, Hd2, Hi2, Ho2, Hp2, Hdp2, Hk2, Hn3, Hd3, Hi3, Ho3, Hp3, Hdp3, Hk3,
    Hn4, Hd4, Hi4, Ho4, Hp4, Hdp4, Hk4, Hn5, Hd5, Hi5, Ho5, Hp5, Hdp5, Hk5,
    Hn7, Hd7, Hi7, Ho7, Hp7, Hdp7, Hk7, Hn8, Hd8, Hi8, Ho8, Hp8, Hdp8, Hk8,
    Hn9, Hd9, Hi9, Ho9, Hp9, Hdp9.
  split_and!.
  - by rewrite Hn9, Hn8, Hn7, Hn6, Hn5, Hn4, Hn3, Hn2, Hn1.
  - by rewrite Hd9, Hd8, Hd7, Hd6, Hd5, Hd4, Hd3, Hd2, Hd1.
  - by rewrite Hi9, Hi8, Hi7, Hi6, Hi5, Hi4, Hi3, Hi2, Hi1.
  - by rewrite Ho9, Ho8, Ho7, Ho6, Ho5, Ho4, Ho3, Ho2, Ho1.
  - by rewrite Hp9, Hp8, Hp7, Hp6, Hp5, Hp4, Hp3, Hp2, Hp1.
  - by rewrite Hdp9, Hdp8, Hdp7, Hdp6, Hdp5, Hdp4, Hdp3, Hdp2, Hdp1.
  - exists e8. split; [done|].
    by rewrite Hk8, Hk7, Hk6, Hk5, Hk4, Hk3, Hk2, Hk1.
Qed.

(** *** The records of one key *)

Lemma stripFreeSuffix_rest model :
  let stripped := stripFreeSuffix model in
  name stripped = name model ∧ description stripped = description model
  ∧ input stripped = input model ∧ output stripped = output model
  ∧ parameters stripped = parameters model
  ∧ defaultParameters stripped = defaultParameters model
  ∧ knowledge stripped = knowledge model.
Proof. unfold stripFreeSuffix. by case_match. Qed.

Lemma classOf_snoc key pre x :
  classOf key (pre ++ [x])
  = classOf key pre ++ (if decide (comparableId x = key) then [x] else []).
Proof.
  unfold classOf. rewrite filter_app, filter_cons, filter_nil.
  by case_decide.
Qed.

Lemma loop_class models modelsById :
  Js.forOf dedupModel models [] = Js.Ok modelsById →
  ∀ key, Js.forOf mergeInto (classOf key models) None
         = Js.Ok (Js.mapGet key modelsById).
Proof.
  apply (forOf_invariant dedupModel
           (λ pre modelsById, ∀ key,
              Js.forOf mergeInto (classOf key pre) None
              = Js.Ok (Js.mapGet key modelsById))); [done|].
  intros pre x s s' _ IH Hstep key.
  rewrite classOf_snoc. case_decide as Hkey.
  - rewrite forOf_snoc, IH, bind_Ok_l. subst key.
    apply dedupModel_cases in Hstep
      as [[Hnone ->]|(e & merged & Hget & Hmerge & ->)];
      rewrite mapGet_mapSet_eq.
    + by rewrite Hnone.
    + rewrite Hget. cbn [Classes.mergeInto]. by rewrite Hmerge.
  - rewrite app_nil_r, IH.
    apply dedupModel_cases in Hstep
      as [[_ ->]|(e & merged & _ & _ & ->)];
      by rewrite mapGet_mapSet_ne.
Qed.

Lemma mergeInto_None class :
  Js.forOf mergeInto class None = Js.Ok None → class = [].
Proof.
  destruct class as [|x pre _] using rev_ind; [done|].
  rewrite forOf_snoc. intros (entry & _ & Hstep)%bind_Ok.
  destruct entry as [e|]; [|done].
  by apply bind_Ok in Hstep as (merged & _ & [=]).
Qed.

(** The canonical model of a class is what is left when the first record
    is filed and the others are merged into it, one after the other. *)
Lemma class_invariant (P : list ModelInformation → ModelInformation → Prop) :
  (∀ first, P [first] (stripFreeSuffix first)) →
  (∀ pre x e merged,
     P pre e →
     mergeModel (isFreeModel x) e (stripFreeSuffix x) = Js.Ok merged →
     P (pre ++ [x]) merged) →
  ∀ class c, Js.forOf mergeInto class None = Js.Ok (Some c) → P class c.
Proof.
  intros Hfirst Hmerge class.
  induction class as [|x pre IH] using rev_ind; [done|].
  intros c. rewrite forOf_snoc. intros (entry & Hpre & Hstep)%bind_Ok.
  destruct entry as [e|].
  - apply bind_Ok in Hstep as (merged & Hmerged & [= <-]).
    eapply Hmerge; [|done]. by apply IH.
  - apply mergeInto_None in Hpre as ->. injection Hstep as <-.
    apply Hfirst.
Qed.

Lemma canonical_class models result c :
  deduplicateModels models = Js.Ok result →
  c ∈ result →
  Js.forOf mergeInto (classOf (makeIdComparable (id c)) models) None
  = Js.Ok (Some c).
Proof.
  intros (modelsById & Hloop & Hkeyed & ->)%deduplicateModels_Ok Hin.
  rewrite (loop_class _ _ Hloop). f_equal.
  by apply canonical_lookup.
Qed.

Lemma canonical_invariant
  (P : list ModelInformation → ModelInformation → Prop) models result c :
  (∀ first, P [first] (stripFreeSuffix first)) →
  (∀ pre x e merged,
     P pre e →
     mergeModel (isFreeModel x) e (stripFreeSuffix x) = Js.Ok merged →
     P (pre ++ [x]) merged) →
  deduplicateModels models = Js.Ok result →
  c ∈ result →
  P (classOf (makeIdComparable (id c)) models) c.
Proof.
  intros Hfirst Hmerge Hrun Hin.
  apply class_invariant; [done..|]. by eapply canonical_class.
Qed.

(** *** Aliases *)

(** C7, amended.  From a list of models whose alias lists contain their
    own id, every canonical model of the result of [deduplicateModels] has
    its id among its aliases.  When a record was merged into it (two or
    more records of the list share its comparable id), its aliases have
    no two equal strings and stand longest first.  When nothing was merged
    into it (one record of the list has its comparable id), its aliases
    are the aliases of that record as they came, one by one in their
    order, followed by its id when the record was of the free tier. *)
Theorem aliases_of_canonical_models
  (models result : list ModelInformation) (c : ModelInformation) :
  (∀ model, model ∈ models → id model ∈ aliases model) →
  deduplicateModels models = Js.Ok result →
  c ∈ result →
  let class := classOf (makeIdComparable (id c)) models in
  class ≠ []
  ∧ id c ∈ aliases c
  ∧ ((1 < length class)%nat →
     NoDup (aliases c) ∧ longestFirst (aliases c))
  ∧ ∀ model, class = [model] →
      aliases c
      = aliases model ++ (if isFreeModel model then [id c] else []).
Proof.
  intros Hids Hrun Hin class.
  cut ((∀ model, model ∈ class → id model ∈ aliases model) →
       class ≠ []
       ∧ id c ∈ aliases c
       ∧ ((1 < length class)%nat →
          NoDup (aliases c) ∧ longestFirst (aliases c))
       ∧ ∀ model, class = [model] →
           aliases c
           = aliases model ++ (if isFreeModel model then [id c] else [])).
  { intros H. apply H. intros model [_ Hmodel]%list_elem_of_filter.
    by apply Hids. }
  subst class. revert Hrun Hin.
  apply (canonical_invariant
           (λ class c,
              (∀ model, model ∈ class → id model ∈ aliases model) →
              class ≠ []
              ∧ id c ∈ aliases c
              ∧ ((1 < length class)%nat →
                 NoDup (aliases c) ∧ longestFirst (aliases c))
              ∧ ∀ model, class = [model] →
                  aliases c
                  = aliases model
                    ++ (if isFreeModel model then [id c] else []))).
  - intros first Hfirst. split_and!.
    + done.
    + apply stripFreeSuffix_id_in_aliases, Hfirst, list_elem_of_here.
    + cbn [length]. lia.
    + intros model [= <-]. unfold stripFreeSuffix.
      destruct (isFreeModel first); [done|]. by rewrite app_nil_r.
  - intros pre x e merged IH Hmerge Hclass.
    destruct IH as (Hpre & He & _).
    { intros model Hmodel. apply Hclass, elem_of_app. by left. }
    apply mergeModel_Ok in Hmerge as (Hid & Hal & _).
    rewrite Hid, Hal. split_and!.
    + by destruct pre.
    + apply elem_of_sort, elem_of_arrayFromSet, elem_of_app. by left.
    + intros _. split; [|apply sort_longestFirst].
      rewrite sort_Permutation. apply NoDup_arrayFromSet.
    + intros model Hone. apply (f_equal length) in Hone.
      rewrite length_app in Hone. cbn [length] in Hone.
      destruct pre; [done|]. cbn [length] in Hone. lia.
Qed.

(** The loop over records that are all filed under one key. *)
Lemma loop_one_key key class :
  Forall (λ model, comparableId model = key) class →
  Js.forOf dedupModel class []
  = Js.forOf mergeInto class None ≫= λ entry,
      mret (match entry with Some c => [(key, c)] | None => [] end).
Proof.
  induction class as [|x pre IH] using rev_ind; [done|].
  intros [Hpre [Hx _]%Forall_cons]%Forall_app.
  rewrite !forOf_snoc, IH by done.
  destruct (Js.forOf mergeInto pre None) as [[e|]|message]; [| |done].
  - rewrite !bind_Ok_l. unfold Dedup.dedupModel.
    fold (comparableId x). rewrite Hx. cbn [Js.mapGet Classes.mergeInto].
    rewrite decide_True by done.
    destruct (mergeModel _ e _) as [merged|message]; [|done].
    rewrite !bind_Ok_l. cbn [Js.mapSet]. by rewrite decide_True.
  - rewrite !bind_Ok_l. unfold Dedup.dedupModel.
    fold (comparableId x). by rewrite Hx.
Qed.

(** X4.  The records of one model are merged without regard to the other
    records: a canonical model of the result of [deduplicateModels] is
    the one and only model that [deduplicateModels] makes of the records
    of the input that share its comparable id, taken in their order. *)
Theorem classes_are_merged_independently
  (models result : list ModelInformation) (c : ModelInformation) :
  deduplicateModels models = Js.Ok result →
  c ∈ result →
  deduplicateModels (classOf (makeIdComparable (id c)) models)
  = Js.Ok [c].
Proof.
  intros Hrun Hin. unfold Dedup.deduplicateModels.
  rewrite (loop_one_key (makeIdComparable (id c))).
  - by rewrite (canonical_class _ _ _ Hrun Hin).
  - apply Forall_forall. by intros m [? _]%list_elem_of_filter.
Qed.

(** *** The order of the result *)

Lemma arrayFromSet_snoc `{EqDecision A} (xs : list A) x :
  Js.arrayFromSet (xs ++ [x]) = Js.setAdd (Js.arrayFromSet xs) x.
Proof. unfold Js.arrayFromSet. by rewrite foldl_app. Qed.

Lemma loop_keys models modelsById :
  Js.forOf dedupModel models [] = Js.Ok modelsById →
  modelsById.*1 = Js.arrayFromSet (comparableId <$> models).
Proof.
  apply (forOf_invariant dedupModel
           (λ pre modelsById,
              modelsById.*1 = Js.arrayFromSet (comparableId <$> pre)));
    [done|].
  intros pre x s s' _ IH Hstep.
  rewrite fmap_app.
  change (comparableId <$> [x]) with [comparableId x].
  rewrite arrayFromSet_snoc, <- IH. unfold Js.setAdd.
  apply dedupModel_cases in Hstep
    as [[Hnone%mapGet_None ->]|(e & merged & Hget & _ & ->)].
  - rewrite mapSet_fresh by done. rewrite fmap_app.
    by rewrite decide_False.
  - assert (comparableId x ∈ s.*1) as Hin.
    { apply mapGet_Some_elem in Hget.
      by apply (list_elem_of_fmap_2 fst) in Hget. }
    rewrite mapSet_keys_present by done. by rewrite decide_True.
Qed.

(** X5.  The result of [deduplicateModels] has one model for every
    comparable id of the input, in the order in which these ids first
    appear in the input. *)
Theorem canonical_models_stand_in_order_of_first_appearance
  (models result : list ModelInformation) :
  deduplicateModels models = Js.Ok result →
  makeIdComparable ∘ id <$> result
  = Js.arrayFromSet (comparableId <$> models).
Proof.
  intros (modelsById & Hloop & Hkeyed & ->)%deduplicateModels_Ok.
  rewrite keyedById_values by done. by apply loop_keys.
Qed.

(** X6.  The first record of a model decides who it is: the canonical
    model has the id (without the suffix of the free tier) and the name of
    the first record of the input that has its comparable id, whatever the
    records that are merged into it say. *)
Theorem first_record_names_the_model
  (models result : list ModelInformation) (c : ModelInformation) :
  deduplicateModels models = Js.Ok result →
  c ∈ result →
  ∃ first,
    head (classOf (makeIdComparable (id c)) models) = Some first
    ∧ id c = id (stripFreeSuffix first)
    ∧ name c = name first.
Proof.
  apply (canonical_invariant
           (λ class c, ∃ first, head class = Some first
                                ∧ id c = id (stripFreeSuffix first)
                                ∧ name c = name first)).
  - intros first. exists first. split_and!; [done..|].
    apply stripFreeSuffix_rest.
  - intros pre x e merged (first & Hhead & Hid & Hname) Hmerge.
    exists first. split_and!.
    + destruct pre; [done|]. done.
    + apply mergeModel_Ok in Hmerge as (-> & _). done.
    + apply mergeModel_rest in Hmerge as (-> & _). done.
Qed.

(** *** Lists that are merged as sets *)

Lemma setsDiffer_false `{EqDecision A} (xs ys : list A) :
  setsDiffer xs ys = false → ∀ x, x ∈ xs ↔ x ∈ ys.
Proof.
  unfold setsDiffer, Js.everyIn.
  intros [Hlen%negb_false_iff Hevery%negb_false_iff]%orb_false_iff x.
  apply Nat.eqb_eq in Hlen.
  rewrite forallb_forall in Hevery.
  assert (Js.arrayFromSet xs ≡ₚ Js.arrayFromSet ys) as Hperm.
  { apply submseteq_length_Permutation; [|lia].
    apply NoDup_submseteq; [apply NoDup_arrayFromSet|].
    intros y Hy. apply list_elem_of_In, Hevery in Hy.
    by apply bool_decide_eq_true in Hy. }
  by rewrite <- (elem_of_arrayFromSet xs), <- (elem_of_arrayFromSet ys),
    Hperm.
Qed.

Lemma merged_set_elem `{EqDecision A} (xs ys : list A) x :
  x ∈ (if setsDiffer xs ys then Js.arrayFromSet (xs ++ ys) else xs)
  ↔ x ∈ xs ∨ x ∈ ys.
Proof.
  destruct (setsDiffer xs ys) eqn:Hdiffer.
  - by rewrite elem_of_arrayFromSet, elem_of_app.
  - pose proof (setsDiffer_false _ _ Hdiffer x). tauto.
Qed.

Lemma elem_of_snoc_class {A} (get : ModelInformation → list A)
  (pre : list ModelInformation) x (e : list A) v :
  (v ∈ e ↔ ∃ m, m ∈ pre ∧ v ∈ get m) →
  (v ∈ e ∨ v ∈ get x) ↔ ∃ m, m ∈ pre ++ [x] ∧ v ∈ get m.
Proof.
  intros ->. split.
  - intros [(m & Hin & Hv)|Hv].
    + exists m. split; [|done]. apply elem_of_app. by left.
    + exists x. split; [|done]. apply elem_of_app. right.
      by apply list_elem_of_singleton.
  - intros (m & [Hin|Heq%list_elem_of_singleton]%elem_of_app & Hv).
    + left. by exists m.
    + right. by subst.
Qed.

(** X7.  No alias is lost and none is made up: the aliases of a canonical
    model are the aliases of the records of the input that share its
    comparable id, where a record of the free tier counts with its id
    without the suffix among its aliases. *)
Theorem aliases_are_those_of_the_class
  (models result : list ModelInformation) (c : ModelInformation)
  (alias : string) :
  deduplicateModels models = Js.Ok result →
  c ∈ result →
  alias ∈ aliases c
  ↔ ∃ model, model ∈ classOf (makeIdComparable (id c)) models
             ∧ alias ∈ aliases (stripFreeSuffix model).
Proof.
  apply (canonical_invariant
           (λ class c, alias ∈ aliases c
                       ↔ ∃ model, model ∈ class
                                  ∧ alias ∈ aliases (stripFreeSuffix model))).
  - intros first. split.
    + intros Hin. exists first. split; [apply list_elem_of_here|done].
    + by intros (m & ->%list_elem_of_singleton & Hin).
  - intros pre x e merged IH Hmerge.
    apply mergeModel_Ok in Hmerge as (_ & -> & _).
    rewrite elem_of_sort, elem_of_arrayFromSet, elem_of_app.
    by apply (elem_of_snoc_class (λ m, aliases (stripFreeSuffix m))).
Qed.

(** X8.  The modalities and the parameters of a canonical model are those
    of its records taken together: a value is in its [input], its
    [output] or its [parameters] exactly when it is in that list of some
    record of the input that shares its comparable id. *)
Theorem modalities_and_parameters_are_those_of_the_class
  (models result : list ModelInformation) (c : ModelInformation) :
  deduplicateModels models = Js.Ok result →
  c ∈ result →
  let class := classOf (makeIdComparable (id c)) models in
  (∀ v, v ∈ input c ↔ ∃ model, model ∈ class ∧ v ∈ input model)
  ∧ (∀ v, v ∈ output c ↔ ∃ model, model ∈ class ∧ v ∈ output model)
  ∧ (∀ v, v ∈ default [] (parameters c)
          ↔ ∃ model, model ∈ class ∧ v ∈ default [] (parameters model)).
Proof.
  apply (canonical_invariant
           (λ class c,
              (∀ v, v ∈ input c ↔ ∃ model, model ∈ class ∧ v ∈ input model)
              ∧ (∀ v, v ∈ output c
                      ↔ ∃ model, model ∈ class ∧ v ∈ output model)
              ∧ (∀ v, v ∈ default [] (parameters c)
                      ↔ ∃ model, model ∈ class
                                 ∧ v ∈ default [] (parameters model)))).
  - intros first.
    destruct (stripFreeSuffix_rest first) as (_ & _ & -> & -> & -> & _).
    split_and!; intros v; (split;
      [intros Hin; exists first; split; [apply list_elem_of_here|done]
      |by intros (m & ->%list_elem_of_singleton & Hin)]).
  - intros pre x e merged (IHi & IHo & IHp) Hmerge.
    apply mergeModel_rest in Hmerge as (_ & _ & -> & -> & -> & _).
    destruct (stripFreeSuffix_rest x) as (_ & _ & -> & -> & -> & _).
    split_and!; intros v; rewrite merged_set_elem.
    + by apply (elem_of_snoc_class input).
    + by apply (elem_of_snoc_class output).
    + by apply (elem_of_snoc_class (λ m, default [] (parameters m))).
Qed.

(** *** The description and the default parameters *)

Lemma firstNonEmpty_snoc texts text :
  firstNonEmpty (texts ++ [text])
  = if String.eqb (firstNonEmpty texts) "" then text
    else firstNonEmpty texts.
Proof.
  unfold firstNonEmpty. rewrite filter_app, filter_cons, filter_nil.
  destruct (filter (λ t, t ≠ "") texts) as [|t rest] eqn:Hfilter.
  - destruct (decide (text ≠ "")) as [Htext|Htext]; [done|].
    simpl. by destruct (decide (text = "")) as [->|].
  - assert (t ≠ "") as Ht.
    { assert (t ∈ filter (λ t, t ≠ "") texts) as Hin
        by (rewrite Hfilter; apply list_elem_of_here).
      by apply list_elem_of_filter in Hin as [? _]. }
    simpl. by apply String.eqb_neq in Ht as ->.
Qed.

(** X9.  The description of a canonical model is the first description
    that is not empty among the records of the input that share its
    comparable id, and empty when they all are. *)
Theorem description_is_the_first_that_is_not_empty
  (models result : list ModelInformation) (c : ModelInformation) :
  deduplicateModels models = Js.Ok result →
  c ∈ result →
  description c
  = firstNonEmpty
      (description <$> classOf (makeIdComparable (id c)) models).
Proof.
  apply (canonical_invariant
           (λ class c,
              description c = firstNonEmpty (description <$> class))).
  - intros first.
    destruct (stripFreeSuffix_rest first) as (_ & -> & _).
    unfold firstNonEmpty. cbn [fmap list_fmap].
    rewrite filter_cons, filter_nil.
    case_decide as Hd; [done|].
    by destruct (decide (description first = "")) as [->|].
  - intros pre x e merged IH Hmerge.
    apply mergeModel_rest in Hmerge as (_ & -> & _).
    destruct (stripFreeSuffix_rest x) as (_ & -> & _).
    rewrite fmap_app.
    change (description <$> [x]) with [description x].
    rewrite firstNonEmpty_snoc, <- IH.
    destruct (String.eqb_spec (description e) "") as [He|He];
      cbn [andb]; [|done].
    destruct (String.eqb_spec (description x) "") as [Hx|Hx];
      cbn [negb]; congruence.
Qed.

Lemma firstDefault_snoc parameter models model :
  firstDefault parameter (models ++ [model])
  = match firstDefault parameter models with
    | Some value => Some value
    | None => defaultParameters model ≫= (.!! parameter)
    end.
Proof.
  unfold firstDefault. rewrite omap_app.
  destruct (omap _ models) as [|value rest]; [|done].
  simpl. destruct (defaultParameters model) as [theirs|]; simpl; [|done].
  by destruct (theirs !! parameter).
Qed.

(** X10.  A default parameter of a canonical model has the value that the
    first record of the input with that comparable id that has a default
    for it gives it; later records add defaults and never replace one. *)
Theorem default_parameters_are_those_of_the_first_record
  (models result : list ModelInformation) (c : ModelInformation)
  (parameter : string) :
  deduplicateModels models = Js.Ok result →
  c ∈ result →
  defaultParameters c ≫= (.!! parameter)
  = firstDefault parameter (classOf (makeIdComparable (id c)) models).
Proof.
  apply (canonical_invariant
           (λ class c, defaultParameters c ≫= (.!! parameter)
                       = firstDefault parameter class)).
  - intros first.
    destruct (stripFreeSuffix_rest first) as (_ & _ & _ & _ & _ & -> & _).
    unfold firstDefault. simpl.
    destruct (defaultParameters first) as [theirs|]; simpl; [|done].
    by destruct (theirs !! parameter).
  - intros pre x e merged IH Hmerge.
    apply mergeModel_rest in Hmerge as (_ & _ & _ & _ & _ & -> & _).
    destruct (stripFreeSuffix_rest x) as (_ & _ & _ & _ & _ & -> & _).
    rewrite firstDefault_snoc, <- IH.
    destruct (defaultParameters x) as [theirs|]; cbn [mbind option_bind].
    + rewrite lookup_union.
      destruct (defaultParameters e) as [ours|]; simpl.
      * by destruct (ours !! parameter), (theirs !! parameter).
      * rewrite lookup_empty. by destruct (theirs !! parameter).
    + destruct (defaultParameters e) as [ours|]; simpl; [|done].
      by destruct (ours !! parameter).
Qed.

(** *** The date of knowledge *)

Lemma lt_after a b c :
  Js.lt a b = true → Js.lt c b = false → Js.lt c a = false.
Proof.
  destruct a as [| |x|], b as [| |y|], c as [| |z|]; simpl; try done.
  rewrite bool_decide_eq_true, !bool_decide_eq_false.
  intros Hxy Hzy Hzx. apply Hzy. by apply Qclt_trans with x.
Qed.

Lemma knowledge_mergeKnowledge e m :
  knowledge (mergeKnowledge dateValue e m)
  = if Js.truthy (knowledge e) && Js.truthy (knowledge m)
    then if Js.lt (dateValue (default "" (knowledge m)))
              (dateValue (default "" (knowledge e)))
         then knowledge m else knowledge e
    else if negb (Js.truthy (knowledge e)) && Js.truthy (knowledge m)
         then knowledge m else knowledge e.
Proof. unfold mergeKnowledge. by repeat case_match. Qed.

(** X11.  When a record of a model has a date of knowledge, the canonical
    model has one, it is the date of one of the records of the input with
    its comparable id, and no record with that comparable id has a date
    that is earlier. *)
Theorem knowledge_is_the_earliest_of_the_class
  (models result : list ModelInformation) (c : ModelInformation) :
  deduplicateModels models = Js.Ok result →
  c ∈ result →
  let class := classOf (makeIdComparable (id c)) models in
  (∃ model, model ∈ class ∧ knowledge c = knowledge model)
  ∧ ∀ model, model ∈ class → Js.truthy (knowledge model) = true →
      Js.truthy (knowledge c) = true
      ∧ Js.lt (dateValue (default "" (knowledge model)))
          (dateValue (default "" (knowledge c))) = false.
Proof.
  apply (canonical_invariant
           (λ class c,
              (∃ model, model ∈ class ∧ knowledge c = knowledge model)
              ∧ ∀ model, model ∈ class →
                  Js.truthy (knowledge model) = true →
                  Js.truthy (knowledge c) = true
                  ∧ Js.lt (dateValue (default "" (knowledge model)))
                      (dateValue (default "" (knowledge c))) = false)).
  - intros first.
    destruct (stripFreeSuffix_rest first)
      as (_ & _ & _ & _ & _ & _ & ->).
    split.
    + exists first. split; [apply list_elem_of_here|done].
    + intros m ->%list_elem_of_singleton Hm. split; [done|].
      apply OfferingMerge.lt_irrefl.
  - intros pre x e merged [(origin & Hin & He) IH] Hmerge.
    apply mergeModel_rest in Hmerge
      as (_ & _ & _ & _ & _ & _ & e8 & -> & He8).
    rewrite knowledge_mergeKnowledge, He8.
    destruct (stripFreeSuffix_rest x) as (_ & _ & _ & _ & _ & _ & ->).
    assert (x ∈ pre ++ [x]) as Hx
      by (apply elem_of_app; right; apply list_elem_of_here).
    assert (origin ∈ pre ++ [x]) as Horigin
      by (apply elem_of_app; by left).
    destruct (Js.truthy (knowledge x)) eqn:Hkx;
      destruct (Js.truthy (knowledge e)) eqn:Hke; cbn [andb negb].
    + destruct (Js.lt _ _) eqn:Hlt.
      * split; [by exists x|].
        intros m [Hm| ->%list_elem_of_singleton]%elem_of_app Htruthy.
        -- split; [done|]. eapply lt_after; [done|]. by apply IH.
        -- split; [done|]. apply OfferingMerge.lt_irrefl.
      * split; [by exists origin|].
        intros m [Hm| ->%list_elem_of_singleton]%elem_of_app Htruthy.
        -- destruct (IH m Hm Htruthy) as [? ?]. split; [congruence|done].
        -- done.
    + split; [by exists x|].
      intros m [Hm| ->%list_elem_of_singleton]%elem_of_app Htruthy.
      * destruct (IH m Hm Htruthy) as [? _]. congruence.
      * split; [done|]. apply OfferingMerge.lt_irrefl.
    + split; [by exists origin|].
      intros m [Hm| ->%list_elem_of_singleton]%elem_of_app Htruthy.
      * destruct (IH m Hm Htruthy) as [? ?]. split; [congruence|done].
      * congruence.
    + split; [by exists origin|].
      intros m [Hm| ->%list_elem_of_singleton]%elem_of_app Htruthy.
      * destruct (IH m Hm Htruthy) as [? ?]. split; [congruence|done].
      * congruence.
Qed.

(** *** Records that have their parameters *)

(** X12.  When every record of the input has its array of parameters,
    [deduplicateModels] returns, and every model of the result has its
    array of parameters. *)
Theorem records_with_parameters_are_merged
  (models : list ModelInformation) :
  (∀ model, model ∈ models → is_Some (parameters model)) →
  ∃ result, deduplicateModels models = Js.Ok result
            ∧ ∀ c, c ∈ result → is_Some (parameters c).
Proof.
  intros Hmodels.
  destruct (deduplicateModels_returns parseFloat dateValue models Hmodels)
    as [result Hrun].
  exists result. split; [done|]. intros c Hin.
  cut (Forall (λ model, is_Some (parameters model))
         (classOf (makeIdComparable (id c)) models)
       → is_Some (parameters c)).
  { intros Hcut. apply Hcut, Forall_forall.
    intros m [_ Hm]%list_elem_of_filter. by apply Hmodels. }
  revert Hrun Hin.
  apply (canonical_invariant
           (λ class c, Forall (λ model, is_Some (parameters model)) class
                       → is_Some (parameters c))).
  - intros first [Hfirst _]%Forall_cons.
    by destruct (stripFreeSuffix_rest first) as (_ & _ & _ & _ & -> & _).
  - intros pre x e merged IH Hmerge [Hpre [Hx _]%Forall_cons]%Forall_app.
    destruct (mergeModel_returns parseFloat dateValue (isFreeModel x) e
                (stripFreeSuffix x)) as (merged' & Hmerge' & Hsome).
    + by apply IH.
    + by destruct (stripFreeSuffix_rest x) as (_ & _ & _ & _ & -> & _).
    + congruence.
Qed.

End WithBuiltins.
End ModelFacts.

(** ** [deduplicateModels] on the sample records *)

Module ModelFactsExamples.
Import Source Dedup Known Canonical Classes.

Example variants_merge :
  Sample.deduplicateModels MoreSamples.variants
  = Js.Ok MoreSamples.variantsResult
  ∧ (id <$> MoreSamples.variantsResult) = ["Mistral-7B"; "other"]
  ∧ aliases MoreSamples.mistral
    = ["mistral_7b:free"; "Mistral-7B"; "mistral_7b"; "mistral7b"]
  ∧ description MoreSamples.mistral = "A small model."
  ∧ knowledge MoreSamples.mistral = Some "2023-06-01"
  ∧ input MoreSamples.mistral = [InText; InImage]
  ∧ parameters MoreSamples.mistral = Some ["temperature"; "top_p"]
  ∧ defaultParameters MoreSamples.mistral
    = Some {[ "temperature" := JNumber 1; "top_p" := JNumber 1 ]}.
Proof. repeat split; vm_compute; reflexivity. Qed.

Lemma aliases_witness :
  (id MoreSamples.gpt4 ∈ aliases MoreSamples.gpt4
   ∧ NoDup (aliases MoreSamples.gpt4)
   ∧ longestFirst (aliases MoreSamples.gpt4))
  ∧ aliases (Sample.model "llama" ["llama"] None [Sample.acmeOne])
    = ["llama"] ++ [].
Proof.
  split.
  - destruct (ModelFacts.aliases_of_canonical_models
                Builtins.decimalParseFloat Builtins.isoDateValue
                Sample.spellings Sample.spellingsResult MoreSamples.gpt4)
      as (_ & Hid & Hmerged & _).
    + exact ModelMergeExamples.spellings_ids_in_aliases.
    + vm_compute. reflexivity.
    + apply list_elem_of_here.
    + split; [exact Hid|]. apply Hmerged. vm_compute. lia.
  - destruct (ModelFacts.aliases_of_canonical_models
                Builtins.decimalParseFloat Builtins.isoDateValue
                Sample.spellings Sample.spellingsResult
                (Sample.model "llama" ["llama"] None [Sample.acmeOne]))
      as (_ & _ & _ & Hkept).
    + exact ModelMergeExamples.spellings_ids_in_aliases.
    + vm_compute. reflexivity.
    + apply list_elem_of_further, list_elem_of_here.
    + exact (Hkept (Sample.model "llama" ["llama"] None [Sample.acmeOne])
               eq_refl).
Defined.

Lemma classes_are_merged_independently_witness :
  Sample.deduplicateModels
    (classOf (makeIdComparable (id MoreSamples.mistral)) MoreSamples.variants)
  = Js.Ok [MoreSamples.mistral].
Proof.
  apply (ModelFacts.classes_are_merged_independently
           Builtins.decimalParseFloat Builtins.isoDateValue
           MoreSamples.variants MoreSamples.variantsResult).
  - vm_compute. reflexivity.
  - apply list_elem_of_here.
Defined.

Lemma order_of_first_appearance_witness :
  makeIdComparable ∘ id <$> MoreSamples.variantsResult
  = Js.arrayFromSet (comparableId <$> MoreSamples.variants).
Proof.
  apply (ModelFacts.canonical_models_stand_in_order_of_first_appearance
           Builtins.decimalParseFloat Builtins.isoDateValue).
  vm_compute. reflexivity.
Defined.

Lemma first_record_names_the_model_witness :
  ∃ first,
    head (classOf (makeIdComparable (id MoreSamples.mistral))
            MoreSamples.variants) = Some first
    ∧ id MoreSamples.mistral = id (stripFreeSuffix first)
    ∧ name MoreSamples.mistral = name first.
Proof.
  apply (ModelFacts.first_record_names_the_model
           Builtins.decimalParseFloat Builtins.isoDateValue
           MoreSamples.variants MoreSamples.variantsResult).
  - vm_compute. reflexivity.
  - apply list_elem_of_here.
Defined.

Lemma aliases_are_those_of_the_class_witness :
  "mistral_7b" ∈ aliases MoreSamples.mistral
  ↔ ∃ model,
      model ∈ classOf (makeIdComparable (id MoreSamples.mistral))
                MoreSamples.variants
      ∧ "mistral_7b" ∈ aliases (stripFreeSuffix model).
Proof.
  apply (ModelFacts.aliases_are_those_of_the_class
           Builtins.decimalParseFloat Builtins.isoDateValue
           MoreSamples.variants MoreSamples.variantsResult).
  - vm_compute. reflexivity.
  - apply list_elem_of_here.
Defined.

Lemma modalities_and_parameters_witness :
  let class := classOf (makeIdComparable (id MoreSamples.mistral))
                 MoreSamples.variants in
  (∀ v, v ∈ input MoreSamples.mistral
        ↔ ∃ model, model ∈ class ∧ v ∈ input model)
  ∧ (∀ v, v ∈ output MoreSamples.mistral
          ↔ ∃ model, model ∈ class ∧ v ∈ output model)
  ∧ (∀ v, v ∈ default [] (parameters MoreSamples.mistral)
          ↔ ∃ model, model ∈ class ∧ v ∈ default [] (parameters model)).
Proof.
  apply (ModelFacts.modalities_and_parameters_are_those_of_the_class
           Builtins.decimalParseFloat Builtins.isoDateValue
           MoreSamples.variants MoreSamples.variantsResult).
  - vm_compute. reflexivity.
  - apply list_elem_of_here.
Defined.

Lemma description_witness :
  description MoreSamples.mistral
  = firstNonEmpty
      (description <$> classOf (makeIdComparable (id MoreSamples.mistral))
                         MoreSamples.variants).
Proof.
  apply (ModelFacts.description_is_the_first_that_is_not_empty
           Builtins.decimalParseFloat Builtins.isoDateValue
           MoreSamples.variants MoreSamples.variantsResult).
  - vm_compute. reflexivity.
  - apply list_elem_of_here.
Defined.

Lemma default_parameters_witness :
  defaultParameters MoreSamples.mistral ≫= (.!! "temperature")
  = firstDefault "temperature"
      (classOf (makeIdComparable (id MoreSamples.mistral))
         MoreSamples.variants).
Proof.
  apply (ModelFacts.default_parameters_are_those_of_the_first_record
           Builtins.decimalParseFloat Builtins.isoDateValue
           MoreSamples.variants MoreSamples.variantsResult).
  - vm_compute. reflexivity.
  - apply list_elem_of_here.
Defined.

Lemma knowledge_witness :
  let class := classOf (makeIdComparable (id MoreSamples.mistral))
                 MoreSamples.variants in
  (∃ model, model ∈ class
            ∧ knowledge MoreSamples.mistral = knowledge model)
  ∧ ∀ model, model ∈ class → Js.truthy (knowledge model) = true →
      Js.truthy (knowledge MoreSamples.mistral) = true
      ∧ Js.lt (Builtins.isoDateValue (default "" (knowledge model)))
          (Builtins.isoDateValue
             (default "" (knowledge MoreSamples.mistral))) = false.
Proof.
  apply (ModelFacts.knowledge_is_the_earliest_of_the_class
           Builtins.decimalParseFloat Builtins.isoDateValue
           MoreSamples.variants MoreSamples.variantsResult).
  - vm_compute. reflexivity.
  - apply list_elem_of_here.
Defined.

Lemma variants_have_parameters :
  ∀ model, model ∈ MoreSamples.variants → is_Some (parameters model).
Proof.
  intros model Hin. unfold MoreSamples.variants in Hin.
  repeat (apply elem_of_cons in Hin as [->|Hin]);
    [| | | |by apply elem_of_nil in Hin]; by eexists.
Defined.

Lemma records_with_parameters_witness :
  ∃ result, Sample.deduplicateModels MoreSamples.variants = Js.Ok result
            ∧ ∀ c, c ∈ result → is_Some (parameters c).
Proof.
  apply (ModelFacts.records_with_parameters_are_merged
           Builtins.decimalParseFloat Builtins.isoDateValue
           MoreSamples.variants).
  exact variants_have_parameters.
Defined.

End ModelFactsExamples.

(** ** The flags of a canonical model *)


Module FlagFacts.
Import Source Dedup Known Canonical Classes JsFacts ModelMerge ModelFacts.

Lemma classFlag_snoc values value :
  classFlag (values ++ [value]) = mergedFlag (classFlag values) value.
Proof.
  unfold classFlag.
  destruct (decide (Some false ∈ values ++ [value])) as [Hf|Hf];
    destruct (decide (Some true ∈ values ++ [value])) as [Ht|Ht];
    destruct (decide (Some false ∈ values)) as [Hf'|Hf'];
    destruct (decide (Some true ∈ values)) as [Ht'|Ht'];
    rewrite ?elem_of_app, ?list_elem_of_singleton in Hf, Ht;
    destruct value as [[]|]; simpl; try done; exfalso; naive_solver.
Qed.

Section WithBuiltins.
Variable parseFloat : string → Js.JsNumber.
Variable dateValue : string → Js.JsNumber.

Local Abbreviation deduplicateModels :=
  (Dedup.deduplicateModels parseFloat dateValue).

(** X13.  A flag of a canonical model is [false] when one of the records
    of the input with its comparable id says [false]; otherwise it is
    [true] when one of them says [true]; otherwise the flag is not
    set. *)
Theorem flags_are_those_of_the_class
  (flag : Flag) (models result : list ModelInformation)
  (c : ModelInformation) :
  deduplicateModels models = Js.Ok result →
  c ∈ result →
  getFlag flag c
  = classFlag (getFlag flag <$> classOf (makeIdComparable (id c)) models).
Proof.
  apply (canonical_invariant parseFloat dateValue
           (λ class c, getFlag flag c = classFlag (getFlag flag <$> class))).
  - intros first.
    rewrite (proj2 (proj2 (stripFreeSuffix_fields first))).
    change (getFlag flag <$> [first]) with ([] ++ [getFlag flag first]).
    rewrite classFlag_snoc. by destruct (getFlag flag first) as [[]|].
  - intros pre x e merged IH Hmerge.
    apply mergeModel_Ok in Hmerge as (_ & _ & _ & _ & ->).
    rewrite (proj2 (proj2 (stripFreeSuffix_fields x))), IH, fmap_app.
    symmetry. apply classFlag_snoc.
Qed.

End WithBuiltins.
End FlagFacts.

Module FlagFactsExamples.
Import Source Dedup Canonical Classes.

Lemma flags_are_those_of_the_class_witness :
  getFlag Reasoning MoreSamples.gpt4
  = classFlag
      (getFlag Reasoning
         <$> classOf (makeIdComparable (id MoreSamples.gpt4))
               Sample.spellings).
Proof.
  apply (FlagFacts.flags_are_those_of_the_class Builtins.decimalParseFloat
           Builtins.isoDateValue Reasoning Sample.spellings
           Sample.spellingsResult).
  - vm_compute. reflexivity.
  - apply list_elem_of_here.
Defined.
End FlagFactsExamples.


(** ** Further properties of a run of the processor *)

Module RunFacts.
Import Processed Processor Contract Rerun JsFacts Reconcile Run.
#[local] Arguments findModel : simpl never.

(** *** The ids of the catalog *)

Lemma markDeprecated_ids l x : id <$> markDeprecated l x = id <$> l.
Proof.
  induction l as [|m l IH]; [done|]. cbn [markDeprecated].
  destruct (String.eqb (id m) x); [done|].
  rewrite !fmap_cons. by rewrite IH.
Qed.

Lemma markDeprecated_fold_ids l missing :
  id <$> foldl markDeprecated l missing = id <$> l.
Proof.
  revert l. induction missing as [|x missing IH]; intros l; [done|].
  cbn [foldl]. by rewrite IH, markDeprecated_ids.
Qed.

Lemma markedCatalog_ids sourceModels structure :
  id <$> markedCatalog sourceModels structure
  = id <$> Output.models structure.
Proof. apply markDeprecated_fold_ids. Qed.

Lemma addBack_ids acc m :
  id <$> addBack acc m = Js.setAdd (id <$> acc) (id m).
Proof.
  unfold addBack, Js.setAdd.
  destruct (findModel (id m) acc) as [r|] eqn:Hfind.
  - apply findModel_Some in Hfind as [Heq Hin].
    rewrite decide_True; [done|].
    rewrite <- Heq. by apply list_elem_of_fmap_2.
  - apply findModel_None in Hfind.
    rewrite decide_False by done. by rewrite fmap_app.
Qed.

Lemma addBack_fold_ids acc l :
  id <$> foldl addBack acc l = foldl Js.setAdd (id <$> acc) (id <$> l).
Proof.
  revert acc. induction l as [|m l IH]; intros acc; [done|].
  rewrite fmap_cons. cbn [foldl]. by rewrite IH, addBack_ids.
Qed.

Lemma applyBatch_keepsAll steps index models log models' log' :
  Forall batchKeepsAll steps →
  applyBatch steps index models log = Js.Ok (models', log') →
  id <$> models' = id <$> models.
Proof.
  intros Hsteps. revert index models log.
  induction Hsteps as [|step steps Hstep _ IH]; intros index models log.
  - by intros [= <- _].
  - cbn [applyBatch]. intros (given & Hgiven & Hrest)%bind_Ok.
    apply IH in Hrest. apply Hstep in Hgiven. congruence.
Qed.

(** *** Records that are marked already *)

Lemma markDeprecated_marked l x :
  (∀ r, r ∈ l → id r = x → deprecated r = Some true) →
  markDeprecated l x = l.
Proof.
  induction l as [|m l IH]; intros Hmarked; [done|]. cbn [markDeprecated].
  destruct (String.eqb_spec (id m) x) as [Heq|Hne].
  - f_equal. assert (deprecated m = Some true) as Hm.
    { apply Hmarked; [apply list_elem_of_here|done]. }
    destruct m. cbn in Hm. by subst.
  - f_equal. apply IH. intros r Hin. apply Hmarked.
    by apply list_elem_of_further.
Qed.

Lemma markDeprecated_fold_marked l missing :
  (∀ r, r ∈ l → id r ∈ missing → deprecated r = Some true) →
  foldl markDeprecated l missing = l.
Proof.
  induction missing as [|x missing IH]; intros Hmarked; [done|].
  cbn [foldl]. rewrite markDeprecated_marked.
  - apply IH. intros r Hin Hr. apply Hmarked; [done|].
    by apply list_elem_of_further.
  - intros r Hin <-. apply Hmarked; [done|]. apply list_elem_of_here.
Qed.

Lemma addBack_fold_distinct acc l :
  NoDup (id <$> acc ++ l) → foldl addBack acc l = acc ++ l.
Proof.
  revert acc. induction l as [|m l IH]; intros acc Hnd.
  - by rewrite app_nil_r.
  - cbn [foldl]. unfold addBack at 2.
    assert (findModel (id m) acc = None) as ->.
    { apply findModel_None. rewrite fmap_app, fmap_cons in Hnd.
      apply NoDup_app in Hnd as (_ & Hdisj & _).
      intros Hin. apply (Hdisj _ Hin), list_elem_of_here. }
    rewrite IH; rewrite <- app_assoc; done.
Qed.

(** *** Sorted lists *)

Lemma sortInsert_Sorted {A} (compare : A → A → Z) x sorted :
  (∀ a b, (0 < compare a b)%Z → (compare b a ≤ 0)%Z) →
  Sorted (λ a b, (compare a b ≤ 0)%Z) sorted →
  Sorted (λ a b, (compare a b ≤ 0)%Z) (Js.sortInsert compare x sorted).
Proof.
  intros Htotal. induction sorted as [|y sorted IH]; intros Hsorted.
  - by repeat constructor.
  - cbn [Js.sortInsert]. destruct (Z.leb_spec (compare x y) 0) as [Hle|Hgt].
    + constructor; [done|]. by constructor.
    + apply Sorted_inv in Hsorted as [Hsorted Hhd].
      constructor; [by apply IH|].
      destruct sorted as [|z sorted]; cbn [Js.sortInsert].
      * constructor. by apply Htotal.
      * destruct (Z.leb_spec (compare x z) 0).
        -- constructor. by apply Htotal.
        -- constructor. by apply HdRel_inv in Hhd.
Qed.

Lemma sort_Sorted {A} (compare : A → A → Z) xs :
  (∀ a b, (0 < compare a b)%Z → (compare b a ≤ 0)%Z) →
  Sorted (λ a b, (compare a b ≤ 0)%Z) (Js.sort compare xs).
Proof.
  intros Htotal. induction xs as [|x xs IH]; [constructor|].
  cbn [Js.sort]. by apply sortInsert_Sorted.
Qed.

(** A list that is in order is left as it is. *)
Lemma sort_of_Sorted {A} (compare : A → A → Z) xs :
  Sorted (λ a b, (compare a b ≤ 0)%Z) xs → Js.sort compare xs = xs.
Proof.
  induction xs as [|x xs IH]; [done|].
  intros [Hsorted Hhd]%Sorted_inv. cbn [Js.sort]. rewrite IH by done.
  destruct xs as [|y xs]; [done|]. cbn [Js.sortInsert].
  apply HdRel_inv in Hhd. by apply Z.leb_le in Hhd as ->.
Qed.

Section WithBuiltins.
Variable sha256 : string → string.
Variable stringify : Source.ModelInformation → string.
Variable localeCompare : string → string → Z.
Variable now : nat → string.

Local Abbreviation processor :=
  (Processor.processor sha256 stringify localeCompare now).
Local Abbreviation processModel :=
  (Processor.processModel sha256 stringify localeCompare now).
Local Abbreviation calculateModelHash :=
  (Processor.calculateModelHash sha256 stringify localeCompare).
Local Abbreviation isUnchanged :=
  (Contract.isUnchanged sha256 stringify localeCompare).
Local Abbreviation isPushed :=
  (Rerun.isPushed sha256 stringify localeCompare).

(** *** The loop over the source models *)

Lemma processModel_pushed existingModels existingModelIds steps st x st' :
  enrichOnly steps →
  processModel existingModels existingModelIds steps st x = Js.Ok st' →
  id <$> newModelsList st'
  = (id <$> newModelsList st)
    ++ (if isPushed existingModelIds (hashes st) steps x
        then [Source.id x] else []).
Proof.
  intros (Hnew & Hno & _).
  unfold Processor.processModel, Rerun.isPushed, Contract.isUnchanged.
  set (known := bool_decide (Source.id x ∈ existingModelIds)).
  set (same := Js.isString _ _).
  set (existingModel := if known then _ else _).
  assert (∀ e, existingModel = Some e → id e = Source.id x) as Hex.
  { subst existingModel. destruct known; [|done].
    by intros e [? _]%findModel_Some. }
  clearbody existingModel.
  destruct (known && same) eqn:Htest; cbn [negb orb].
  - destruct (noChange steps) as [|step rest] eqn:Hsteps.
    { intros [= <-]. cbn [newModelsList]. by rewrite app_nil_r. }
    destruct existingModel as [e|]; [|done].
    intros ([e' log] & Hchain & [= <-])%bind_Ok. cbn [newModelsList].
    apply applyNoChange_Ok in Hchain as (added & _ & _ & Hid).
    rewrite fmap_app, fmap_cons, (Hid Hno), (Hex e eq_refl). done.
  - intros ([nm log] & Hchain & [= <-])%bind_Ok. cbn [newModelsList].
    apply applyNewAndChanged_Ok in Hchain as (added & _ & _ & Hid).
    rewrite fmap_app, fmap_cons, (Hid Hnew). done.
Qed.

Lemma prefix_snoc_fresh (sourceModels pre : list Source.ModelInformation) x :
  NoDup (Source.id <$> sourceModels) →
  pre ++ [x] `prefix_of` sourceModels →
  Source.id x ∉ Source.id <$> pre.
Proof.
  intros Hnd [rest ->]. rewrite !fmap_app in Hnd.
  apply NoDup_app in Hnd as (Hnd & _).
  apply NoDup_app in Hnd as (_ & Hdisj & _).
  intros Hin. apply (Hdisj _ Hin). apply list_elem_of_here.
Qed.

(** With distinct ids among the source models: the hashes after the
    loop, and the ids of the records that the loop has pushed. *)
Lemma loop_state existingModels existingModelIds steps sourceModels
  hashes0 st :
  NoDup (Source.id <$> sourceModels) →
  Js.forOf (processModel existingModels existingModelIds steps)
    sourceModels
    {| hashes := hashes0; newModelsList := []; calls := []; clock := 0 |}
  = Js.Ok st →
  (∀ i, i ∉ Source.id <$> sourceModels → hashes st !! i = hashes0 !! i)
  ∧ (∀ m, m ∈ sourceModels → canBeStored hashes0 m →
       existingHash (hashes st) m = Js.StringValue (calculateModelHash m))
  ∧ (hashes0 !! "__proto__" = None → hashes st !! "__proto__" = None)
  ∧ (enrichOnly steps →
     id <$> newModelsList st
     = Source.id
         <$> filter (λ m, isPushed existingModelIds hashes0 steps m = true)
               sourceModels).
Proof.
  intros Hnd.
  apply (forOf_invariant _
           (λ pre st,
              (∀ i, i ∉ Source.id <$> pre → hashes st !! i = hashes0 !! i)
              ∧ (∀ m, m ∈ pre → canBeStored hashes0 m →
                   existingHash (hashes st) m
                   = Js.StringValue (calculateModelHash m))
              ∧ (hashes0 !! "__proto__" = None →
                 hashes st !! "__proto__" = None)
              ∧ (enrichOnly steps →
                 id <$> newModelsList st
                 = Source.id
                     <$> filter
                           (λ m, isPushed existingModelIds hashes0 steps m
                                 = true) pre))).
  { split_and!; [done| |done..]. intros m Hin. by apply elem_of_nil in Hin. }
  intros pre x s s' Hpre (IHh & IHm & IHo & IHp) Hstep.
  pose proof (prefix_snoc_fresh _ _ _ Hnd Hpre) as Hfresh.
  assert (isUnchanged existingModelIds (hashes s) x
          = isUnchanged existingModelIds hashes0 x) as Hsame.
  { unfold Contract.isUnchanged.
    by rewrite (getProperty_lookup _ _ _ (IHh _ Hfresh)). }
  assert (isPushed existingModelIds (hashes s) steps x
          = isPushed existingModelIds hashes0 steps x) as Hsame'.
  { unfold Rerun.isPushed. by rewrite Hsame. }
  split_and!.
  - apply processModel_Ok in Hstep as (added & pushed & _ & _ & _ & Hcase).
    intros i Hi. rewrite fmap_app, not_elem_of_app in Hi.
    destruct Hi as [Hi Hx].
    assert (Source.id x ≠ i) as Hne.
    { intros <-. apply Hx, list_elem_of_here. }
    destruct (isUnchanged existingModelIds (hashes s) x).
    + destruct Hcase as (-> & _). by apply IHh.
    + destruct Hcase as (-> & _). rewrite lookup_setProperty_ne by done.
      by apply IHh.
  - apply processModel_Ok in Hstep as (added & pushed & _ & _ & _ & Hcase).
    intros m [Hin| ->%list_elem_of_singleton]%elem_of_app Hown.
    + assert (Source.id x ≠ Source.id m) as Hne.
      { intros Heq. apply Hfresh. rewrite Heq.
        by apply list_elem_of_fmap_2. }
      destruct (isUnchanged existingModelIds (hashes s) x).
      * destruct Hcase as (-> & _). by apply IHm.
      * destruct Hcase as (-> & _). unfold existingHash.
        rewrite (getProperty_lookup _ (hashes s))
          by by apply lookup_setProperty_ne.
        by apply IHm.
    + destruct (isUnchanged existingModelIds (hashes s) x) eqn:Hx.
      * destruct Hcase as (-> & _).
        unfold Contract.isUnchanged in Hx.
        apply andb_true_iff in Hx as [_ Hx]. by apply isString_true in Hx.
      * destruct Hcase as (-> & _). unfold existingHash.
        rewrite (getProperty_own _ _ (calculateModelHash x)); [done|].
        apply lookup_setProperty_eq. intros Heq.
        rewrite (IHh _ Hfresh), Heq. by apply Hown.
  - apply processModel_Ok in Hstep as (added & pushed & _ & _ & _ & Hcase).
    intros Hnone.
    destruct (isUnchanged existingModelIds (hashes s) x).
    + destruct Hcase as (-> & _). by apply IHo.
    + destruct Hcase as (-> & _). by apply lookup_setProperty_proto, IHo.
  - intros Hsteps.
    rewrite (processModel_pushed _ _ _ _ _ _ Hsteps Hstep), Hsame'.
    rewrite filter_app, fmap_app, (IHp Hsteps), filter_cons, filter_nil.
    destruct (isPushed existingModelIds hashes0 steps x) eqn:Hx.
    + by rewrite decide_True.
    + by rewrite decide_False.
Qed.

(** *** What a run leaves *)

(** X14.  After a run over source models with distinct ids, the
    processor reads as the stored hash of every source model the hash of
    that model as the sources have it now, but for a source model whose
    id is [__proto__] when the table of the hashes has no entry of its
    own under that name: no run makes one.  The entries of the table
    under the ids of no source model are as they were. *)
Theorem stored_hashes_are_those_of_the_sources
  (sourceModels : list Source.ModelInformation)
  (structure out : Output.OutputStructure)
  (hashes0 hashes' : gmap string string) (steps : Steps)
  (log : list Call) :
  NoDup (Source.id <$> sourceModels) →
  processor sourceModels structure hashes0 steps
  = Js.Ok (out, hashes', log) →
  (∀ m, m ∈ sourceModels → canBeStored hashes0 m →
     existingHash hashes' m = Js.StringValue (calculateModelHash m))
  ∧ (hashes0 !! "__proto__" = None → hashes' !! "__proto__" = None)
  ∧ ∀ i, i ∉ Source.id <$> sourceModels → hashes' !! i = hashes0 !! i.
Proof.
  intros Hnd (st & batched & log1 & Hloop & _ & _ & ->)%processor_Ok.
  destruct (loop_state _ _ _ _ _ _ Hnd Hloop)
    as (Hother & Hmodels & Hproto & _).
  by split_and!.
Qed.

Lemma output_ids sourceModels structure hashes0 steps out hashes' log :
  NoDup (Source.id <$> sourceModels) →
  enrichOnly steps →
  Forall batchKeepsAll (batch steps) →
  processor sourceModels structure hashes0 steps
  = Js.Ok (out, hashes', log) →
  id <$> Output.models out
  ≡ₚ foldl Js.setAdd
       (Source.id
          <$> filter (λ m, isPushed (id <$> Output.models structure)
                             hashes0 steps m = true) sourceModels)
       (id <$> Output.models structure).
Proof.
  intros Hnd Hsteps Hbatch
    (st & batched & log1 & Hloop & Hb & Hout & ->)%processor_Ok.
  destruct (loop_state _ _ _ _ _ _ Hnd Hloop) as (_ & _ & _ & Hpushed).
  apply applyOutputStructure_Ok in Hout as (_ & _ & _ & Hmodels).
  rewrite Hmodels by apply Hsteps. cbn [Output.models].
  rewrite sort_Permutation, addBack_fold_ids, markedCatalog_ids.
  by rewrite (applyBatch_keepsAll _ _ _ _ _ _ Hbatch Hb), Hpushed.
Qed.

(** X15.  When the batch steps give back the records they are given, the
    catalog after a run over source models with distinct ids has one
    record for every id: its ids are distinct, and they are the ids of
    the catalog before the run together with the ids of the source
    models.  No id leaves the catalog. *)
Theorem catalog_has_every_id_once
  (sourceModels : list Source.ModelInformation)
  (structure out : Output.OutputStructure)
  (hashes0 hashes' : gmap string string) (steps : Steps)
  (log : list Call) :
  NoDup (Source.id <$> sourceModels) →
  enrichOnly steps →
  Forall batchKeepsAll (batch steps) →
  processor sourceModels structure hashes0 steps
  = Js.Ok (out, hashes', log) →
  NoDup (id <$> Output.models out)
  ∧ ∀ i, i ∈ id <$> Output.models out
         ↔ i ∈ id <$> Output.models structure
           ∨ i ∈ Source.id <$> sourceModels.
Proof.
  intros Hnd Hsteps Hbatch Hrun.
  pose proof (output_ids _ _ _ _ _ _ _ Hnd Hsteps Hbatch Hrun) as Hids.
  split.
  - rewrite Hids. apply NoDup_foldl_setAdd.
    eapply sublist_NoDup; [exact Hnd|].
    apply fmap_sublist, sublist_filter.
  - intros i. rewrite Hids, elem_of_foldl_setAdd. split.
    + intros [(m & -> & [_ Hm]%list_elem_of_filter)%list_elem_of_fmap|Hi].
      * right. by apply list_elem_of_fmap_2.
      * by left.
    + intros [Hi|(m & -> & Hm)%list_elem_of_fmap]; [by right|].
      destruct (isPushed (id <$> Output.models structure) hashes0 steps m)
        eqn:Hpushed.
      * left. apply list_elem_of_fmap_2. by apply list_elem_of_filter.
      * right. unfold Rerun.isPushed, Contract.isUnchanged in Hpushed.
        apply orb_false_iff in Hpushed as [Hunchanged _].
        apply negb_false_iff, andb_true_iff in Hunchanged as [Hknown _].
        by apply bool_decide_eq_true in Hknown.
Qed.

(** X16.  When [localeCompare] puts any two ids in an order, the models of
    the catalog that a run writes stand in that order of their ids. *)
Theorem catalog_is_sorted_by_id
  (sourceModels : list Source.ModelInformation)
  (structure out : Output.OutputStructure)
  (hashes0 hashes' : gmap string string) (steps : Steps)
  (log : list Call) :
  ordersAll localeCompare →
  Forall keepsModels (outputStructure steps) →
  processor sourceModels structure hashes0 steps
  = Js.Ok (out, hashes', log) →
  sortedById localeCompare (Output.models out).
Proof.
  intros Htotal Hsteps
    (st & batched & log1 & _ & _ & Hout & _)%processor_Ok.
  apply applyOutputStructure_Ok in Hout as (_ & _ & _ & Hmodels).
  rewrite Hmodels by done. cbn [Output.models].
  apply (sort_Sorted (λ a b, localeCompare (id a) (id b))).
  intros a b. apply Htotal.
Qed.

(** *** A second run *)

Lemma loop_all_unchanged existingModels existingModelIds steps
  sourceModels hashes0 st :
  (∀ m, m ∈ sourceModels →
     isUnchanged existingModelIds hashes0 m = true) →
  Js.forOf (processModel existingModels existingModelIds steps)
    sourceModels
    {| hashes := hashes0; newModelsList := []; calls := []; clock := 0 |}
  = Js.Ok st →
  hashes st = hashes0
  ∧ Forall (λ call, ∃ j m e, call = CallNoChange j m e) (calls st)
  ∧ (noChange steps = [] → newModelsList st = []).
Proof.
  intros Hall.
  apply (forOf_invariant _
           (λ _ st,
              hashes st = hashes0
              ∧ Forall (λ call, ∃ j m e, call = CallNoChange j m e)
                  (calls st)
              ∧ (noChange steps = [] → newModelsList st = []))).
  { by split_and!. }
  intros pre x s s' [rest Hpre] (IHh & IHc & IHn) Hstep.
  assert (x ∈ sourceModels) as Hx.
  { rewrite Hpre, <- app_assoc. apply elem_of_app. right.
    apply list_elem_of_here. }
  apply processModel_Ok in Hstep
    as (added & pushed & -> & -> & _ & Hcase).
  rewrite IHh, (Hall _ Hx) in Hcase.
  destruct Hcase as (-> & Hadded & Hnone). split_and!.
  - done.
  - apply Forall_app. split; [done|].
    eapply Forall_impl; [exact Hadded|].
    intros call (j & e & ->). eauto.
  - intros Hno. destruct (Hnone Hno) as [-> _].
    by rewrite IHn.
Qed.

Lemma sources_are_unchanged sourceModels structure hashes0 steps out
  hashes' log :
  NoDup (Source.id <$> sourceModels) →
  (∀ m, m ∈ sourceModels → canBeStored hashes0 m) →
  enrichOnly steps →
  Forall batchKeepsAll (batch steps) →
  processor sourceModels structure hashes0 steps
  = Js.Ok (out, hashes', log) →
  ∀ m, m ∈ sourceModels →
    isUnchanged (id <$> Output.models out) hashes' m = true.
Proof.
  intros Hnd Hown Hsteps Hbatch Hrun m Hm.
  pose proof (output_ids _ _ _ _ _ _ _ Hnd Hsteps Hbatch Hrun) as Hids.
  apply processor_Ok in Hrun
    as (st & batched & log1 & Hloop & _ & _ & ->).
  destruct (loop_state _ _ _ _ _ _ Hnd Hloop) as (_ & Hmodels & _).
  unfold Contract.isUnchanged. apply andb_true_iff. split.
  - apply bool_decide_eq_true. rewrite Hids, elem_of_foldl_setAdd.
    destruct (isPushed (id <$> Output.models structure) hashes0 steps m)
      eqn:Hpushed.
    + left. apply list_elem_of_fmap_2. by apply list_elem_of_filter.
    + right. unfold Rerun.isPushed, Contract.isUnchanged in Hpushed.
      apply orb_false_iff in Hpushed as [Hunchanged _].
      apply negb_false_iff, andb_true_iff in Hunchanged as [Hknown _].
      by apply bool_decide_eq_true in Hknown.
  - apply isString_true. apply Hmodels; [done|]. by apply Hown.
Qed.

(** X17.  Let the source models have distinct ids, none of them
    [__proto__] (unless the table of the hashes has an entry of its own
    under that name), let the steps keep to their contract (the steps for
    one model and the batch steps give back records under the ids they
    were given, the steps for the output structure keep the list of the
    models) and let every batch step give back all the records it was
    given.  Then a run that follows a run, over the same source models and
    on the catalog and the hashes that the first run has written, takes
    every source model as unchanged: it calls no step for new and changed
    models, and it leaves the hashes as they are. *)
Theorem second_run_enriches_nothing
  (sourceModels : list Source.ModelInformation)
  (structure out out2 : Output.OutputStructure)
  (hashes0 hashes' hashes'' : gmap string string) (steps : Steps)
  (log log2 : list Call) :
  NoDup (Source.id <$> sourceModels) →
  (∀ m, m ∈ sourceModels → canBeStored hashes0 m) →
  enrichOnly steps →
  Forall batchKeepsAll (batch steps) →
  processor sourceModels structure hashes0 steps
  = Js.Ok (out, hashes', log) →
  processor sourceModels out hashes' steps
  = Js.Ok (out2, hashes'', log2) →
  hashes'' = hashes'
  ∧ ∀ j sourceModel existingModel newModel,
      CallNewAndChanged j sourceModel existingModel newModel ∉ log2.
Proof.
  intros Hnd Hown Hsteps Hbatch Hrun Hrun2.
  pose proof (sources_are_unchanged _ _ _ _ _ _ _ Hnd Hown Hsteps Hbatch
                Hrun) as Hall.
  apply processor_Ok in Hrun2
    as (st & batched & log1 & Hloop & Hb & Hout & ->).
  apply (loop_all_unchanged _ _ _ _ _ _ Hall) in Hloop
    as (Hh & Hcalls & _).
  split; [done|]. intros j s e nm Hin.
  apply applyBatch_Ok in Hb as (added & -> & Hadded & _).
  apply applyOutputStructure_Ok in Hout as (added' & -> & Hadded' & _).
  rewrite Forall_forall in Hcalls, Hadded, Hadded'.
  apply elem_of_app in Hin as [[Hin|Hin]%elem_of_app|Hin].
  - by destruct (Hcalls _ Hin) as (? & ? & ? & ?).
  - by destruct (Hadded _ Hin) as (? & ? & ? & _).
  - by destruct (Hadded' _ Hin) as (? & ? & ?).
Qed.

Lemma missing_records_are_marked sourceModels structure hashes0 steps out
  hashes' log r :
  enrichOnly steps →
  processor sourceModels structure hashes0 steps
  = Js.Ok (out, hashes', log) →
  r ∈ Output.models out →
  id r ∉ Source.id <$> sourceModels →
  deprecated r = Some true.
Proof.
  intros Hsteps (st & batched & log1 & Hloop & Hb & Hout & _)%processor_Ok
    Hin Hmissing.
  apply applyOutputStructure_Ok in Hout as (_ & _ & _ & Hmodels).
  rewrite Hmodels in Hin by apply Hsteps. cbn [Output.models] in Hin.
  apply elem_of_sort, addBack_fold_inv in Hin as [Hin|[Hfind _]].
  - exfalso. apply Hmissing.
    apply applyBatch_Ok in Hb as (_ & _ & _ & Hsub & _).
    destruct (calls_carry_source_ids _ _ _ _ _ _ _ _ _ _ Hsteps Hloop
                eq_refl eq_refl) as [_ Hnew].
    apply Hnew, Hsub; [apply Hsteps|]. by apply list_elem_of_fmap_2.
  - destruct (findModel (id r) (Output.models structure)) as [r0|] eqn:H0.
    + rewrite (marked_missing _ _ _ _ Hmissing H0) in Hfind.
      by injection Hfind as <-.
    + apply findModel_None in H0. apply findModel_Some in Hfind as [_ Hr].
      exfalso. apply H0. rewrite <- markedCatalog_ids with (sourceModels := sourceModels).
      by apply list_elem_of_fmap_2.
Qed.

(** X18.  Let the source models have distinct ids, none of them
    [__proto__] (unless the table of the hashes has an entry of its own
    under that name), let [localeCompare] put any two ids in an order, let
    the steps keep to their contract (the steps for one model and the
    batch steps give back records under the ids they were given, the
    steps for the output structure keep the list of the models), let
    every batch step give back all the records it was given, and let no
    step be registered for the models that have not changed.  Then a run
    that follows a run, over the same source models and on the catalog
    and the hashes that the first run has written, writes the models of
    the catalog as they are: the same records in the same order. *)
Theorem second_run_reproduces_the_models
  (sourceModels : list Source.ModelInformation)
  (structure out out2 : Output.OutputStructure)
  (hashes0 hashes' hashes'' : gmap string string) (steps : Steps)
  (log log2 : list Call) :
  NoDup (Source.id <$> sourceModels) →
  (∀ m, m ∈ sourceModels → canBeStored hashes0 m) →
  ordersAll localeCompare →
  enrichOnly steps →
  Forall batchKeepsAll (batch steps) →
  noChange steps = [] →
  processor sourceModels structure hashes0 steps
  = Js.Ok (out, hashes', log) →
  processor sourceModels out hashes' steps
  = Js.Ok (out2, hashes'', log2) →
  Output.models out2 = Output.models out.
Proof.
  intros Hnd Hown Htotal Hsteps Hbatch Hno Hrun Hrun2.
  pose proof (sources_are_unchanged _ _ _ _ _ _ _ Hnd Hown Hsteps Hbatch
                Hrun) as Hall.
  assert (NoDup (id <$> Output.models out)) as Hdistinct.
  { rewrite (output_ids _ _ _ _ _ _ _ Hnd Hsteps Hbatch Hrun).
    apply NoDup_foldl_setAdd.
    eapply sublist_NoDup; [exact Hnd|].
    apply fmap_sublist, sublist_filter. }
  assert (sortedById localeCompare (Output.models out)) as Hsorted.
  { apply processor_Ok in Hrun
      as (st & batched & log1 & _ & _ & Hout & _).
    apply applyOutputStructure_Ok in Hout as (_ & _ & _ & Hmodels).
    rewrite Hmodels by apply Hsteps. cbn [Output.models].
    apply (sort_Sorted (λ a b, localeCompare (id a) (id b))).
    intros a b. apply Htotal. }
  assert (markedCatalog sourceModels out = Output.models out) as Hmarked.
  { apply markDeprecated_fold_marked.
    intros r Hin [Hmissing _]%list_elem_of_filter.
    exact (missing_records_are_marked _ _ _ _ _ _ _ _ Hsteps Hrun Hin
             Hmissing). }
  apply processor_Ok in Hrun2
    as (st & batched & log1 & Hloop & Hb & Hout & _).
  apply (loop_all_unchanged _ _ _ _ _ _ Hall) in Hloop as (_ & _ & Hnew).
  rewrite (Hnew Hno) in Hb.
  apply (applyBatch_keepsAll _ _ _ _ _ _ Hbatch) in Hb.
  apply fmap_nil_inv in Hb as ->.
  apply applyOutputStructure_Ok in Hout as (_ & _ & _ & Hmodels).
  rewrite Hmodels by apply Hsteps. cbn [Output.models].
  rewrite Hmarked, addBack_fold_distinct by done.
  by apply (sort_of_Sorted (λ a b, localeCompare (id a) (id b))).
Qed.

End WithBuiltins.

End RunFacts.

(** ** Two runs on the sample catalog *)

Module RunFactsExamples.
Import Processed Processor Contract Rerun.

Example second_run_of_the_sample :
  Sample.processor Sample.sources Sample.run.1.1 Sample.run.1.2 Sample.steps
  = Js.Ok SecondRun.run
  ∧ SecondRun.run.1.1 = Sample.run.1.1
  ∧ SecondRun.run.1.2 = Sample.run.1.2
  ∧ length SecondRun.run.2 = 2.
Proof. repeat split; vm_compute; reflexivity. Qed.

(** Nothing is stored under [__proto__]: the run over a source model of
    that id leaves the table of the hashes empty, and the run that follows
    it takes the model as changed and calls the step for new and changed
    models again. *)
Example nothing_is_stored_under_proto :
  Sample.processor [SecondRun.inherited] Sample.emptyRun.1.1 ∅ Sample.steps
  = Js.Ok SecondRun.inheritedRun
  ∧ SecondRun.inheritedRun.1.2 = ∅
  ∧ (id <$> Output.models SecondRun.inheritedRun.1.1) = ["__proto__"]
  ∧ Sample.processor [SecondRun.inherited] SecondRun.inheritedRun.1.1
      SecondRun.inheritedRun.1.2 Sample.steps
    = Js.Ok SecondRun.inheritedSecondRun
  ∧ isUnchanged Builtins.plainDigest Builtins.plainStringify Js.byCodeUnits
      (id <$> Output.models SecondRun.inheritedRun.1.1)
      SecondRun.inheritedRun.1.2 SecondRun.inherited
    = false
  ∧ ∃ existingModel newModel,
      CallNewAndChanged 0 SecondRun.inherited existingModel newModel
        ∈ SecondRun.inheritedSecondRun.2.
Proof.
  split_and!; [vm_compute; reflexivity..|].
  eexists _, _. apply list_elem_of_here.
Qed.

Lemma byCodeUnits_ordersAll : ordersAll Js.byCodeUnits.
Proof.
  intros a b. unfold Js.byCodeUnits.
  rewrite (String.compare_antisym a b).
  by destruct (String.compare b a).
Defined.

Lemma steps_batchKeepsAll : Forall batchKeepsAll (batch Sample.steps).
Proof.
  apply Forall_cons. split; [|apply Forall_nil_2].
  by intros models models' [= <-].
Defined.

Lemma sources_canBeStored hashes :
  ∀ m, m ∈ Sample.sources → canBeStored hashes m.
Proof.
  intros m Hin. unfold Sample.sources in Hin.
  repeat (apply elem_of_cons in Hin as [->|Hin]);
    [| |by apply elem_of_nil in Hin]; intros [=].
Defined.

Lemma stored_hashes_witness :
  (∀ m, m ∈ Sample.sources → canBeStored Sample.storedHashes m →
     existingHash Sample.run.1.2 m
     = Js.StringValue (Sample.calculateModelHash m))
  ∧ (Sample.storedHashes !! "__proto__" = None →
     Sample.run.1.2 !! "__proto__" = None)
  ∧ ∀ i, i ∉ Source.id <$> Sample.sources →
         Sample.run.1.2 !! i = Sample.storedHashes !! i.
Proof.
  apply (RunFacts.stored_hashes_are_those_of_the_sources
           Builtins.plainDigest Builtins.plainStringify Js.byCodeUnits
           Builtins.clockReading Sample.sources Sample.catalog
           Sample.run.1.1 Sample.storedHashes Sample.run.1.2 Sample.steps
           Sample.run.2).
  - exact RunExamples.sources_NoDup.
  - vm_compute. reflexivity.
Defined.

Lemma catalog_has_every_id_once_witness :
  NoDup (id <$> Output.models Sample.run.1.1)
  ∧ ∀ i, i ∈ id <$> Output.models Sample.run.1.1
         ↔ i ∈ id <$> Output.models Sample.catalog
           ∨ i ∈ Source.id <$> Sample.sources.
Proof.
  apply (RunFacts.catalog_has_every_id_once
           Builtins.plainDigest Builtins.plainStringify Js.byCodeUnits
           Builtins.clockReading Sample.sources Sample.catalog
           Sample.run.1.1 Sample.storedHashes Sample.run.1.2 Sample.steps
           Sample.run.2).
  - exact RunExamples.sources_NoDup.
  - exact RunExamples.steps_enrichOnly.
  - exact steps_batchKeepsAll.
  - vm_compute. reflexivity.
Defined.

Lemma catalog_is_sorted_witness :
  sortedById Js.byCodeUnits (Output.models Sample.run.1.1).
Proof.
  apply (RunFacts.catalog_is_sorted_by_id
           Builtins.plainDigest Builtins.plainStringify Js.byCodeUnits
           Builtins.clockReading Sample.sources Sample.catalog
           Sample.run.1.1 Sample.storedHashes Sample.run.1.2 Sample.steps
           Sample.run.2).
  - exact byCodeUnits_ordersAll.
  - apply RunExamples.steps_enrichOnly.
  - vm_compute. reflexivity.
Defined.

Lemma second_run_enriches_nothing_witness :
  SecondRun.run.1.2 = Sample.run.1.2
  ∧ ∀ j sourceModel existingModel newModel,
      CallNewAndChanged j sourceModel existingModel newModel
        ∉ SecondRun.run.2.
Proof.
  apply (RunFacts.second_run_enriches_nothing
           Builtins.plainDigest Builtins.plainStringify Js.byCodeUnits
           Builtins.clockReading Sample.sources Sample.catalog
           Sample.run.1.1 SecondRun.run.1.1 Sample.storedHashes
           Sample.run.1.2 SecondRun.run.1.2 Sample.steps Sample.run.2
           SecondRun.run.2).
  - exact RunExamples.sources_NoDup.
  - exact (sources_canBeStored _).
  - exact RunExamples.steps_enrichOnly.
  - exact steps_batchKeepsAll.
  - vm_compute. reflexivity.
  - vm_compute. reflexivity.
Defined.

Lemma second_run_reproduces_the_models_witness :
  Output.models SecondRun.run.1.1 = Output.models Sample.run.1.1.
Proof.
  apply (RunFacts.second_run_reproduces_the_models
           Builtins.plainDigest Builtins.plainStringify Js.byCodeUnits
           Builtins.clockReading Sample.sources Sample.catalog
           Sample.run.1.1 SecondRun.run.1.1 Sample.storedHashes
           Sample.run.1.2 SecondRun.run.1.2 Sample.steps Sample.run.2
           SecondRun.run.2).
  - exact RunExamples.sources_NoDup.
  - exact (sources_canBeStored _).
  - exact byCodeUnits_ordersAll.
  - exact RunExamples.steps_enrichOnly.
  - exact steps_batchKeepsAll.
  - reflexivity.
  - vm_compute. reflexivity.
  - vm_compute. reflexivity.
Defined.
End RunFactsExamples.

(** ** The hash of a source model *)

From Stdlib Require OrderedTypeEx.
From stdpp Require sorting.

Module HashFacts.
Import Processor JsFacts RunFacts.

Local Abbreviation inOrder := (λ a b : string, (Js.byCodeUnits a b ≤ 0)%Z).

Lemma inOrder_compare a b : inOrder a b ↔ String.compare a b ≠ Gt.
Proof. unfold Js.byCodeUnits. by destruct (String.compare a b). Qed.

#[local] Instance inOrder_antisym : AntiSymm (=) inOrder.
Proof.
  intros a b Hab%inOrder_compare Hba%inOrder_compare.
  apply String.compare_eq_iff.
  rewrite String.compare_antisym in Hba.
  by destruct (String.compare a b).
Qed.

#[local] Instance inOrder_trans : Transitive inOrder.
Proof.
  intros a b c Hab%inOrder_compare Hbc%inOrder_compare.
  apply inOrder_compare.
  destruct (String.compare a b) eqn:Hab'; [|clear Hab|done].
  - by apply String.compare_eq_iff in Hab' as ->.
  - destruct (String.compare b c) eqn:Hbc'; [| |done].
    + by apply String.compare_eq_iff in Hbc' as <-; rewrite Hab'.
    + apply OrderedTypeEx.String_as_OT.cmp_lt in Hab', Hbc'.
      pose proof (OrderedTypeEx.String_as_OT.lt_trans _ _ _ Hab' Hbc') as H.
      apply OrderedTypeEx.String_as_OT.cmp_lt in H.
      unfold OrderedTypeEx.String_as_OT.cmp in H. by rewrite H.
Qed.

Lemma byCodeUnits_total a b :
  (0 < Js.byCodeUnits a b)%Z → (Js.byCodeUnits b a ≤ 0)%Z.
Proof.
  unfold Js.byCodeUnits. rewrite (String.compare_antisym a b).
  by destruct (String.compare b a).
Qed.

(** [xs.sort()] does not depend on the order of [xs]. *)
Lemma sort_byCodeUnits_Permutation xs ys :
  xs ≡ₚ ys → Js.sort Js.byCodeUnits xs = Js.sort Js.byCodeUnits ys.
Proof.
  intros Hperm. apply (sorting.StronglySorted_unique inOrder).
  - apply sorting.Sorted_StronglySorted; [apply _|].
    apply sort_Sorted, byCodeUnits_total.
  - apply sorting.Sorted_StronglySorted; [apply _|].
    apply sort_Sorted, byCodeUnits_total.
  - by rewrite !sort_Permutation.
Qed.

Section WithBuiltins.
Variable sha256 : string → string.
Variable stringify : Source.ModelInformation → string.
Variable localeCompare : string → string → Z.

Local Abbreviation calculateModelHash :=
  (Processor.calculateModelHash sha256 stringify localeCompare).

(** X19.  The hash of a source model does not depend on the order of its
    aliases: a model that comes with its aliases in another order has the
    hash it had, and the processor takes it as unchanged. *)
Theorem hash_ignores_the_order_of_the_aliases
  (model : Source.ModelInformation) (aliases : list string)
  (existingModelIds : list string) (hashes : gmap string string) :
  aliases ≡ₚ Source.aliases model →
  calculateModelHash (Source.setAliases aliases model)
  = calculateModelHash model
  ∧ Contract.isUnchanged sha256 stringify localeCompare existingModelIds
      hashes (Source.setAliases aliases model)
    = Contract.isUnchanged sha256 stringify localeCompare existingModelIds
        hashes model.
Proof.
  intros Hperm.
  assert (calculateModelHash (Source.setAliases aliases model)
          = calculateModelHash model) as Hhash.
  { unfold Processor.calculateModelHash.
    cbn [Source.aliases Source.providers Source.setAliases
           Source.setProviders Source.id Source.name Source.description
           Source.input Source.output Source.reasoning Source.openWeights
           Source.toolCalling Source.knowledge Source.parameters
           Source.defaultParameters Source.freeProviders].
    by rewrite (sort_byCodeUnits_Permutation _ _ Hperm). }
  split; [done|]. unfold Contract.isUnchanged. by rewrite Hhash.
Qed.

End WithBuiltins.
End HashFacts.

Module HashFactsExamples.

Lemma hash_ignores_the_order_witness :
  Sample.calculateModelHash
    (Source.setAliases ["gpt-4"; "openai/gpt-4"]
       (Sample.model "gpt-4" ["openai/gpt-4"; "gpt-4"] None []))
  = Sample.calculateModelHash
      (Sample.model "gpt-4" ["openai/gpt-4"; "gpt-4"] None [])
  ∧ Contract.isUnchanged Builtins.plainDigest Builtins.plainStringify
      Js.byCodeUnits ["gpt-4"] ∅
      (Source.setAliases ["gpt-4"; "openai/gpt-4"]
         (Sample.model "gpt-4" ["openai/gpt-4"; "gpt-4"] None []))
    = Contract.isUnchanged Builtins.plainDigest Builtins.plainStringify
        Js.byCodeUnits ["gpt-4"] ∅
        (Sample.model "gpt-4" ["openai/gpt-4"; "gpt-4"] None []).
Proof.
  apply (HashFacts.hash_ignores_the_order_of_the_aliases
           Builtins.plainDigest Builtins.plainStringify Js.byCodeUnits).
  apply Permutation_swap.
Defined.
End HashFactsExamples.

(** ** Properties of the ids ([util.ts]) *)

Module UtilFacts.
Import Util.

Lemma split_cons separator s :
  ∃ part parts, split separator s = part :: parts.
Proof.
  destruct s as [|c s]; [by eexists _, _|]. cbn [split].
  destruct (Ascii.eqb c separator); [by eexists _, _|].
  destruct (split separator s); by eexists _, _.
Qed.

Lemma concat_cons (c : ascii) separator part parts :
  String.concat separator (String c part :: parts)
  = String c (String.concat separator (part :: parts)).
Proof. by destruct parts. Qed.

(** [s.split('/').join('/')] is [s]. *)
Lemma join_split (separator : ascii) s :
  join (String separator EmptyString) (split separator s) = s.
Proof.
  unfold join. induction s as [|c s IH]; [done|]. cbn [split].
  destruct (Ascii.eqb_spec c separator) as [->|Hne].
  - destruct (split_cons separator s) as (part & parts & Hs).
    rewrite Hs in IH |- *.
    change (String.concat (String separator "") ("" :: part :: parts))
      with ("" ++ String separator ""
            ++ String.concat (String separator "") (part :: parts))%string.
    by rewrite IH.
  - destruct (split_cons separator s) as (part & parts & Hs).
    rewrite Hs in IH |- *. by rewrite concat_cons, IH.
Qed.

Lemma append_nil (s : string) : ("" ++ s)%string = s.
Proof. done. Qed.

Lemma append_cons (c : ascii) (a b : string) :
  (String c a ++ b)%string = String c (a ++ b)%string.
Proof. done. Qed.

Lemma append_assoc (a b c : string) :
  ((a ++ b) ++ c)%string = (a ++ b ++ c)%string.
Proof.
  induction a as [|x a IH]; [done|]. by rewrite !append_cons, IH.
Qed.

Lemma split_app (separator : ascii) a b :
  split separator (a ++ String separator b)
  = (split separator a ++ split separator b)%list.
Proof.
  induction a as [|c a IH]; rewrite ?append_nil, ?append_cons; cbn [split].
  - by rewrite Ascii.eqb_refl.
  - destruct (Ascii.eqb c separator); [by rewrite IH|].
    rewrite IH. by destruct (split_cons separator a) as (part & parts & ->).
Qed.

Lemma includes_cons (c x : ascii) s :
  includes (String x s) (String c EmptyString)
  = Ascii.eqb c x || includes s (String c EmptyString).
Proof.
  unfold includes. cbn [somewhere String.prefix].
  destruct (Ascii.ascii_dec c x) as [->|Hne].
  - rewrite Ascii.eqb_refl. by destruct s.
  - by apply Ascii.eqb_neq in Hne as ->.
Qed.

Lemma split_without (separator : ascii) s :
  includes s (String separator EmptyString) = false →
  split separator s = [s].
Proof.
  induction s as [|c s IH]; [done|].
  rewrite includes_cons, orb_false_iff. intros [Hc Hs]. cbn [split].
  rewrite Ascii.eqb_sym, Hc. by rewrite IH.
Qed.

Lemma split_parts (separator : ascii) s part :
  part ∈ split separator s →
  includes part (String separator EmptyString) = false.
Proof.
  revert part. induction s as [|c s IH]; intros part; cbn [split].
  - by intros ->%list_elem_of_singleton.
  - destruct (Ascii.eqb c separator) eqn:Hc.
    + intros [->|Hin]%elem_of_cons; [done|by apply IH].
    + destruct (split_cons separator s) as (p & ps & Hs).
      rewrite Hs in IH |- *.
      intros [->|Hin]%elem_of_cons.
      * rewrite includes_cons, Ascii.eqb_sym, Hc. apply IH, list_elem_of_here.
      * by apply IH, list_elem_of_further.
Qed.

Lemma last_app_cons {A} (l : list A) x k : last (l ++ x :: k) = last (x :: k).
Proof.
  induction l as [|y l IH]; [done|]. cbn [app].
  rewrite <- IH. by destruct l.
Qed.

(** The base id: the last of the parts. *)
Lemma getModelBaseId_last modelId :
  last (split "/" modelId) = Some (getModelBaseId modelId).
Proof.
  unfold getModelBaseId.
  pose proof (join_split "/" modelId) as Hjoin.
  destruct (split "/" modelId) as [|part [|part' parts]] eqn:Hs.
  - by destruct (split_cons "/" modelId) as (? & ? & ?); simplify_eq.
  - cbn in Hjoin |- *. by subst.
  - cbn [length Nat.leb].
    destruct (last (part :: part' :: parts)) eqn:Hlast; [done|].
    by apply last_None in Hlast.
Qed.

(** X20.  The base id of a model id is what follows its last slash: the
    base id of [namespace/model] is the base id of [model], an id without a
    slash is its own base id, and no base id has a slash. *)
Theorem base_id_is_what_follows_the_last_slash
  (namespace model : string) :
  getModelBaseId (namespace ++ "/" ++ model) = getModelBaseId model
  ∧ (includes model "/" = false → getModelBaseId model = model)
  ∧ includes (getModelBaseId model) "/" = false.
Proof.
  split_and!.
  - apply (inj Some). rewrite <- !getModelBaseId_last.
    change (namespace ++ "/" ++ model)%string
      with (namespace ++ String "/" model)%string.
    rewrite split_app.
    destruct (split_cons "/" model) as (part & parts & ->).
    apply last_app_cons.
  - intros Hnone. apply (inj Some).
    by rewrite <- getModelBaseId_last, split_without.
  - apply (split_parts "/" model). apply last_Some_elem_of.
    apply getModelBaseId_last.
Qed.

(** [removeModelidNamespace] takes the first namespace off and
    nothing else: [namespace/rest] becomes [rest] when the namespace has no
    slash, an id without a slash stays, and the base id is not changed. *)
Theorem one_namespace_is_removed (namespace rest modelId : string) :
  (includes namespace "/" = false →
   removeModelidNamespace (namespace ++ "/" ++ rest) = rest)
  ∧ (includes modelId "/" = false → removeModelidNamespace modelId = modelId)
  ∧ getModelBaseId (removeModelidNamespace modelId) = getModelBaseId modelId.
Proof.
  split_and!.
  - intros Hnone. unfold removeModelidNamespace.
    change (namespace ++ "/" ++ rest)%string
      with (namespace ++ String "/" rest)%string.
    rewrite split_app, (split_without "/" namespace) by done.
    destruct (split_cons "/" rest) as (part & parts & Hs). rewrite Hs.
    cbn [app length Nat.leb tail]. rewrite <- Hs. apply join_split.
  - intros Hnone. unfold removeModelidNamespace.
    by rewrite split_without.
  - unfold removeModelidNamespace.
    pose proof (join_split "/" modelId) as Hjoin.
    destruct (split "/" modelId) as [|part [|part' parts]] eqn:Hs; [done..|].
    cbn [length Nat.leb tail].
    apply (inj Some). rewrite <- !getModelBaseId_last, Hs.
    assert (split "/" (join "/" (part' :: parts)) = part' :: parts) as ->.
    { assert (includes part "/" = false) as Hpart.
      { apply (split_parts "/" modelId). rewrite Hs. apply list_elem_of_here. }
      rewrite <- Hjoin in Hs.
      change (join "/" (part :: part' :: parts))
        with (part ++ String "/" (join "/" (part' :: parts)))%string in Hs.
      rewrite split_app, (split_without "/" part) in Hs by done.
      by injection Hs. }
    by destruct parts.
Qed.

(** *** Junk ids *)

Lemma somewhere_here (matchesHere : string → bool) s :
  matchesHere s = true → somewhere matchesHere s = true.
Proof. intros H. destruct s; cbn [somewhere]; by rewrite H. Qed.

Lemma somewhere_app_l (matchesHere : string → bool) before s :
  somewhere matchesHere s = true →
  somewhere matchesHere (before ++ s) = true.
Proof.
  intros Hs. induction before as [|c before IH]; [done|].
  rewrite append_cons. cbn [somewhere]. rewrite IH. apply orb_true_r.
Qed.

Lemma somewhere_app_r (matchesHere : string → bool) s after :
  (∀ u, matchesHere u = true → matchesHere (u ++ after)%string = true) →
  somewhere matchesHere s = true →
  somewhere matchesHere (s ++ after) = true.
Proof.
  intros Hmono. induction s as [|c s IH].
  - cbn [somewhere]. rewrite orb_false_r. intros H%Hmono.
    by apply somewhere_here.
  - rewrite append_cons. cbn [somewhere].
    intros [H%Hmono|H%IH]%orb_true_iff.
    + by rewrite append_cons in H; rewrite H.
    + rewrite H. apply orb_true_r.
Qed.

Lemma matchClasses_app classes s rest after :
  matchClasses classes s = Some rest →
  matchClasses classes (s ++ after) = Some (rest ++ after)%string.
Proof.
  revert s. induction classes as [|class classes IH]; intros s.
  - by intros [= ->].
  - destruct s as [|c s]; [done|]. rewrite append_cons. cbn [matchClasses].
    destruct (class c); [apply IH|done].
Qed.

Lemma dotOrEnd_app rest after :
  dotOrEnd rest = true →
  isLineTerminator after = false →
  Texts.beginsCharacter after = true →
  dotOrEnd (rest ++ after) = true.
Proof.
  intros Hrest Hafter Hbegins.
  destruct rest as [|c rest].
  { change ("" ++ after)%string with after.
    destruct after; [done|]. unfold dotOrEnd. by rewrite Hafter. }
  rewrite append_cons. unfold dotOrEnd in *.
  apply negb_true_iff in Hrest. apply negb_true_iff.
  cbn [isLineTerminator] in *.
  apply orb_false_iff in Hrest as [Hbreak Hseparator].
  rewrite Hbreak. cbn [orb].
  destruct (nat_of_ascii c =? 226)%nat; [|done]. cbn [andb] in *.
  destruct rest as [|c1 [|c2 rest]].
  - change ("" ++ after)%string with after.
    destruct after as [|a [|b after]]; [done..|].
    cbn [Texts.beginsCharacter] in Hbegins.
    destruct (Nat.eqb_spec (nat_of_ascii a) 128) as [Ha|]; [|done].
    rewrite Ha in Hbegins. done.
  - rewrite append_cons. change ("" ++ after)%string with after.
    destruct after as [|b after]; [done|].
    cbn [Texts.beginsCharacter] in Hbegins.
    destruct (nat_of_ascii c1 =? 128)%nat; [|done]. cbn [andb].
    destruct (Nat.eqb_spec (nat_of_ascii b) 168) as [Hb|].
    { rewrite Hb in Hbegins. done. }
    destruct (Nat.eqb_spec (nat_of_ascii b) 169) as [Hb|]; [|done].
    rewrite Hb in Hbegins. done.
  - by rewrite !append_cons.
Qed.

Lemma prefix_app part u after :
  String.prefix part u = true → String.prefix part (u ++ after) = true.
Proof.
  revert u. induction part as [|c part IH]; intros u.
  { intros _. by destruct (u ++ after)%string. }
  destruct u as [|x u]; [done|]. rewrite append_cons.
  cbn [String.prefix]. destruct (Ascii.ascii_dec c x); [apply IH|done].
Qed.

Lemma toLowerCase_app a b :
  Js.toLowerCase (a ++ b) = (Js.toLowerCase a ++ Js.toLowerCase b)%string.
Proof.
  induction a as [|c a IH]; [done|].
  rewrite append_cons. cbn [Js.toLowerCase]. by rewrite IH.
Qed.

Lemma isJunkModelId_prefix before modelId :
  isJunkModelId modelId = true →
  isJunkModelId (before ++ modelId) = true.
Proof.
  unfold isJunkModelId, includes. rewrite !orb_true_iff, !toLowerCase_app.
  intros [[[[[H|H]|H]|H]|H]|H].
  - do 5 left. by apply somewhere_app_l.
  - do 4 left. right. by apply somewhere_app_l.
  - do 3 left. right. by apply somewhere_app_l.
  - do 2 left. right. by apply somewhere_app_l.
  - left. right. by apply somewhere_app_l.
  - right. by apply somewhere_app_l.
Qed.

Lemma isJunkModelId_suffix modelId after :
  isLineTerminator after = false →
  Texts.beginsCharacter after = true →
  isJunkModelId modelId = true →
  isJunkModelId (modelId ++ after) = true.
Proof.
  intros Hafter Hbegins. unfold isJunkModelId, includes.
  rewrite !orb_true_iff, !toLowerCase_app.
  intros [[[[[H|H]|H]|H]|H]|H].
  - do 5 left. revert H. apply somewhere_app_r. unfold compactDate.
    intros u. destruct (matchClasses _ u) as [rest|] eqn:Hu; [|done].
    rewrite (matchClasses_app _ _ _ after Hu). intros Hrest.
    by apply dotOrEnd_app.
  - do 4 left. right. revert H. apply somewhere_app_r. unfold dashedDate.
    intros u. destruct (matchClasses _ u) as [rest|] eqn:Hu; [|done].
    rewrite (matchClasses_app _ _ _ after Hu). intros Hrest.
    by apply dotOrEnd_app.
  - do 3 left. right. revert H. apply somewhere_app_r. unfold monthAndYear.
    intros u [rest Hu]%bool_decide_eq_true. apply bool_decide_eq_true.
    by rewrite (matchClasses_app _ _ _ after Hu).
  - do 2 left. right. revert H. apply somewhere_app_r. unfold yearAndMonth.
    intros u [rest Hu]%bool_decide_eq_true. apply bool_decide_eq_true.
    by rewrite (matchClasses_app _ _ _ after Hu).
  - left. right. revert H. apply somewhere_app_r.
    intros u. apply prefix_app.
  - right. revert H. apply somewhere_app_r.
    intros u. apply prefix_app.
Qed.

Lemma concat_last parts base :
  last parts = Some base →
  ∃ before, String.concat "/" parts = (before ++ base)%string.
Proof.
  revert base. induction parts as [|part parts IH]; intros base; [done|].
  destruct parts as [|part' parts].
  - intros [= ->]. by exists "".
  - intros Hlast. destruct (IH base Hlast) as [before Hbefore].
    exists (part ++ "/" ++ before)%string.
    change (String.concat "/" (part :: part' :: parts))
      with (part ++ "/" ++ String.concat "/" (part' :: parts))%string.
    rewrite Hbefore. by rewrite !append_assoc.
Qed.

Lemma base_id_is_a_suffix modelId :
  ∃ before, modelId = (before ++ getModelBaseId modelId)%string.
Proof.
  destruct (concat_last _ _ (getModelBaseId_last modelId)) as [before H].
  exists before. rewrite <- H. symmetry. apply (join_split "/").
Qed.

(** X21.  An id stays a junk id when a text is put before it, and when a
    text that does not begin with a line terminator (a line feed, a
    carriage return or one of the separators U+2028 and U+2029) is put
    after it.  What is put after it is a text: it does not begin in the
    middle of a character. *)
Theorem junk_ids_stay_junk (before modelId after : string) :
  isJunkModelId modelId = true →
  isLineTerminator after = false →
  Texts.beginsCharacter after = true →
  isJunkModelId (before ++ modelId ++ after) = true.
Proof.
  intros Hjunk Hafter Hbegins.
  by apply isJunkModelId_prefix, isJunkModelId_suffix.
Qed.

(** X22.  The sources drop the models whose full id is a junk id and file
    the others under their base id: the base id of a model that is kept is
    no junk id either. *)
Theorem kept_models_have_clean_base_ids (modelId : string) :
  isJunkModelId modelId = false →
  isJunkModelId (getModelBaseId modelId) = false.
Proof.
  intros Hkept. destruct (base_id_is_a_suffix modelId) as [before Hid].
  destruct (isJunkModelId (getModelBaseId modelId)) eqn:Hbase; [|done].
  apply (isJunkModelId_prefix before) in Hbase. congruence.
Qed.

End UtilFacts.

(** ** The functions of [util.ts] on some ids *)

Module UtilFactsExamples.
Import Util.

Example ids_of_models :
  getModelBaseId "openai/gpt-4" = "gpt-4"
  ∧ getModelBaseId "gpt-4" = "gpt-4"
  ∧ getModelBaseId "a/b/" = ""
  ∧ removeModelidNamespace "provider/namespace/model" = "namespace/model"
  ∧ removeModelidNamespace "model" = "model"
  ∧ split "/" "a//b" = ["a"; ""; "b"]
  ∧ isJunkModelId "claude-3-opus@20240229" = true
  ∧ isJunkModelId "gpt-4o-2024-08-06" = true
  ∧ isJunkModelId "gpt-4-0125-preview" = true
  ∧ isJunkModelId "gpt-4-1106" = false
  ∧ isJunkModelId "kimi-k2-0905" = false
  ∧ isJunkModelId "model-2501" = true
  ∧ isJunkModelId "o1-10-24" = true
  ∧ isJunkModelId "Mistral-Large-Latest" = true
  ∧ isJunkModelId "gpt-4" = false
  ∧ isJunkModelId "llama-3.1-405b" = false.
Proof. vm_compute. done. Qed.

(** A date is taken for one at the end of the id and before any character
    but a line terminator. *)
Example dates_before_line_terminators :
  isJunkModelId "x-20231031" = true
  ∧ isJunkModelId "x-20231031abc" = true
  ∧ isJunkModelId ("x-20231031" ++ Texts.lineSeparator ++ "abc") = false
  ∧ isJunkModelId ("x-20231031" ++ Texts.paragraphSeparator ++ "abc")
    = false
  ∧ isJunkModelId "x-2023-05-11" = true
  ∧ isJunkModelId ("x-2023-05-11" ++ Texts.lineSeparator) = false
  ∧ isJunkModelId
      ("x-20231031" ++ String (ascii_of_nat 10) "abc") = false
  ∧ isJunkModelId
      ("x-20231031" ++ String (ascii_of_nat 13) "abc") = false
  ∧ isJunkModelId
      ("x-20231031" ++ String (ascii_of_nat 226) "abc") = true.
Proof. repeat split; vm_compute; reflexivity. Qed.

Lemma junk_ids_stay_junk_witness :
  isJunkModelId ("anthropic/" ++ "claude-3-opus@20240229" ++ ":beta") = true.
Proof.
  apply (UtilFacts.junk_ids_stay_junk "anthropic/" "claude-3-opus@20240229"
           ":beta"); reflexivity.
Defined.

Lemma kept_models_witness :
  isJunkModelId (getModelBaseId "openai/gpt-4") = false.
Proof.
  apply (UtilFacts.kept_models_have_clean_base_ids "openai/gpt-4").
  reflexivity.
Defined.
End UtilFactsExamples.

(** ** The models that a run hands to the processor *)

Module RunnerFacts.
Import Source Dedup Canonical Runner JsFacts ModelMerge.

Lemma filter_agree {A} (P Q : A → Prop) `{∀ x, Decision (P x)}
  `{∀ x, Decision (Q x)} (l : list A) :
  (∀ x, x ∈ l → P x ↔ Q x) → filter P l = filter Q l.
Proof.
  induction l as [|x l IH]; intros Hagree; [done|].
  rewrite !filter_cons, IH.
  - pose proof (Hagree x (list_elem_of_here _ _)).
    destruct (decide (P x)), (decide (Q x)); tauto || done.
  - intros y Hy. by apply Hagree, list_elem_of_further.
Qed.

Lemma lowerChar_idem c : Js.lowerChar (Js.lowerChar c) = Js.lowerChar c.
Proof. by destruct c as [[] [] [] [] [] [] [] []]. Qed.

Lemma toLowerCase_idem s : Js.toLowerCase (Js.toLowerCase s) = Js.toLowerCase s.
Proof.
  induction s as [|c s IH]; [done|]. cbn [Js.toLowerCase].
  by rewrite lowerChar_idem, IH.
Qed.

Lemma toLowerCase_substring n m s :
  Js.toLowerCase (String.substring n m s)
  = String.substring n m (Js.toLowerCase s).
Proof.
  revert n m. induction s as [|c s IH]; intros n m.
  - by destruct n, m.
  - destruct n as [|n]; cbn [String.substring Js.toLowerCase].
    + destruct m as [|m]; [done|]. cbn [Js.toLowerCase]. by rewrite IH.
    + apply IH.
Qed.

Lemma stripFreeSuffix_lowercase model :
  Js.toLowerCase (id model) = id model →
  Js.toLowerCase (id (stripFreeSuffix model)) = id (stripFreeSuffix model).
Proof.
  intros Hlower. unfold stripFreeSuffix. case_match; [|done].
  cbn [id setAliases setId]. unfold Js.sliceEnd.
  by rewrite toLowerCase_substring, Hlower.
Qed.

Section WithBuiltins.
Variable parseFloat : string → Js.JsNumber.
Variable dateValue : string → Js.JsNumber.

Local Abbreviation deduplicateModels :=
  (Dedup.deduplicateModels parseFloat dateValue).
Local Abbreviation modelsFiltered :=
  (Runner.modelsFiltered parseFloat dateValue).

Lemma deduplicated_ids_are_lowercase allModels models :
  deduplicateModels (lowercaseIds allModels) = Js.Ok models →
  ∀ model, model ∈ models → Js.toLowerCase (id model) = id model.
Proof.
  intros (modelsById & Hloop & Hkeyed & ->)%deduplicateModels_Ok c Hc.
  apply canonical_lookup in Hc; [|done].
  destruct (canonical_origin _ _ _ _ Hloop _ _ Hc) as (first & Hin & ->).
  apply stripFreeSuffix_lowercase.
  apply list_elem_of_fmap in Hin as (original & -> & _).
  cbn [id setId]. apply toLowerCase_idem.
Qed.

(** X23.  The models that a run hands to the processor have distinct ids,
    which stay distinct when the case and the punctuation are left out;
    every id is in lower case, and none is on the deny list. *)
Theorem processor_is_given_distinct_lowercase_ids
  (modelDenyList : option (list string))
  (allModels result : list ModelInformation) :
  modelsFiltered modelDenyList allModels = Js.Ok result →
  NoDup (id <$> result)
  ∧ NoDup (makeIdComparable ∘ id <$> result)
  ∧ (∀ model, model ∈ result → Js.toLowerCase (id model) = id model)
  ∧ ∀ denied, modelDenyList = Some denied →
      ∀ model, model ∈ result → id model ∉ denied.
Proof.
  unfold Runner.modelsFiltered.
  intros (models & Hmodels & [= <-])%bind_Ok.
  assert (NoDup (makeIdComparable ∘ id
                   <$> filter (λ model, isAllowed modelDenyList model = true)
                         models)) as Hdistinct.
  { eapply sublist_NoDup; [by eapply deduplicateModels_NoDup|].
    apply fmap_sublist, sublist_filter. }
  split_and!.
  - rewrite list_fmap_compose in Hdistinct. by apply NoDup_fmap_1 in Hdistinct.
  - done.
  - intros model [_ Hin]%list_elem_of_filter.
    by eapply deduplicated_ids_are_lowercase.
  - intros denied -> model [Hallowed _]%list_elem_of_filter.
    cbn [isAllowed] in Hallowed.
    by apply negb_true_iff, bool_decide_eq_false in Hallowed.
Qed.

(** X24.  The deny list is compared with the ids after they have been put
    in lower case: an entry of the deny list that is not in lower case
    removes no model. *)
Theorem deny_list_entries_are_taken_in_lower_case
  (denied : list string) (allModels : list ModelInformation) :
  modelsFiltered (Some denied) allModels
  = modelsFiltered
      (Some (filter (λ entry, Js.toLowerCase entry = entry) denied))
      allModels.
Proof.
  unfold Runner.modelsFiltered.
  destruct (deduplicateModels (lowercaseIds allModels))
    as [models|message] eqn:Hmodels; [|done].
  rewrite !bind_Ok_l. f_equal. apply filter_agree.
  intros model Hin.
  pose proof (deduplicated_ids_are_lowercase _ _ Hmodels model Hin)
    as Hlower.
  cbn [isAllowed]. rewrite !negb_true_iff, !bool_decide_eq_false.
  rewrite list_elem_of_filter. tauto.
Qed.

End WithBuiltins.
End RunnerFacts.

Module RunnerFactsExamples.
Import Source Dedup Canonical Runner.

Lemma processor_is_given_distinct_lowercase_ids_witness :
  NoDup (id <$> MoreSamples.prepared)
  ∧ NoDup (makeIdComparable ∘ id <$> MoreSamples.prepared)
  ∧ (∀ model, model ∈ MoreSamples.prepared → Js.toLowerCase (id model) = id model)
  ∧ ∀ denied, Some ["llama"] = Some denied →
      ∀ model, model ∈ MoreSamples.prepared → id model ∉ denied.
Proof.
  apply (RunnerFacts.processor_is_given_distinct_lowercase_ids
           Builtins.decimalParseFloat Builtins.isoDateValue
           (Some ["llama"]) Sample.spellings MoreSamples.prepared).
  vm_compute. reflexivity.
Defined.
End RunnerFactsExamples.

(** ** Properties of the steps *)

Module StepsFacts.
Import Processed Processor Contract Rerun Steps Summary JsFacts.

(** *** [generateSummaryInformation] *)

Lemma foldl_min_lowest value values :
  foldl Z.min value values ∈ value :: values
  ∧ ∀ other, other ∈ value :: values → (foldl Z.min value values ≤ other)%Z.
Proof.
  revert value. induction values as [|next values IH]; intros value.
  - split; [apply list_elem_of_here|].
    intros other ->%list_elem_of_singleton. done.
  - cbn [foldl]. destruct (IH (Z.min value next)) as [Hin Hle]. split.
    + apply elem_of_cons in Hin as [Heq|Hin].
      * rewrite Heq. destruct (Z.min_spec value next) as [[_ ->]|[_ ->]].
        -- apply list_elem_of_here.
        -- apply list_elem_of_further, list_elem_of_here.
      * by do 2 apply list_elem_of_further.
    + intros other [->|[->|Hin']%elem_of_cons]%elem_of_cons.
      * etrans; [apply Hle, list_elem_of_here|]. lia.
      * etrans; [apply Hle, list_elem_of_here|]. lia.
      * by apply Hle, list_elem_of_further.
Qed.

Lemma elem_of_knownLimits field providers l :
  l ∈ knownLimits field providers
  ↔ (0 < l)%Z ∧ ∃ p, p ∈ providers ∧ field p = Some l.
Proof.
  unfold knownLimits. rewrite list_elem_of_filter, list_elem_of_fmap.
  split.
  - intros [Hpos (p & -> & Hin)]. split; [done|]. exists p. split; [done|].
    destruct (field p); [done|]. simpl in Hpos. lia.
  - intros [Hpos (p & Hin & Hp)]. split; [done|]. exists p.
    by rewrite Hp.
Qed.

Lemma minimum_isLowestKnown field providers :
  isLowestKnown field providers (minimum (knownLimits field providers)).
Proof.
  unfold minimum, isLowestKnown.
  destruct (knownLimits field providers) as [|value values] eqn:Hknown.
  - intros p k Hin Hp.
    destruct (Z.le_gt_cases k 0) as [|Hpos]; [done|].
    assert (k ∈ knownLimits field providers) as Hk.
    { apply elem_of_knownLimits. split; [lia|]. by exists p. }
    rewrite Hknown in Hk. by apply elem_of_nil in Hk.
  - destruct (foldl_min_lowest value values) as [Hin Hle].
    rewrite <- Hknown in Hin, Hle.
    apply elem_of_knownLimits in Hin as [Hpos Hp]. split_and!; [done..|].
    intros p k Hpin Hk Hkpos. apply Hle, elem_of_knownLimits.
    split; [done|]. by exists p.
Qed.

(** X25.  [generateSummaryInformation] gives a model, for its context
    length, its input limit and its output limit, the lowest of the values
    above zero that its providers give, and leaves the limit out when no
    provider gives a value above zero; nothing else of the record is
    changed. *)
Theorem summary_is_the_lowest_known_limit
  (sourceModel : Source.ModelInformation)
  (existingModel : option ProcessedModelInformation)
  (newModel : ProcessedModelInformation) :
  ∃ r,
    generateSummaryInformation sourceModel existingModel newModel = Js.Ok r
    ∧ isLowestKnown contextLength (providers newModel) (modelContextLength r)
    ∧ isLowestKnown inputLimit (providers newModel) (modelInputLimit r)
    ∧ isLowestKnown outputLimit (providers newModel) (modelOutputLimit r)
    ∧ id r = id newModel
    ∧ providers r = providers newModel
    ∧ description r = description newModel
    ∧ deprecated r = deprecated newModel.
Proof.
  eexists. split; [reflexivity|].
  cbn [modelContextLength modelInputLimit modelOutputLimit id providers
         description deprecated].
  split_and!; try done; apply minimum_isLowestKnown.
Qed.

(** *** [generateDescription] *)

Section WithBuiltins.
Variable trim : string → string.
Variable generateAiDescription :
  Source.ModelInformation → Js.Result (option string).
Variable cleanText : string → string.

Local Abbreviation generateDescription :=
  (Steps.generateDescription trim generateAiDescription).
Local Abbreviation getSourceDescription := (Steps.getSourceDescription trim).

Lemma getSourceDescription_truthy sourceModel text :
  getSourceDescription sourceModel = Some text →
  Js.truthy (Some text) = true.
Proof.
  unfold Steps.getSourceDescription.
  destruct (String.eqb (Source.description sourceModel) "") eqn:Hempty;
    [done|].
  cbn [orb]. case_match; [done|]. intros [= <-]. cbn [Js.truthy].
  by rewrite Hempty.
Qed.

Lemma union_singleton_present (descriptions : gmap string string)
  locale text stored :
  descriptions !! locale = Some stored →
  descriptions ∪ {[ locale := text ]} = descriptions.
Proof.
  intros Hstored. apply map_eq. intros key. rewrite lookup_union.
  destruct (decide (key = locale)) as [->|Hne].
  - by rewrite Hstored, lookup_singleton_eq.
  - rewrite lookup_singleton_ne by done. by destruct (descriptions !! key).
Qed.

(** X26.  A description that the catalog has is kept as it is: when the
    record of the catalog has a description with an English text, and
    this text is not empty or the source has a description of its own,
    [generateDescription] gives the new record the description of the
    catalog, whatever the source says now, and without asking for a
    generated description. *)
Theorem description_of_the_catalog_is_kept
  (sourceModel : Source.ModelInformation)
  (existingModel newModel : ProcessedModelInformation)
  (descriptions : gmap string string) (english : string) :
  description existingModel = Some descriptions →
  descriptions !! "en" = Some english →
  english ≠ "" ∨ is_Some (getSourceDescription sourceModel) →
  generateDescription sourceModel (Some existingModel) newModel
  = Js.Ok (setDescription (Some descriptions) newModel).
Proof.
  intros Hdescription Henglish Hsome. unfold Steps.generateDescription.
  cbn [mbind option_bind]. rewrite Hdescription. cbn [mbind option_bind].
  rewrite Henglish.
  destruct (getSourceDescription sourceModel) as [text|] eqn:Hsource.
  - rewrite bind_Ok_l, (getSourceDescription_truthy _ _ Hsource).
    cbn [negb]. by rewrite (union_singleton_present _ _ _ _ Henglish).
  - rewrite bind_Ok_l. destruct Hsome as [Hne|[? [=]]].
    cbn [Js.truthy]. apply String.eqb_neq in Hne as ->. cbn [negb].
    by rewrite (union_singleton_present _ _ _ _ Henglish).
Qed.

(** X27.  [generateDescription] leaves the new record as it is, or it
    gives it a description that has an English text and every text of
    the description that the catalog has for the model; it changes
    nothing else of the record. *)
Theorem description_has_an_english_text
  (sourceModel : Source.ModelInformation)
  (existingModel : option ProcessedModelInformation)
  (newModel r : ProcessedModelInformation) :
  generateDescription sourceModel existingModel newModel = Js.Ok r →
  r = newModel
  ∨ ∃ descriptions,
      r = setDescription (Some descriptions) newModel
      ∧ is_Some (descriptions !! "en")
      ∧ ∀ existing, existingModel ≫= description = Some existing →
          existing ⊆ descriptions.
Proof.
  unfold Steps.generateDescription.
  intros (text & _ & Hr)%bind_Ok.
  destruct (negb (Js.truthy text)); [left; by injection Hr|].
  right. injection Hr as <-. eexists. split; [reflexivity|].
  destruct (existingModel ≫= description) as [existing|].
  - split.
    + rewrite lookup_union. rewrite lookup_singleton_eq.
      by destruct (existing !! "en").
    + intros ? [= <-]. apply map_union_subseteq_l.
  - split; [|done]. rewrite lookup_singleton_eq. by eexists.
Qed.

(** *** The contract of the processor *)

(** The steps keep the contract on which the properties of the
    processor rest: [generateDescription] and
    [generateSummaryInformation] give the record back under its id, and
    [cleanupDescriptions] gives the records back under their ids, in their
    order, each with the locales it had. *)
Theorem steps_keep_the_contract :
  keepsId generateDescription
  ∧ keepsId generateSummaryInformation
  ∧ batchKeepsAll (Steps.cleanupDescriptions cleanText)
  ∧ batchKeepsIds (Steps.cleanupDescriptions cleanText)
  ∧ ∀ models models' : list ProcessedModelInformation,
      Steps.cleanupDescriptions cleanText models = Js.Ok models' →
      (λ model, dom <$> description model) <$> models'
      = (λ model, dom <$> description model) <$> models.
Proof.
  assert (∀ models : list ProcessedModelInformation,
            id <$> ((λ model,
                       match description model with
                       | None => model
                       | Some descriptions =>
                           setDescription (Some (cleanText <$> descriptions))
                             model
                       end) <$> models)
            = id <$> models) as Hids.
  { intros models. rewrite <- list_fmap_compose. apply list_fmap_ext.
    intros _ model _. simpl.
    destruct (description model); reflexivity. }
  split_and!.
  - intros sourceModel existingModel newModel newModel'.
    unfold Steps.generateDescription. intros (text & _ & Hr)%bind_Ok.
    destruct (negb (Js.truthy text)); by injection Hr as <-.
  - by intros sourceModel existingModel newModel newModel' [= <-].
  - intros models models' [= <-]. apply Hids.
  - intros models models' [= <-]. by rewrite Hids.
  - intros models models' [= <-].
    rewrite <- list_fmap_compose. apply list_fmap_ext.
    intros _ model _. unfold compose.
    destruct (description model) as [descriptions|] eqn:Hd; simpl;
      rewrite ?Hd; simpl; [|reflexivity].
    by rewrite dom_fmap_L.
Qed.

End WithBuiltins.
End StepsFacts.

(** ** Properties of the cache *)

Module CacheFacts.
Import Source AppCache.

Section WithBuiltins.
Variable sha256 : string → string.

Local Abbreviation remember := (AppCache.remember sha256).
Local Abbreviation storageKey := (AppCache.storageKey sha256).

(** X28.  What [remember] has returned for a key is returned again for
    that key, without the computation being run and without the storage
    being touched, as long as the value is not [false], [0] or the empty
    string; [null] is remembered like any other value. *)
Theorem remembered_values_are_served
  (key : string) (value value' : Cached Json) (storage storage' : Storage)
  (result : Json) :
  remember key value storage = (Js.Ok result, storage') →
  truthy result || isNull result = true →
  remember key value' storage' = (Js.Ok result, storage').
Proof.
  unfold AppCache.remember. intros Hfirst Htruthy.
  assert (storage' !! storageKey key = Some result) as Hstored.
  { destruct (storage !! storageKey key) as [stored|] eqn:Hlookup.
    - destruct (truthy stored || isNull stored) eqn:Hserved.
      + by injection Hfirst as <- <-.
      + destruct (value storage) as [[r|message] s]; [|done].
        injection Hfirst as <- <-. apply lookup_insert_eq.
    - destruct (value storage) as [[r|message] s]; [|done].
      injection Hfirst as <- <-. apply lookup_insert_eq. }
  by rewrite Hstored, Htruthy.
Qed.

(** X29.  A result that is [false], [0] or the empty string is stored but
    never served: the next call of [remember] for the key runs its
    computation, and stores what it returns. *)
Theorem falsy_values_are_computed_again
  (key : string) (value value' : Cached Json) (storage storage' : Storage)
  (result : Json) :
  remember key value storage = (Js.Ok result, storage') →
  truthy result || isNull result = false →
  storage' !! storageKey key = Some result
  ∧ remember key value' storage'
    = match value' storage' with
      | (Js.Ok result', storage'') =>
          (Js.Ok result', <[storageKey key := result']> storage'')
      | (Js.Throw message, storage'') => (Js.Throw message, storage'')
      end.
Proof.
  unfold AppCache.remember. intros Hfirst Hfalsy.
  assert (storage' !! storageKey key = Some result) as Hstored.
  { destruct (storage !! storageKey key) as [stored|] eqn:Hlookup.
    - destruct (truthy stored || isNull stored) eqn:Hserved.
      + injection Hfirst as <- <-. congruence.
      + destruct (value storage) as [[r|message] s]; [|done].
        injection Hfirst as <- <-. apply lookup_insert_eq.
    - destruct (value storage) as [[r|message] s]; [|done].
      injection Hfirst as <- <-. apply lookup_insert_eq. }
  split; [done|]. by rewrite Hstored, Hfalsy.
Qed.

End WithBuiltins.
End CacheFacts.

(** ** The steps and the cache on sample records *)

Module StepsFactsExamples.
Import Processed Processor Steps AppCache.

Example summary_of_two_providers :
  let offer (id : string) (context output : option Z) :=
    {| providerId := id; contextLength := context; inputLimit := None;
       outputLimit := output; price := ∅ |} in
  ∃ r,
    generateSummaryInformation Sample.paid None
      (Steps.setDescription None
         {| id := "m"; aliases := []; name := "m"; input := []; output := [];
            reasoning := None; openWeights := None; toolCalling := None;
            knowledge := None; parameters := None; defaultParameters := None;
            freeProviders := None; description := None;
            modelContextLength := Some 1%Z; modelInputLimit := Some 1%Z;
            modelOutputLimit := None; deprecated := None;
            lastImportedAt := None;
            providers := [offer "a" (Some 8192%Z) (Some 0%Z);
                          offer "b" (Some 4096%Z) None;
                          offer "c" None (Some (-1)%Z)] |})
    = Js.Ok r
    ∧ modelContextLength r = Some 4096%Z
    ∧ modelInputLimit r = None
    ∧ modelOutputLimit r = None.
Proof. eexists. split_and!; [reflexivity|done..]. Qed.

Lemma description_of_the_catalog_is_kept_witness :
  generateDescription (λ s, s) (λ _, Js.Throw "offline")
    (Source.setDescription "A new text." Sample.paid)
    (Some (Sample.record "m" None))
    (freshModel Sample.paid (Builtins.clockReading 0))
  = Js.Ok (Steps.setDescription (Some {[ "en" := "A model." ]})
             (freshModel Sample.paid (Builtins.clockReading 0))).
Proof.
  apply (StepsFacts.description_of_the_catalog_is_kept (λ s, s)
           (λ _, Js.Throw "offline")
           (Source.setDescription "A new text." Sample.paid)
           (Sample.record "m" None)
           (freshModel Sample.paid (Builtins.clockReading 0))
           {[ "en" := "A model." ]} "A model.").
  - reflexivity.
  - reflexivity.
  - left. discriminate.
Defined.

Lemma description_has_an_english_text_witness :
  let newModel := freshModel Sample.newcomer (Builtins.clockReading 0) in
  let r := Steps.setDescription (Some {[ "en" := "A new model." ]}) newModel in
  r = newModel
  ∨ ∃ descriptions,
      r = Steps.setDescription (Some descriptions) newModel
      ∧ is_Some (descriptions !! "en")
      ∧ ∀ existing, None ≫= description = Some existing →
          existing ⊆ descriptions.
Proof.
  apply (StepsFacts.description_has_an_english_text (λ s, s)
           (λ _, Js.Throw "offline")
           (Source.setDescription "A new model." Sample.newcomer) None
           (freshModel Sample.newcomer (Builtins.clockReading 0))).
  vm_compute. reflexivity.
Defined.

(** A computation that counts its runs in the storage and returns a text,
    and then one that throws. *)
Example remember_on_an_empty_storage :
  let fetch : Cached Source.Json :=
    λ storage, (Js.Ok (Source.JString "card"),
                <[ "runs" := Source.JNumber 1 ]> storage) in
  let first := remember Builtins.plainDigest "card-m" fetch ∅ in
  let second :=
    remember Builtins.plainDigest "card-m" (λ s, (Js.Throw "offline", s))
      first.2 in
  first.1 = Js.Ok (Source.JString "card")
  ∧ first.2
    = {[ "card-m" := Source.JString "card"; "runs" := Source.JNumber 1 ]}
  ∧ second = first.
Proof. repeat split; vm_compute; reflexivity. Qed.

Lemma remembered_values_witness :
  remember Builtins.plainDigest "card-m" (λ s, (Js.Throw "offline", s))
    {[ "card-m" := Source.JNull ]}
  = (Js.Ok Source.JNull, {[ "card-m" := Source.JNull ]}).
Proof.
  apply (CacheFacts.remembered_values_are_served Builtins.plainDigest
           "card-m" (λ s, (Js.Ok Source.JNull, s))
           (λ s, (Js.Throw "offline", s)) ∅).
  - vm_compute. reflexivity.
  - reflexivity.
Defined.

Lemma falsy_values_witness :
  ({[ "card-m" := Source.JString "" ]} : Storage)
    !! storageKey Builtins.plainDigest "card-m"
  = Some (Source.JString "")
  ∧ remember Builtins.plainDigest "card-m" (λ s, (Js.Throw "offline", s))
      {[ "card-m" := Source.JString "" ]}
    = (Js.Throw "offline", {[ "card-m" := Source.JString "" ]}).
Proof.
  apply (CacheFacts.falsy_values_are_computed_again Builtins.plainDigest
           "card-m" (λ s, (Js.Ok (Source.JString ""), s))
           (λ s, (Js.Throw "offline", s)) ∅).
  - vm_compute. reflexivity.
  - reflexivity.
Defined.
End StepsFactsExamples.

(** ** Properties of the source models.dev *)

Module SourceFacts.
Import Source Dedup Known Canonical Classes Offerings SourceRecords.
Import JsFacts OfferingMerge ModelMerge OfferingFacts ModelFacts.

Lemma orUndefined_not_false flag : ModelsDev.orUndefined flag ≠ Some false.
Proof. by destruct flag as [[]|]. Qed.

Lemma mergedFlag_not_false existing incoming :
  existing ≠ Some false → incoming ≠ Some false →
  mergedFlag existing incoming ≠ Some false.
Proof. by destruct existing as [[]|], incoming as [[]|]. Qed.

Section WithBuiltins.
Variable toFixed2 : Qc → string.
Variable isoDay : string → Js.Result string.
Variable parseFloat : string → Js.JsNumber.
Variable dateValue : string → Js.JsNumber.

Local Abbreviation normalizeModel :=
  (ModelsDev.normalizeModel toFixed2 isoDay).
Local Abbreviation normalizeModels :=
  (ModelsDev.normalizeModels toFixed2 isoDay).
Local Abbreviation modelsDevSource :=
  (ModelsDev.modelsDevSource toFixed2 isoDay parseFloat dateValue).
Local Abbreviation deduplicateModels :=
  (Dedup.deduplicateModels parseFloat dateValue).
Local Abbreviation deduplicateProviders :=
  (Dedup.deduplicateProviders parseFloat).

Lemma normalizeModel_fromModelsDev model info :
  normalizeModel model = Js.Ok info → fromModelsDev info.
Proof.
  unfold ModelsDev.normalizeModel.
  intros (cutoff & _ & [= <-])%bind_Ok. split_and!.
  - by eexists.
  - intros []; apply orUndefined_not_false.
  - by repeat constructor.
  - constructor.
Qed.

Lemma normalizeModels_fromModelsDev models records :
  normalizeModels models = Js.Ok records →
  Forall fromModelsDev records.
Proof.
  apply (forOf_invariant _ (λ _ records, Forall fromModelsDev records));
    [constructor|].
  intros pre x s s' _ IH (info & Hinfo & [= <-])%bind_Ok.
  apply Forall_app. split; [done|].
  apply Forall_cons. split; [|constructor].
  by eapply normalizeModel_fromModelsDev.
Qed.

Lemma mergeOrPush_allIn currency deduplicated provider :
  allIn currency deduplicated →
  currencyOf provider = Some currency →
  allIn currency (Dedup.mergeOrPush parseFloat deduplicated provider).
Proof.
  intros Hall Hprovider.
  induction Hall as [|p rest Hp Hrest IH]; cbn [Dedup.mergeOrPush].
  - by repeat constructor.
  - destruct (sameProvider p provider) eqn:Hsame.
    + constructor; [|done]. by rewrite mergeProvider_currency.
    + by constructor.
Qed.

Lemma deduplicateProviders_allIn currency offerings :
  allIn currency offerings →
  allIn currency (deduplicateProviders offerings).
Proof.
  induction offerings as [|provider offerings IH] using rev_ind;
    [done|].
  intros [Hall [Hprovider _]%Forall_cons]%Forall_app.
  rewrite deduplicateProviders_snoc.
  apply mergeOrPush_allIn; [by apply IH|done].
Qed.

Lemma stripFreeSuffix_fromModelsDev model :
  fromModelsDev model → fromModelsDev (stripFreeSuffix model).
Proof.
  intros (Hparameters & Hflags & Hproviders & Hfree).
  destruct (stripFreeSuffix_fields model) as (Hp & Hf & Hfl).
  destruct (stripFreeSuffix_rest model) as (_ & _ & _ & _ & Hpa & _).
  unfold fromModelsDev. rewrite Hp, Hf, Hpa.
  split_and!; [done| |done..]. intros flag. by rewrite Hfl.
Qed.

Lemma mergeModel_fromModelsDev free existingModel model merged :
  fromModelsDev existingModel → fromModelsDev model →
  mergeModel parseFloat dateValue free existingModel model = Js.Ok merged →
  fromModelsDev merged.
Proof.
  intros (He1 & He2 & He3 & He4) (Hm1 & Hm2 & Hm3 & Hm4) Hmerge.
  destruct (mergeModel_returns parseFloat dateValue free existingModel
              model He1 Hm1) as (merged' & Hmerge' & Hparameters).
  assert (merged' = merged) as -> by congruence.
  apply mergeModel_Ok in Hmerge as (_ & _ & Hp & Hf & Hfl).
  unfold fromModelsDev. rewrite Hp, Hf. split_and!.
  - done.
  - intros flag. rewrite Hfl. by apply mergedFlag_not_false.
  - destruct free; [done|].
    apply deduplicateProviders_allIn, Forall_app. by split.
  - destruct free; [|done]. cbn [default from_option Datatypes.id].
    apply deduplicateProviders_allIn, Forall_app. by split.
Qed.

(** X30.  What models.dev gives is always merged: when the dates of
    knowledge of the models that are no junk can be read,
    [modelsDevSource] returns, and every model that it returns has its
    array of parameters, no flag that is [false], and offerings that are
    all priced in US dollars. *)
Theorem models_dev_records_are_merged
  (fetchedModels : list ModelsDev.ModelsDevModel)
  (records : list ModelInformation) :
  normalizeModels
    (filter (λ model, Util.isJunkModelId (ModelsDev.id model) = false)
       fetchedModels) = Js.Ok records →
  ∃ result,
    modelsDevSource fetchedModels = Js.Ok result
    ∧ ∀ c, c ∈ result → fromModelsDev c.
Proof.
  intros Hrecords. unfold ModelsDev.modelsDevSource.
  rewrite Hrecords, bind_Ok_l.
  apply normalizeModels_fromModelsDev in Hrecords.
  rewrite Forall_forall in Hrecords.
  destruct (deduplicateModels_returns parseFloat dateValue records)
    as [result Hrun].
  { intros model Hin. by apply Hrecords. }
  exists result. split; [done|]. intros c Hin.
  cut (Forall fromModelsDev (classOf (makeIdComparable (id c)) records)
       → fromModelsDev c).
  { intros Hcut. apply Hcut, Forall_forall.
    intros m [_ Hm]%list_elem_of_filter. by apply Hrecords. }
  revert Hrun Hin.
  apply (canonical_invariant parseFloat dateValue
           (λ class c, Forall fromModelsDev class → fromModelsDev c)).
  - intros first [Hfirst _]%Forall_cons.
    by apply stripFreeSuffix_fromModelsDev.
  - intros pre x e merged IH Hmerge [Hpre [Hx _]%Forall_cons]%Forall_app.
    eapply mergeModel_fromModelsDev; [by apply IH| |done].
    by apply stripFreeSuffix_fromModelsDev.
Qed.

End WithBuiltins.
End SourceFacts.

(** ** The source models.dev on sample models *)

Module SourceFactsExamples.
Import Source SourceRecords.

Example models_of_the_sample :
  (id <$> UpstreamSamples.records) = ["gpt-4"; "GPT-4"; "llama-3:free"]
  ∧ (aliases <$> UpstreamSamples.records)
    = [["openai/gpt-4"; "gpt-4"]; ["azure/gpt-4"; "gpt-4"];
       ["meta/llama-3:free"; "llama-3:free"]]
  ∧ (knowledge <$> UpstreamSamples.records)
    = [Some "2023-04-01"; Some "2023-04-15"; None]
  ∧ (reasoning <$> UpstreamSamples.records) = [None; Some true; None]
  ∧ (parameters <$> UpstreamSamples.records)
    = [Some ["tools"]; Some ["tools"]; Some ["tools"]]
  ∧ (input <$> UpstreamSamples.records) = [[InText]; [InText]; [InText]]
  ∧ (contextLength <$> (UpstreamSamples.records ≫= providers))
    = [None; None; None]
  ∧ ModelsDev.knowledgeRegex "2023-13" = false
  ∧ ModelsDev.knowledgeRegex "2023-02-31" = true
  ∧ ModelsDev.knowledgeRegex "2023-02-32" = false
  ∧ ModelsDev.knowledgeRegex "2023-02-3" = false
  ∧ ModelsDev.knowledgeRegex "2023-04 " = false.
Proof. vm_compute. done. Qed.

Lemma models_dev_records_witness :
  ∃ result,
    ModelsDev.modelsDevSource UpstreamSamples.zeroFixed
      UpstreamSamples.isoDay Builtins.decimalParseFloat Builtins.isoDateValue
      UpstreamSamples.fetched = Js.Ok result
    ∧ ∀ c, c ∈ result → fromModelsDev c.
Proof.
  apply (SourceFacts.models_dev_records_are_merged UpstreamSamples.zeroFixed
           UpstreamSamples.isoDay Builtins.decimalParseFloat
           Builtins.isoDateValue UpstreamSamples.fetched
           UpstreamSamples.records).
  vm_compute. reflexivity.
Defined.
End SourceFactsExamples.
